(** * LangSpace MDAP executor: a shallow embedding

    The development follows the Go source of the MDAP (Massively Decomposed
    Agentic Processes) runtime, package [runtime], as found in
    [pkg/workspace/loader.go]: the configuration loader, the response
    parser, the red-flag filter, the vote arbiter ([hasWinner], [getWinner]),
    the per-step voting loop and the step loop of [executeMDAPPipeline].
    The dispatch and the workspace loader ([Load], package [workspace],
    of the same file) come after the executor.

    Conventions.
    - Go [int] is a 64-bit two's-complement integer: values are in [Z] and
      the arithmetic of the source on counts and configuration values is
      followed by [wrap].  The two loop counters that their loop guard
      keeps below an [int] ([stepIdx], [round]) and [TotalMicrosteps],
      which follows [stepIdx], are incremented without it.
    - Go [float64] is an IEEE-754 binary64 value: [SpecFloat.spec_float].
    - Go maps are [gmap]s; a [range] over a map visits the entries in an
      order chosen by the Go runtime, see [MapOrder].
    - A Go panic is the [Panicked] outcome.
    - Calls on the execution context ([EmitProgress], [SetStepOutput]) are
      recorded, in order, in a trace of [CtxCall]s.
    - Wall-clock fields ([StartTime], [EndTime], [Duration], [Timestamp])
      carry no information for the properties below and are left out.
    - Types and functions of other packages ([ast], the workspace, the
      resolver, the providers, [fmt]) are modelled from their uses here;
      the functions are fields of [Runtime]. *)

From Stdlib Require Import ZArith String Ascii List DecimalString Lia.
From Stdlib Require Import Floats.SpecFloat.
From stdpp Require Import gmap strings list fin_maps.

Set Warnings "-register-all".
Local Open Scope string_scope.
Local Open Scope list_scope.
Local Open Scope Z_scope.

(** ** Go primitives *)

Definition int_min : Z := - 2 ^ 63.
Definition int_max : Z := 2 ^ 63 - 1.

(** Two's-complement wrap-around of a 64-bit [int]. *)
Definition wrap (z : Z) : Z := (z + 2 ^ 63) mod 2 ^ 64 - 2 ^ 63.

Definition float64 : Type := spec_float.

(** [int(f)] for a [float64]: truncation toward zero.  When the value does
    not fit the Go specification leaves the result to the implementation;
    the amd64 result (the minimal integer) is used here. *)
Definition int_of_float64 (f : float64) : Z :=
  match f with
  | S754_zero _ => 0
  | S754_finite s m e =>
      let mag := Z.shiftl (Z.pos m) e in
      let v := if s then - mag else mag in
      if (int_min <=? v) && (v <=? int_max) then v else int_min
  | S754_infinity _ | S754_nan => int_min
  end.

(** The [float64] nearest to an integer, in canonical form
    (used to write number literals such as [k: 3]). *)
Definition float64_of_Z (z : Z) : float64 := binary_normalize 53 1024 z 0 false.

(** [0.1] as a binary64 value: 0x3FB999999999999A. *)
Definition float64_0_1 : float64 := S754_finite false 7205759403792794 (-56).

(** The verb [%d]. *)
Definition fmtD (z : Z) : string := NilZero.string_of_int (Z.to_int z).

(** [interface{}] values that flow through the executor as state, sample
    payloads and step outputs. *)
Inductive Any : Type :=
| ANil
| AString (s : string)
| AEmptyMap
| AObject (fields : list (string * string)).

(** ** The entity model (package [ast], seen through its uses) *)

Inductive Value : Type :=
| StringValue (v : string)
| NumberValue (v : float64)
| BoolValue (v : bool)
| ReferenceValue (type name : string)
| ObjectValue (fields : list (string * Value)).

(** A property bag: [GetProperty] is a lookup by key. *)
Definition GetProperty (bag : gmap string Value) (key : string) : option Value :=
  bag !! key.

Record Entity : Type := mkEntity {
  ent_Type : string;
  ent_Name : string;
  ent_Properties : gmap string Value
}.

Record MicrostepEntity : Type := mkMicrostep {
  ms_Name : string;
  ms_Properties : gmap string Value
}.

Definition NewMicrostepEntity (name : string) : MicrostepEntity :=
  mkMicrostep name ∅.

Definition ms_SetProperty (step : MicrostepEntity) (key : string) (v : Value)
  : MicrostepEntity :=
  mkMicrostep (ms_Name step) (<[key := v]> (ms_Properties step)).

Record MDAPPipelineEntity : Type := mkPipeline {
  pl_Name : string;
  pl_Properties : gmap string Value;
  pl_Microsteps : list MicrostepEntity;
  (** [Config == nil] is [None]. *)
  pl_Config : option (gmap string Value)
}.

Inductive AnyEntity : Type :=
| IsMDAPPipeline (p : MDAPPipelineEntity)
| IsOther (e : Entity).

(** ** Configuration *)

(** [*regexp.Regexp]: only [MatchString] is used. *)
Record Regexp : Type := mkRegexp { MatchString : string → bool }.

Record MDAPConfig : Type := mkConfig {
  VotingStrategy : string;
  K : Z;
  ParallelSamples : Z;
  TemperatureFirst : float64;
  TemperatureSubsequent : float64;
  MaxOutputTokens : Z;
  RequireFormat : bool;
  CheckpointInterval : Z;
  MaxRetries : Z;
  OutputPattern : option Regexp
}.

Definition DefaultMDAPConfig : MDAPConfig :=
  {| VotingStrategy := "first-to-ahead-by-k";
     K := 3;
     ParallelSamples := 3;
     TemperatureFirst := S754_zero false;
     TemperatureSubsequent := float64_0_1;
     MaxOutputTokens := 750;
     RequireFormat := true;
     CheckpointInterval := 1000;
     MaxRetries := 100;
     OutputPattern := None |}.

Definition set_VotingStrategy (c : MDAPConfig) (v : string) : MDAPConfig :=
  mkConfig v (K c) (ParallelSamples c) (TemperatureFirst c)
    (TemperatureSubsequent c) (MaxOutputTokens c) (RequireFormat c)
    (CheckpointInterval c) (MaxRetries c) (OutputPattern c).
Definition set_K (c : MDAPConfig) (v : Z) : MDAPConfig :=
  mkConfig (VotingStrategy c) v (ParallelSamples c) (TemperatureFirst c)
    (TemperatureSubsequent c) (MaxOutputTokens c) (RequireFormat c)
    (CheckpointInterval c) (MaxRetries c) (OutputPattern c).
Definition set_ParallelSamples (c : MDAPConfig) (v : Z) : MDAPConfig :=
  mkConfig (VotingStrategy c) (K c) v (TemperatureFirst c)
    (TemperatureSubsequent c) (MaxOutputTokens c) (RequireFormat c)
    (CheckpointInterval c) (MaxRetries c) (OutputPattern c).
Definition set_TemperatureFirst (c : MDAPConfig) (v : float64) : MDAPConfig :=
  mkConfig (VotingStrategy c) (K c) (ParallelSamples c) v
    (TemperatureSubsequent c) (MaxOutputTokens c) (RequireFormat c)
    (CheckpointInterval c) (MaxRetries c) (OutputPattern c).
Definition set_TemperatureSubsequent (c : MDAPConfig) (v : float64) : MDAPConfig :=
  mkConfig (VotingStrategy c) (K c) (ParallelSamples c) (TemperatureFirst c)
    v (MaxOutputTokens c) (RequireFormat c)
    (CheckpointInterval c) (MaxRetries c) (OutputPattern c).
Definition set_MaxOutputTokens (c : MDAPConfig) (v : Z) : MDAPConfig :=
  mkConfig (VotingStrategy c) (K c) (ParallelSamples c) (TemperatureFirst c)
    (TemperatureSubsequent c) v (RequireFormat c)
    (CheckpointInterval c) (MaxRetries c) (OutputPattern c).
Definition set_RequireFormat (c : MDAPConfig) (v : bool) : MDAPConfig :=
  mkConfig (VotingStrategy c) (K c) (ParallelSamples c) (TemperatureFirst c)
    (TemperatureSubsequent c) (MaxOutputTokens c) v
    (CheckpointInterval c) (MaxRetries c) (OutputPattern c).
Definition set_CheckpointInterval (c : MDAPConfig) (v : Z) : MDAPConfig :=
  mkConfig (VotingStrategy c) (K c) (ParallelSamples c) (TemperatureFirst c)
    (TemperatureSubsequent c) (MaxOutputTokens c) (RequireFormat c)
    v (MaxRetries c) (OutputPattern c).

(** One [if prop, ok := cfg.GetProperty(key); ok { if v, ok := prop.(T); ok
    { ... } }] block for each of the three value types read by the loader. *)
Definition withString (cfg : gmap string Value) (key : string)
    (upd : MDAPConfig → string → MDAPConfig) (c : MDAPConfig) : MDAPConfig :=
  match GetProperty cfg key with
  | Some (StringValue sv) => upd c sv
  | _ => c
  end.

Definition withNumber (cfg : gmap string Value) (key : string)
    (upd : MDAPConfig → float64 → MDAPConfig) (c : MDAPConfig) : MDAPConfig :=
  match GetProperty cfg key with
  | Some (NumberValue nv) => upd c nv
  | _ => c
  end.

Definition withBool (cfg : gmap string Value) (key : string)
    (upd : MDAPConfig → bool → MDAPConfig) (c : MDAPConfig) : MDAPConfig :=
  match GetProperty cfg key with
  | Some (BoolValue bv) => upd c bv
  | _ => c
  end.

(** The body of the [k] block: [config.K = int(nv.Value)], then
    [ParallelSamples] follows [K] only when it is still [0]. *)
Definition assignK (c : MDAPConfig) (nv : float64) : MDAPConfig :=
  let c1 := set_K c (int_of_float64 nv) in
  if ParallelSamples c1 =? 0 then set_ParallelSamples c1 (K c1) else c1.

Definition loadMDAPConfig (pipeline : MDAPPipelineEntity) : MDAPConfig :=
  let config := DefaultMDAPConfig in
  match pl_Config pipeline with
  | None => config
  | Some cfg =>
      let config := withString cfg "voting_strategy" set_VotingStrategy config in
      let config := withNumber cfg "k" assignK config in
      let config := withNumber cfg "parallel_samples"
                      (λ c nv, set_ParallelSamples c (int_of_float64 nv)) config in
      let config := withNumber cfg "temperature_first" set_TemperatureFirst config in
      let config := withNumber cfg "temperature_subsequent"
                      set_TemperatureSubsequent config in
      let config := withNumber cfg "max_output_tokens"
                      (λ c nv, set_MaxOutputTokens c (int_of_float64 nv)) config in
      let config := withBool cfg "require_format" set_RequireFormat config in
      let config := withNumber cfg "checkpoint_interval"
                      (λ c nv, set_CheckpointInterval c (int_of_float64 nv)) config in
      config
  end.

(** ** Strings (packages [strings], [unicode], [unicode/utf8]) *)

(** A Go string is a sequence of bytes.  [strings.TrimSpace] reads it as
    UTF-8 and removes the white space runes at both ends, where white
    space is what [unicode.IsSpace] accepts: the table [White_Space]. *)
Definition spaceRunes : list Z :=
  [9; 10; 11; 12; 13; 32;          (* U+0009 .. U+000D, U+0020 *)
   133; 160;                       (* U+0085, U+00A0 *)
   5760;                           (* U+1680 *)
   8192; 8193; 8194; 8195; 8196; 8197; 8198; 8199; 8200; 8201; 8202;
                                   (* U+2000 .. U+200A *)
   8232; 8233;                     (* U+2028, U+2029 *)
   8239; 8287; 12288].             (* U+202F, U+205F, U+3000 *)

Definition byte (z : Z) : ascii := ascii_of_N (Z.to_N z).

(** The UTF-8 encoding of a rune below U+10000
    ([utf8.AppendRune]; surrogates do not occur here). *)
Definition EncodeRune (r : Z) : string :=
  if r <? 128 then String (byte r) EmptyString
  else if r <? 2048 then
    String (byte (192 + r / 64)) (String (byte (128 + r mod 64)) EmptyString)
  else
    String (byte (224 + r / 4096))
      (String (byte (128 + (r / 64) mod 64))
         (String (byte (128 + r mod 64)) EmptyString)).

(** The UTF-8 encodings of the white space runes. *)
Definition spaceEncodings : list string :=
  Eval cbv in map EncodeRune spaceRunes.

(** The bytes [u] are the encoding of one white space rune.  The decoder
    of Go ([utf8.DecodeRuneInString], [utf8.DecodeLastRuneInString])
    yields a white space rune exactly on these byte sequences: it
    accepts only the shortest encoding of a rune, and it turns any other
    sequence into [RuneError], one byte wide, which is no white
    space. *)
Definition isSpaceRune (u : string) : bool :=
  existsb (String.eqb u) spaceEncodings.

(** [strings.TrimLeftFunc(s, unicode.IsSpace)]: the runes are decoded
    from the left; the encoding of a white space rune is one, two or
    three bytes long. *)
Fixpoint TrimLeft (s : string) : string :=
  match s with
  | EmptyString => EmptyString
  | String c r =>
      if isSpaceRune (String c EmptyString) then TrimLeft r
      else
        match r with
        | EmptyString => s
        | String d r2 =>
            if isSpaceRune (String c (String d EmptyString)) then TrimLeft r2
            else
              match r2 with
              | EmptyString => s
              | String e r3 =>
                  if isSpaceRune (String c (String d (String e EmptyString)))
                  then TrimLeft r3
                  else s
              end
        end
  end.

(** [strings.TrimRightFunc(s, unicode.IsSpace)]: the runes are decoded
    from the right.  With [r'] what is left of the tail [r], the byte [c]
    goes too exactly when [c] followed by [r'] is the encoding of one
    white space rune: the first byte of such an encoding occurs nowhere
    else in an encoding, so that a white space rune at the end of
    [String c r'] that does not start at [c] would lie within [r']. *)
Fixpoint TrimRight (s : string) : string :=
  match s with
  | EmptyString => EmptyString
  | String c r =>
      let r' := TrimRight r in
      if isSpaceRune (String c r') then EmptyString else String c r'
  end.

Definition TrimSpace (s : string) : string := TrimRight (TrimLeft s).

Definition HasPrefix (s pre : string) : bool := String.prefix pre s.

(** [strings.Split(s, "\n")]: never empty, [Split("") = [""]]. *)
Fixpoint SplitLines (s : string) : list string :=
  match s with
  | EmptyString => [EmptyString]
  | String c r =>
      if Ascii.eqb c "010"%char then EmptyString :: SplitLines r
      else match SplitLines r with
           | l :: ls => String c l :: ls
           | [] => [String c EmptyString]
           end
  end.

(** [strings.SplitN(s, "=", 2)]: [Some (before, after)] stands for the
    two-element slice, [None] for the one-element slice [[s]]. *)
Fixpoint SplitAtEq (s : string) : option (string * string) :=
  match s with
  | EmptyString => None
  | String c r =>
      if Ascii.eqb c "="%char then Some (EmptyString, r)
      else match SplitAtEq r with
           | Some (before, after) => Some (String c before, after)
           | None => None
           end
  end.

(** ** Response parser *)

(** The body of the loop over the lines of a response. *)
Definition parseHanoiLine (acc : string * Any) (line : string) : string * Any :=
  let line := TrimSpace line in
  let acc :=
    if HasPrefix line "move" || HasPrefix line "Move" then
      match SplitAtEq line with
      | Some (_, rhs) => (TrimSpace rhs, snd acc)
      | None => acc
      end
    else acc in
  if HasPrefix line "next_state" || HasPrefix line "Next_state" then
    match SplitAtEq line with
    | Some (_, rhs) => (fst acc, AString (TrimSpace rhs))
    | None => acc
    end
  else acc.

Definition parseHanoiResponse (content : string) : string * Any :=
  fold_left parseHanoiLine (SplitLines content) ("", ANil).

(** ** Samples and the red-flag filter *)

Record MDAPSample : Type := mkSample {
  Content : string;
  Action : string;
  NextState : Any;
  TokenCount : Z;
  RedFlagged : bool;
  RedFlagReason : string
}.

(** [sample.RedFlagged = true; sample.RedFlagReason = reason]. *)
Definition redFlag (sample : MDAPSample) (reason : string) : MDAPSample :=
  mkSample (Content sample) (Action sample) (NextState sample)
    (TokenCount sample) true reason.

(** [isRedFlagged] returns its verdict together with the sample as the
    call leaves it (the Go function writes the flag and the reason
    through the pointer). *)
Definition isRedFlagged (sample : MDAPSample) (config : MDAPConfig)
  : bool * MDAPSample :=
  if RedFlagged sample then (true, sample)
  else if (0 <? MaxOutputTokens config)
          && (MaxOutputTokens config <? TokenCount sample) then
    (true, redFlag sample
             ("response too long: " +:+ fmtD (TokenCount sample)
              +:+ " tokens > " +:+ fmtD (MaxOutputTokens config)))
  else
    let formatFails :=
      if RequireFormat config then
        match OutputPattern config with
        | Some re => negb (MatchString re (Content sample))
        | None => false
        end
      else false in
    if formatFails then
      (true, redFlag sample "response does not match required format")
    else if String.eqb (Action sample) "" then
      (true, redFlag sample "could not extract action from response")
    else (false, sample).

(** ** Vote arbiter *)

(** The order in which [for ... := range votes] yields the entries of a
    map.  Go leaves it unspecified: any enumeration of the entries is a
    legal one.  The enumeration is taken as a function of the map; what
    is proved below about [hasWinner] and [getWinner] holds for every
    pair of enumerations, hence also when the runtime changes the order
    from one loop to the next. *)
Record MapOrder : Type := mkMapOrder {
  range : gmap string Z → list (string * Z);
  range_perm : ∀ m, range m ≡ₚ map_to_list m
}.

Definition hasWinner_body (acc : Z * Z) (v : Z) : Z * Z :=
  let '(maxVotes, secondMax) := acc in
  if maxVotes <? v then (v, maxVotes)
  else if secondMax <? v then (maxVotes, v)
  else (maxVotes, secondMax).

Definition hasWinner (ord : MapOrder) (votes : gmap string Z) (k : Z) : bool :=
  if (size votes =? 0)%nat then false
  else
    let '(maxVotes, secondMax) :=
      fold_left hasWinner_body (map snd (range ord votes)) (0, 0) in
    wrap (secondMax + k) <=? maxVotes.

Definition getWinner_body (acc : Z * string) (e : string * Z) : Z * string :=
  let '(maxVotes, winner) := acc in
  let '(action, v) := e in
  if maxVotes <? v then (v, action) else (maxVotes, winner).

Definition getWinner (ord : MapOrder) (votes : gmap string Z) : string :=
  snd (fold_left getWinner_body (range ord votes) (0, "")).

(** Two enumerations used in examples: the canonical one and its reverse. *)
Definition canonicalOrder : MapOrder :=
  mkMapOrder map_to_list (λ m, reflexivity _).

Definition reversedOrder : MapOrder :=
  mkMapOrder (λ m, reverse (map_to_list m))
    (λ m, reverse_Permutation (map_to_list m)).

(** ** Results, errors and the runtime's collaborators *)

Inductive Outcome (A : Type) : Type :=
| Returned (a : A)
| Panicked (msg : string).
Arguments Returned {A} a.
Arguments Panicked {A} msg.

(** The error values built in this file, and those handed over by a
    collaborator (only their message is known). *)
Inductive error : Type :=
| ExternalError (msg : string)
| ErrNotPipeline
| ErrNoUse (step : string)
| ErrExpectedAgent (type : string)
| ErrCannotResolve (v : Value)
| ErrNoConsensus (total rejected : Z)
| ErrMicrostepFailed (step : string) (cause : error).

Inductive result (A : Type) : Type :=
| Ok (a : A)
| Err (e : error).
Arguments Ok {A} a.
Arguments Err {A} e.

Record CompletionRequest : Type := mkRequest {
  req_Model : string;
  req_SystemPrompt : string;
  (** [Messages]: a single message, role [RoleUser], with this content. *)
  req_UserMessage : string;
  req_Temperature : float64;
  req_MaxTokens : Z
}.

Record CompletionResponse : Type := mkResponse {
  resp_Content : string;
  resp_OutputTokens : Z
}.

(** What [provider.Complete] answers to the request issued for sample
    [idx] of round [round] of step [stepIdx].  The provider is a remote
    service with its own state: the three coordinates name the call. *)
Definition LLMProvider : Type :=
  nat → nat → nat → CompletionRequest → result CompletionResponse.

Record Runtime : Type := mkRuntime {
  (** [resolver.workspace.GetAgent] *)
  GetAgent : string → result Entity;
  (** [r.workspace.GetEntityByName] *)
  GetEntityByName : string → string → option Entity;
  (** [resolver.Resolve] followed by the assertion [resolved.(ast.Entity)] *)
  Resolve : Value → result (option Entity);
  getAgentSystemPrompt : Entity → result string;
  getAgentModel : Entity → string;
  getProviderForModel : string → result LLMProvider;
  (** iteration order of [range] over the vote map *)
  mapOrder : MapOrder;
  (** the verbs [%v] (on a state), [%q] and [%T] of package [fmt] *)
  fmtV : Any → string;
  fmtQ : string → string;
  fmtT : Value → string;
  (** [time.Since(startTime).String()] when the pipeline completes *)
  elapsed : string
}.

(** [err.Error()]. *)
Fixpoint ErrorText (r : Runtime) (e : error) : string :=
  match e with
  | ExternalError msg => msg
  | ErrNotPipeline => "entity is not an MDAP pipeline"
  | ErrNoUse step => "microstep " +:+ fmtQ r step +:+ " has no 'use' property"
  | ErrExpectedAgent type => "expected agent reference, got " +:+ type
  | ErrCannotResolve v => "cannot resolve agent from " +:+ fmtT r v
  | ErrNoConsensus total rejected =>
      "failed to reach consensus after " +:+ fmtD total +:+ " samples ("
      +:+ fmtD rejected +:+ " rejected)"
  | ErrMicrostepFailed step cause =>
      "microstep " +:+ fmtQ r step +:+ " failed: " +:+ ErrorText r cause
  end.

Record StepResult : Type := mkStepResult {
  sr_Name : string;
  sr_Success : bool;
  sr_Output : Any;
  sr_Error : option error
}.

Record ExecutionResult : Type := mkExecutionResult {
  er_Success : bool;
  er_Output : Any;
  er_Error : option error;
  er_Metadata : gmap string string;
  er_StepResults : gmap string StepResult
}.

Record MDAPCheckpoint : Type := mkCheckpoint {
  StepIndex : Z;
  State : Any
}.

Record MDAPExecutionResult : Type := mkMDAPResult {
  (** the embedded [*ExecutionResult] *)
  Embedded : ExecutionResult;
  TotalMicrosteps : Z;
  TotalSamples : Z;
  RejectedSamples : Z;
  VotingRounds : Z;
  Checkpoints : list MDAPCheckpoint
}.

Inductive ProgressType : Type :=
| ProgressTypeStart
| ProgressTypeStep
| ProgressTypeError
| ProgressTypeComplete.

Record ProgressEvent : Type := mkEvent {
  ev_Type : ProgressType;
  ev_Message : string;
  ev_Step : string;
  ev_Progress : Z;
  ev_Metadata : gmap string string
}.

(** The calls made on the execution context. *)
Inductive CtxCall : Type :=
| EmitProgress (e : ProgressEvent)
| SetStepOutput (name : string) (output : Any).

Record ExecutionContext : Type := mkContext {
  (** [ctx.Variables]; a missing key reads as [nil] *)
  Variables : gmap string Any
}.

Definition nl : string := String "010"%char EmptyString.

(** [strings.Join]. *)
Fixpoint Join (parts : list string) (sep : string) : string :=
  match parts with
  | [] => ""
  | [p] => p
  | p :: rest => p +:+ sep +:+ Join rest sep
  end.

(** ** Prompt, strategy, agent *)

Definition requiredOutputFormat : string :=
  "## Required Output Format" +:+ nl
  +:+ "Respond with exactly:" +:+ nl
  +:+ "move = <your move>" +:+ nl
  +:+ "next_state = <resulting state>" +:+ nl
  +:+ nl
  +:+ "No explanations, no extra text.".

Definition buildMDAPPrompt (r : Runtime) (step : MicrostepEntity) (state : Any)
    (lastAction strategy : string) : string :=
  let parts : list string := [] in
  let parts :=
    if String.eqb strategy "" then parts
    else parts ++ ["## Strategy" +:+ nl +:+ strategy] in
  let parts := parts ++ ["## Current State" +:+ nl +:+ fmtV r state] in
  let parts :=
    if String.eqb lastAction "" then parts
    else parts ++ ["## Previous Action" +:+ nl +:+ lastAction] in
  let parts :=
    match GetProperty (ms_Properties step) "prompt" with
    | Some (StringValue sv) => parts ++ ["## Task" +:+ nl +:+ sv]
    | _ => parts
    end in
  let parts := parts ++ [requiredOutputFormat] in
  Join parts (nl +:+ nl).

Definition criticalInstructions : string :=
  nl +:+ nl
  +:+ "CRITICAL INSTRUCTIONS:" +:+ nl
  +:+ "1. Output EXACTLY the required format - no explanations, no extra text" +:+ nl
  +:+ "2. Your response must be parseable - format errors will be rejected" +:+ nl
  +:+ "3. Think carefully before answering - wrong format indicates confusion" +:+ nl
  +:+ "4. Keep your response concise - overly long responses will be rejected".

Definition resolveStrategy (r : Runtime) (pipeline : MDAPPipelineEntity) : string :=
  match GetProperty (pl_Properties pipeline) "strategy" with
  | None => ""
  | Some (StringValue v) => v
  | Some (ReferenceValue type name) =>
      if String.eqb type "file" then
        match GetEntityByName r "file" name with
        | Some fileEntity =>
            match GetProperty (ent_Properties fileEntity) "contents" with
            | Some (StringValue sv) => sv
            | _ => ""
            end
        | None => ""
        end
      else ""
  | Some _ => ""
  end.

Definition resolveMicrostepAgent (r : Runtime) (step : MicrostepEntity)
  : result Entity :=
  match GetProperty (ms_Properties step) "use" with
  | None => Err (ErrNoUse (ms_Name step))
  | Some (ReferenceValue type name) =>
      if String.eqb type "agent" then GetAgent r name
      else Err (ErrExpectedAgent type)
  | Some (StringValue v) => GetAgent r v
  | Some useProp =>
      match Resolve r useProp with
      | Err err => Err err
      | Ok (Some agent) =>
          if String.eqb (ent_Type agent) "agent" then Ok agent
          else Err (ErrCannotResolve useProp)
      | Ok None => Err (ErrCannotResolve useProp)
      end
  end.

Definition generateMicrostep (stepIdx : Z) (state : Any) (strategy : string)
  : MicrostepEntity :=
  let step := NewMicrostepEntity ("step-" +:+ fmtD stepIdx) in
  ms_SetProperty step "prompt"
    (StringValue "Determine and execute the next move.").

(** ** Parallel sampler *)

(** The body of the goroutine started for sample [idx]. *)
Definition sampleOnce (r : Runtime)
    (provider : nat → nat → CompletionRequest → result CompletionResponse)
    (model systemPrompt prompt : string) (config : MDAPConfig)
    (round idx : nat) : MDAPSample :=
  let temperature :=
    if (round =? 0)%nat && (idx =? 0)%nat then TemperatureFirst config
    else TemperatureSubsequent config in
  let req := mkRequest model systemPrompt prompt temperature
               (MaxOutputTokens config) in
  match provider round idx req with
  | Err err =>
      mkSample "" "" ANil 0 true ("LLM error: " +:+ ErrorText r err)
  | Ok resp =>
      let '(action, nextState) := parseHanoiResponse (resp_Content resp) in
      mkSample (resp_Content resp) action nextState (resp_OutputTokens resp)
        false ""
  end.

(** [numSamples] of [parallelSample]. *)
Definition numSamples (config : MDAPConfig) : Z :=
  if ParallelSamples config <=? 0 then K config else ParallelSamples config.

(** The goroutines write disjoint slots of the slice and are joined by
    [wg.Wait()]: the result is the slice in index order.  [make] panics
    on a negative length. *)
Definition parallelSample (r : Runtime)
    (provider : nat → nat → CompletionRequest → result CompletionResponse)
    (model systemPrompt prompt : string) (config : MDAPConfig) (round : nat)
  : Outcome (list MDAPSample) :=
  if numSamples config <? 0 then Panicked "makeslice: len out of range"
  else
    Returned
      (map (sampleOnce r provider model systemPrompt prompt config round)
         (seq 0 (Z.to_nat (numSamples config)))).

(** ** Voting loop *)

(** The local variables of the voting loop. *)
Record VoteState : Type := mkVoteState {
  votes : gmap string Z;
  samples : gmap string MDAPSample;
  totalSamples : Z;
  rejectedSamples : Z
}.

Definition initialVoteState : VoteState := mkVoteState ∅ ∅ 0 0.

(** How a stretch of the loop ends: it falls through with the updated
    variables, or it reaches one of the two [return]s that declare
    [winner] with [winnerSample]. *)
Inductive Flow : Type :=
| Next (st : VoteState)
| Decided (st : VoteState) (winner : string) (winnerSample : MDAPSample).

(** [winner := r.getWinner(votes); winnerSample := samples[winner]] and
    the dereference of [winnerSample]. *)
Definition declareWinner (r : Runtime) (st : VoteState) : Outcome Flow :=
  let winner := getWinner (mapOrder r) (votes st) in
  match samples st !! winner with
  | Some winnerSample => Returned (Decided st winner winnerSample)
  | None => Panicked "invalid memory address or nil pointer dereference"
  end.

(** [votes[action]++; samples[action] = sample]. *)
Definition tally (st : VoteState) (action : string) (sample : MDAPSample)
  : VoteState :=
  mkVoteState
    (<[action := wrap (default 0 (votes st !! action) + 1)]> (votes st))
    (<[action := sample]> (samples st))
    (totalSamples st) (rejectedSamples st).

(** [rejectedSamples++]. *)
Definition reject (st : VoteState) : VoteState :=
  mkVoteState (votes st) (samples st) (totalSamples st)
    (wrap (rejectedSamples st + 1)).

(** [totalSamples += len(roundSamples)]. *)
Definition drawn (st : VoteState) (roundSamples : list MDAPSample) : VoteState :=
  mkVoteState (votes st) (samples st)
    (wrap (totalSamples st + Z.of_nat (length roundSamples)))
    (rejectedSamples st).

(** [for _, sample := range roundSamples { ... }] *)
Fixpoint tallySamples (r : Runtime) (config : MDAPConfig) (st : VoteState)
    (roundSamples : list MDAPSample) : Outcome Flow :=
  match roundSamples with
  | [] => Returned (Next st)
  | sample :: rest =>
      let '(flagged, sample) := isRedFlagged sample config in
      if flagged then tallySamples r config (reject st) rest
      else
        let action :=
          if String.eqb (Action sample) "" then Content sample
          else Action sample in
        let st := tally st action sample in
        if String.eqb (VotingStrategy config) "first-to-ahead-by-k" then
          if hasWinner (mapOrder r) (votes st) (K config)
          then declareWinner r st
          else tallySamples r config st rest
        else tallySamples r config st rest
  end.

(** [for round := 0; round < config.MaxRetries; round++ { ... }], with
    [n] the number of rounds still to run and [sampler round] the call
    [r.parallelSample(..., round)]. *)
Fixpoint votingRounds (r : Runtime) (config : MDAPConfig)
    (sampler : nat → Outcome (list MDAPSample))
    (n : nat) (round : nat) (st : VoteState) : Outcome Flow :=
  match n with
  | O => Returned (Next st)
  | S n' =>
      match sampler round with
      | Panicked msg => Panicked msg
      | Returned roundSamples =>
          match tallySamples r config (drawn st roundSamples) roundSamples with
          | Panicked msg => Panicked msg
          | Returned (Decided st winner winnerSample) =>
              Returned (Decided st winner winnerSample)
          | Returned (Next st) =>
              if String.eqb (VotingStrategy config) "majority"
                 && (0 <? size (votes st))%nat then
                if wrap (K config * 3) <=? totalSamples st
                then declareWinner r st
                else votingRounds r config sampler n' (S round) st
              else votingRounds r config sampler n' (S round) st
          end
      end
  end.

Definition votingLoop (r : Runtime) (config : MDAPConfig)
    (sampler : nat → Outcome (list MDAPSample)) : Outcome Flow :=
  votingRounds r config sampler (Z.to_nat (MaxRetries config)) 0
    initialVoteState.

(** ** One microstep *)

Definition StepReturn : Type := StepResult * string * Any * option error.

(** The three error returns before the loop and the one after it. *)
Definition failedStep (step : MicrostepEntity) (err : error) : StepReturn :=
  (mkStepResult (ms_Name step) false ANil (Some err), "", ANil, Some err).

(** The sampler of a step, once agent, prompts and provider are known. *)
Definition stepSampler (r : Runtime) (provider : LLMProvider)
    (model systemPrompt prompt : string) (config : MDAPConfig) (stepIdx : Z)
  : nat → Outcome (list MDAPSample) :=
  parallelSample r (provider (Z.to_nat stepIdx)) model systemPrompt prompt
    config.

Definition executeMicrostepWithVoting (r : Runtime) (step : MicrostepEntity)
    (config : MDAPConfig) (currentState : Any) (lastAction strategy : string)
    (stepIdx totalSteps : Z) : list CtxCall * Outcome StepReturn :=
  if totalSteps =? 0 then ([], Panicked "integer divide by zero") else
  let progress := Z.quot (wrap (stepIdx * 100)) totalSteps in
  let calls :=
    if (Z.rem stepIdx 100 =? 0) || (stepIdx <? 10) then
      [EmitProgress
         (mkEvent ProgressTypeStep
            ("Step " +:+ fmtD (wrap (stepIdx + 1)) +:+ "/" +:+ fmtD totalSteps
             +:+ ": " +:+ ms_Name step)
            (ms_Name step) progress ∅)]
    else [] in
  match resolveMicrostepAgent r step with
  | Err err => (calls, Returned (failedStep step err))
  | Ok agent =>
      let prompt := buildMDAPPrompt r step currentState lastAction strategy in
      match getAgentSystemPrompt r agent with
      | Err err => (calls, Returned (failedStep step err))
      | Ok systemPrompt =>
          let systemPrompt := systemPrompt +:+ criticalInstructions in
          let model := getAgentModel r agent in
          match getProviderForModel r model with
          | Err err => (calls, Returned (failedStep step err))
          | Ok provider =>
              match votingLoop r config
                      (stepSampler r provider model systemPrompt prompt
                         config stepIdx) with
              | Panicked msg => (calls, Panicked msg)
              | Returned (Decided st winner winnerSample) =>
                  (calls,
                   Returned
                     (mkStepResult (ms_Name step) true
                        (AString (Content winnerSample)) None,
                      winner, NextState winnerSample, None))
              | Returned (Next st) =>
                  (calls,
                   Returned
                     (failedStep step
                        (ErrNoConsensus (totalSamples st) (rejectedSamples st))))
              end
          end
      end
  end.

(** ** Step loop *)

Definition set_Embedded (res : MDAPExecutionResult) (e : ExecutionResult)
  : MDAPExecutionResult :=
  mkMDAPResult e (TotalMicrosteps res) (TotalSamples res)
    (RejectedSamples res) (VotingRounds res) (Checkpoints res).

(** [result.Checkpoints = append(result.Checkpoints, ...)] *)
Definition appendCheckpoint (res : MDAPExecutionResult) (c : MDAPCheckpoint)
  : MDAPExecutionResult :=
  mkMDAPResult (Embedded res) (TotalMicrosteps res) (TotalSamples res)
    (RejectedSamples res) (VotingRounds res) (Checkpoints res ++ [c]).

(** [result.TotalMicrosteps++; result.StepResults[name] = stepResult].
    The counter is bounded by the loop guard [stepIdx < totalSteps]. *)
Definition recordStep (res : MDAPExecutionResult) (name : string)
    (stepResult : StepResult) : MDAPExecutionResult :=
  let e := Embedded res in
  mkMDAPResult
    (mkExecutionResult (er_Success e) (er_Output e) (er_Error e)
       (er_Metadata e) (<[name := stepResult]> (er_StepResults e)))
    (TotalMicrosteps res + 1) (TotalSamples res)
    (RejectedSamples res) (VotingRounds res) (Checkpoints res).

(** [result.ExecutionResult.Error = err] *)
Definition setError (res : MDAPExecutionResult) (err : error)
  : MDAPExecutionResult :=
  let e := Embedded res in
  set_Embedded res
    (mkExecutionResult (er_Success e) (er_Output e) (Some err)
       (er_Metadata e) (er_StepResults e)).

(** [result.ExecutionResult.Success = true;
     result.ExecutionResult.Output = state] *)
Definition setSuccess (res : MDAPExecutionResult) (state : Any)
  : MDAPExecutionResult :=
  let e := Embedded res in
  set_Embedded res
    (mkExecutionResult true state (er_Error e) (er_Metadata e)
       (er_StepResults e)).

(** The local variables that the step loop carries from one iteration
    to the next. *)
Record LoopState : Type := mkLoopState {
  ls_result : MDAPExecutionResult;
  ls_state : Any;
  ls_lastAction : string
}.

(** The loop ends by running out of steps or by the [return] of the
    error branch. *)
Inductive LoopExit : Type :=
| Completed (ls : LoopState)
| Aborted (res : MDAPExecutionResult).

(** [if isDynamic { generateMicrostep } else { pipeline.Microsteps[stepIdx] }];
    [None] is the index-out-of-range panic. *)
Definition microstepAt (pipeline : MDAPPipelineEntity) (isDynamic : bool)
    (stepIdx : Z) (state : Any) (strategy : string) : option MicrostepEntity :=
  if isDynamic then Some (generateMicrostep stepIdx state strategy)
  else pl_Microsteps pipeline !! Z.to_nat stepIdx.

(** The guard of the checkpoint block. *)
Definition checkpointDue (config : MDAPConfig) (stepIdx : Z) : bool :=
  (0 <? CheckpointInterval config) && (0 <? stepIdx)
  && (Z.rem stepIdx (CheckpointInterval config) =? 0).

(** The checkpoint block at the head of an iteration. *)
Definition checkpointBlock (config : MDAPConfig) (stepIdx : Z)
    (result : MDAPExecutionResult) (state : Any)
  : list CtxCall * MDAPExecutionResult :=
  if checkpointDue config stepIdx then
    ([EmitProgress
        (mkEvent ProgressTypeStep
           ("Checkpoint at step " +:+ fmtD stepIdx)
           ("checkpoint-" +:+ fmtD stepIdx) 0 ∅)],
     appendCheckpoint result (mkCheckpoint stepIdx state))
  else ([], result).

(** [for stepIdx := 0; stepIdx < totalSteps; stepIdx++ { ... }], with [n]
    the number of iterations still to run.  The guard keeps
    [stepIdx + 1] within [int]. *)
Fixpoint stepLoop (r : Runtime) (pipeline : MDAPPipelineEntity)
    (config : MDAPConfig) (strategy : string) (isDynamic : bool)
    (totalSteps : Z) (n : nat) (stepIdx : Z) (ls : LoopState)
  : list CtxCall * Outcome LoopExit :=
  match n with
  | O => ([], Returned (Completed ls))
  | S n' =>
      let '(calls0, result) :=
        checkpointBlock config stepIdx (ls_result ls) (ls_state ls) in
      match microstepAt pipeline isDynamic stepIdx (ls_state ls) strategy with
      | None =>
          (calls0,
           Panicked ("index out of range [" +:+ fmtD stepIdx
                     +:+ "] with length "
                     +:+ fmtD (Z.of_nat (length (pl_Microsteps pipeline)))))
      | Some microstep =>
          let '(calls1, out) :=
            executeMicrostepWithVoting r microstep config (ls_state ls)
              (ls_lastAction ls) strategy stepIdx totalSteps in
          match out with
          | Panicked msg => (calls0 ++ calls1, Panicked msg)
          | Returned (stepResult, action, newState, err) =>
              let result := recordStep result (ms_Name microstep) stepResult in
              match err with
              | Some err =>
                  let result :=
                    setError result
                      (ErrMicrostepFailed (ms_Name microstep) err) in
                  (calls0 ++ calls1 ++
                   [EmitProgress
                      (mkEvent ProgressTypeError (ErrorText r err)
                         (ms_Name microstep) 0 ∅)],
                   Returned (Aborted result))
              | None =>
                  let '(calls2, exit) :=
                    stepLoop r pipeline config strategy isDynamic totalSteps
                      n' (stepIdx + 1) (mkLoopState result newState action) in
                  (calls0 ++ calls1 ++
                   [SetStepOutput (ms_Name microstep) (sr_Output stepResult)]
                   ++ calls2,
                   exit)
              end
          end
      end
  end.

(** ** The pipeline *)

(** [len(pipeline.Microsteps)], replaced by the [total_steps] property
    when it is a number. *)
Definition totalStepsOf (pipeline : MDAPPipelineEntity) : Z :=
  match GetProperty (pl_Properties pipeline) "total_steps" with
  | Some (NumberValue numVal) => int_of_float64 numVal
  | _ => Z.of_nat (length (pl_Microsteps pipeline))
  end.

(** [state := ctx.Variables["input"]], an empty map when that is [nil]. *)
Definition initialState (ctx : ExecutionContext) : Any :=
  match default ANil (Variables ctx !! "input") with
  | ANil => AEmptyMap
  | state => state
  end.

Definition initialResult : MDAPExecutionResult :=
  mkMDAPResult (mkExecutionResult false ANil None ∅ ∅) 0 0 0 0 [].

Definition startEvent (pipeline : MDAPPipelineEntity) : ProgressEvent :=
  mkEvent ProgressTypeStart
    ("Executing MDAP pipeline: " +:+ pl_Name pipeline +:+ " with "
     +:+ fmtD (Z.of_nat (length (pl_Microsteps pipeline)))
     +:+ " microsteps")
    "" 0 ∅.

Definition completionEvent (r : Runtime) (result : MDAPExecutionResult)
  : ProgressEvent :=
  mkEvent ProgressTypeComplete
    ("MDAP pipeline completed: " +:+ fmtD (TotalMicrosteps result)
     +:+ " steps, " +:+ fmtD (TotalSamples result) +:+ " samples, "
     +:+ fmtD (RejectedSamples result) +:+ " rejected")
    "" 100
    (<["duration" := elapsed r]>
       (<["rejected_samples" := fmtD (RejectedSamples result)]>
          (<["total_samples" := fmtD (TotalSamples result)]>
             (<["total_steps" := fmtD (TotalMicrosteps result)]> ∅)))).

(** The body of [executeMDAPPipeline] after the type assertion, up to its
    [return] statements; the value is the local [result] (and, on
    completion, the other loop variables) at that point.  [Aborted] is
    the [return result.ExecutionResult, result.Error] of the loop,
    [Completed] the final [return result.ExecutionResult, nil]. *)
Definition runMDAPPipeline (r : Runtime) (ctx : ExecutionContext)
    (pipeline : MDAPPipelineEntity) : list CtxCall * Outcome LoopExit :=
  let config := loadMDAPConfig pipeline in
  let strategy := resolveStrategy r pipeline in
  let state := initialState ctx in
  let totalSteps := totalStepsOf pipeline in
  let isDynamic :=
    (length (pl_Microsteps pipeline) =? 0)%nat && (0 <? totalSteps) in
  let '(calls, exit) :=
    stepLoop r pipeline config strategy isDynamic totalSteps
      (Z.to_nat totalSteps) 0 (mkLoopState initialResult state "") in
  match exit with
  | Returned (Completed ls) =>
      let result := setSuccess (ls_result ls) (ls_state ls) in
      (EmitProgress (startEvent pipeline) :: calls
       ++ [EmitProgress (completionEvent r result)],
       Returned (Completed (mkLoopState result (ls_state ls)
                              (ls_lastAction ls))))
  | _ => (EmitProgress (startEvent pipeline) :: calls, exit)
  end.

(** What the caller receives: the embedded [*ExecutionResult] and the
    error. *)
Definition executeMDAPPipeline (r : Runtime) (ctx : ExecutionContext)
    (entity : AnyEntity)
  : list CtxCall * Outcome (option ExecutionResult * option error) :=
  match entity with
  | IsOther _ => ([], Returned (None, Some ErrNotPipeline))
  | IsMDAPPipeline pipeline =>
      let '(calls, exit) := runMDAPPipeline r ctx pipeline in
      (calls,
       match exit with
       | Panicked msg => Panicked msg
       | Returned (Aborted result) =>
           Returned (Some (Embedded result), er_Error (Embedded result))
       | Returned (Completed ls) =>
           Returned (Some (Embedded (ls_result ls)), None)
       end)
  end.

(** ** Dispatch *)

(** [entity.Name()] and [entity.Type()]; [Type()] of an MDAP pipeline
    entity is ["mdap_pipeline"], the case of the dispatch (the tests of
    the parser check this value). *)
Definition entityName (entity : AnyEntity) : string :=
  match entity with
  | IsMDAPPipeline p => pl_Name p
  | IsOther e => ent_Name e
  end.

Definition entityType (entity : AnyEntity) : string :=
  match entity with
  | IsMDAPPipeline _ => "mdap_pipeline"
  | IsOther e => ent_Type e
  end.

(** The error of the [default] branch is known by its message. *)
Definition executeEntityDispatch (r : Runtime) (ctx : ExecutionContext)
    (entity : AnyEntity)
  : list CtxCall * Outcome (option ExecutionResult * option error) :=
  if String.eqb (entityType entity) "mdap_pipeline" then
    executeMDAPPipeline r ctx entity
  else
    ([],
     Returned
       (None,
        Some (ExternalError
                ("executor_mdap: unknown entity type "
                 +:+ fmtQ r (entityType entity))))).

(** * The workspace loader (package [workspace]) *)

(** The errors that [Load] wraps. *)
Inductive LoadError : Type :=
| ErrAbsPath (filePath : string) (cause : error)
| ErrReadFile (absPath : string) (cause : error)
| ErrParse (absPath : string) (cause : error)
| ErrAddEntity (name absPath : string) (cause : error).

(** What [Load] calls outside its package: [filepath.Abs],
    [os.ReadFile], [filepath.Dir], the parser ([parser.New(content).Parse()])
    and [Workspace.AddEntity], which leaves a workspace and may fail.
    [W] is the state of the workspace. *)
Record LoadEnv (W : Type) : Type := mkLoadEnv {
  Abs : string → result string;
  ReadFile : string → result string;
  Dir : string → string;
  Parse : string → result (list AnyEntity);
  AddEntity : W → AnyEntity → W * option error
}.
Arguments mkLoadEnv {W} _ _ _ _ _.
Arguments Abs {W} _ _.
Arguments ReadFile {W} _ _.
Arguments Dir {W} _ _.
Arguments Parse {W} _ _.
Arguments AddEntity {W} _ _ _.

Record Loader (W : Type) : Type := mkLoader {
  ld_workspace : W;
  (** [loaded]; a missing key reads as [false] *)
  ld_loaded : gmap string bool;
  ld_baseDir : string
}.
Arguments mkLoader {W} _ _ _.
Arguments ld_workspace {W} _.
Arguments ld_loaded {W} _.
Arguments ld_baseDir {W} _.

Definition NewLoader {W : Type} (ws : W) : Loader W := mkLoader ws ∅ EmptyString.

(** [for _, entity := range entities { ... AddEntity ... }] *)
Fixpoint addEntities {W : Type} (env : LoadEnv W) (ws : W) (absPath : string)
    (entities : list AnyEntity) : W * option LoadError :=
  match entities with
  | [] => (ws, None)
  | entity :: rest =>
      let '(ws, err) := AddEntity env ws entity in
      match err with
      | Some err => (ws, Some (ErrAddEntity (entityName entity) absPath err))
      | None => addEntities env ws absPath rest
      end
  end.

(** [Load] returns the loader as the call leaves it, with the error. *)
Definition Load {W : Type} (env : LoadEnv W) (l : Loader W) (filePath : string)
  : Loader W * option LoadError :=
  match Abs env filePath with
  | Err err => (l, Some (ErrAbsPath filePath err))
  | Ok absPath =>
      if default false (ld_loaded l !! absPath) then (l, None)
      else
        let l := mkLoader (ld_workspace l) (<[absPath := true]> (ld_loaded l))
                   (ld_baseDir l) in
        match ReadFile env absPath with
        | Err err => (l, Some (ErrReadFile absPath err))
        | Ok content =>
            let l := mkLoader (ld_workspace l) (ld_loaded l)
                       (Dir env absPath) in
            match Parse env content with
            | Err err => (l, Some (ErrParse absPath err))
            | Ok entities =>
                let '(ws, err) :=
                  addEntities env (ld_workspace l) absPath entities in
                (mkLoader ws (ld_loaded l) (ld_baseDir l), err)
            end
        end
  end.

(** * Auxiliary definitions used in the statements *)

(** The pipeline with its configuration bag replaced. *)
Definition withConfig (pipeline : MDAPPipelineEntity) (cfg : gmap string Value)
  : MDAPPipelineEntity :=
  mkPipeline (pl_Name pipeline) (pl_Properties pipeline)
    (pl_Microsteps pipeline) (Some cfg).


(** ** The red-flag rules as a list *)

(** The rules that [isRedFlagged] tries, in order, each with the reason
    it records: a flag already set (its reason is kept), the length
    threshold, the output pattern, the empty action. *)
Definition redFlagRules (config : MDAPConfig)
  : list ((MDAPSample → bool) * (MDAPSample → string)) :=
  [ (RedFlagged, RedFlagReason);
    (λ s, (0 <? MaxOutputTokens config)
          && (MaxOutputTokens config <? TokenCount s),
     λ s, "response too long: " +:+ fmtD (TokenCount s)
          +:+ " tokens > " +:+ fmtD (MaxOutputTokens config));
    (λ s, RequireFormat config
          && match OutputPattern config with
             | Some re => negb (MatchString re (Content s))
             | None => false
             end,
     λ _, "response does not match required format");
    (λ s, String.eqb (Action s) "",
     λ _, "could not extract action from response") ].

(** [strings.Contains]. *)
Definition Contains (s sub : string) : bool :=
  match String.index 0 sub s with
  | Some _ => true
  | None => false
  end.

(** The fifth rule in the words of the specification, for the forbidden
    substring declared by a step ([red_flags: { contains: "..." }]): the
    predicate fires when the content of the sample holds the substring. *)
Definition spec_forbiddenSubstringFires (step : MicrostepEntity)
    (sample : MDAPSample) : bool :=
  match GetProperty (ms_Properties step) "red_flags" with
  | Some (ObjectValue fields) =>
      existsb
        (λ field,
           String.eqb (fst field) "contains"
           && match snd field with
              | StringValue sub => Contains (Content sample) sub
              | _ => false
              end)
        fields
  | _ => false
  end.

(** ** The voting loop seen as a fold *)

(** The key under which a sample that passed the filter votes. *)
Definition voteKey (sample : MDAPSample) : string :=
  if String.eqb (Action sample) "" then Content sample else Action sample.

(** A sample that the filter lets through. *)
Definition accepted (config : MDAPConfig) (sample : MDAPSample) : bool :=
  negb (fst (isRedFlagged sample config)).

(** One iteration of the loop over the samples of a round, without the
    exit of the first-to-ahead-by-k check. *)
Definition voteStep (config : MDAPConfig) (st : VoteState)
    (sample : MDAPSample) : VoteState :=
  let '(flagged, sample) := isRedFlagged sample config in
  if flagged then reject st else tally st (voteKey sample) sample.

(** The loop variables after the samples [processed] went through the
    loop body. *)
Definition absorb (config : MDAPConfig) (st : VoteState)
    (processed : list MDAPSample) : VoteState :=
  fold_left (voteStep config) processed st.

(** The loop variables with [totalSamples] replaced. *)
Definition withTotal (st : VoteState) (total : Z) : VoteState :=
  mkVoteState (votes st) (samples st) total (rejectedSamples st).

(** The samples of [k] consecutive rounds, starting with round [round]. *)
Definition roundsTaken (rounds : nat → list MDAPSample) (round k : nat)
  : list MDAPSample :=
  concat (map rounds (seq round k)).

(** [totalSamples] after the [+= len(roundSamples)] of these rounds. *)
Definition totalAfter (rounds : nat → list MDAPSample) (round k : nat)
    (total : Z) : Z :=
  fold_left (λ t i, wrap (t + Z.of_nat (length (rounds i)))) (seq round k)
    total.

(** The last sample of [processed] that passed the filter and voted
    under the key [action]. *)
Definition lastAccepted (config : MDAPConfig) (processed : list MDAPSample)
    (action : string) : option MDAPSample :=
  last (List.filter
          (λ s, accepted config s && String.eqb (voteKey s) action)
          processed).


(** Every count of the tally lies between [1] and [bound]. *)
Definition votes_within (bound : Z) (m : gmap string Z) : Prop :=
  ∀ a v, m !! a = Some v → 1 ≤ v ≤ bound.

(** An upper bound on the number of samples that a step draws:
    [MaxRetries] rounds of [numSamples] samples. *)
Definition samplesBound (config : MDAPConfig) : Z :=
  Z.max 0 (MaxRetries config) * Z.max 0 (numSamples config).

(** The slice that [parallelSample] returns in round [round] of a step,
    when [make] does not panic. *)
Definition stepRounds (r : Runtime) (provider : LLMProvider)
    (model systemPrompt prompt : string) (config : MDAPConfig) (stepIdx : Z)
    (round : nat) : list MDAPSample :=
  map (sampleOnce r (provider (Z.to_nat stepIdx)) model systemPrompt prompt
         config round)
    (seq 0 (Z.to_nat (numSamples config))).




(** The local [result] with which the step loop ends. *)
Definition exitResult (exit : LoopExit) : MDAPExecutionResult :=
  match exit with
  | Completed ls => ls_result ls
  | Aborted res => res
  end.

(** [isDynamic] of [executeMDAPPipeline]. *)
Definition isDynamicOf (pipeline : MDAPPipelineEntity) : bool :=
  (length (pl_Microsteps pipeline) =? 0)%nat && (0 <? totalStepsOf pipeline).

(** The loop variables of the voting loop after [k] full rounds, when no
    addition overflows: the fold of the loop body over all their
    samples, and their number as [totalSamples]. *)
Definition tallyAfter (config : MDAPConfig) (rounds : nat → list MDAPSample)
    (k : nat) : VoteState :=
  withTotal (absorb config initialVoteState (roundsTaken rounds 0 k))
    (Z.of_nat (length (roundsTaken rounds 0 k))).

(** The rule of the majority strategy in closed form: the first round,
    among the first [n], at whose end some sample has passed the filter
    and the number of samples drawn so far, flagged or not, is at least
    [config.K*3], the product of the two [int]s. *)
Definition majorityCommitRound (config : MDAPConfig)
    (rounds : nat → list MDAPSample) (n : nat) : option nat :=
  find
    (λ j, existsb (accepted config) (roundsTaken rounds 0 (S j))
          && (wrap (K config * 3)
              <=? Z.of_nat (length (roundsTaken rounds 0 (S j)))))
    (seq 0 n).

(** ** Inputs used in examples *)

Definition dquote : string := String "034"%char EmptyString.

(** The verbs of [fmt] on the values that occur in the examples. *)
Definition ex_fmtV (st : Any) : string :=
  match st with
  | ANil => "<nil>"
  | AString s => s
  | AEmptyMap => "map[]"
  | AObject _ => "map[...]"
  end.

Definition ex_fmtQ (s : string) : string := dquote +:+ s +:+ dquote.

Definition ex_fmtT (v : Value) : string :=
  match v with
  | StringValue _ => "ast.StringValue"
  | NumberValue _ => "ast.NumberValue"
  | BoolValue _ => "ast.BoolValue"
  | ReferenceValue _ _ => "ast.ReferenceValue"
  | ObjectValue _ => "ast.ObjectValue"
  end.

(** A workspace in which every agent name resolves, one model, one
    provider. *)
Definition ex_runtime (ord : MapOrder) (provider : LLMProvider) : Runtime :=
  mkRuntime
    (λ name, Ok (mkEntity "agent" name ∅))
    (λ _ _, None)
    (λ _, Ok None)
    (λ _, Ok "You are a careful solver.")
    (λ _, "model-1")
    (λ _, Ok provider)
    ord ex_fmtV ex_fmtQ ex_fmtT "1ms".

(** A response with the two lines that the parser looks for. *)
Definition ex_reply (move next : string) : result CompletionResponse :=
  Ok (mkResponse ("move = " +:+ move +:+ nl +:+ "next_state = " +:+ next) 12).

Definition ex_number (z : Z) : Value := NumberValue (float64_of_Z z).

Definition ex_step (name : string) : MicrostepEntity :=
  mkMicrostep name (<["use" := ReferenceValue "agent" "solver"]> ∅).

(** [mdap_config { k: 5 }] *)
Definition ex_pipeline_k5 : MDAPPipelineEntity :=
  mkPipeline "p" ∅ [ex_step "move"] (Some (<["k" := ex_number 5]> ∅)).

(** The microstep of the migration example:
    [red_flags: { contains: "LegacyDate" }]. *)
Definition ex_refactorStep : MicrostepEntity :=
  ms_SetProperty (ex_step "refactor-file") "red_flags"
    (ObjectValue [("contains", StringValue "LegacyDate")]).

(** A provider whose every answer still mentions [LegacyDate]. *)
Definition ex_legacyProvider : LLMProvider :=
  λ _ _ _ _, ex_reply "keep LegacyDate.now()" "unchanged".

Definition ex_config (strategy : string) (k parallel : Z) : MDAPConfig :=
  set_ParallelSamples
    (set_K (set_VotingStrategy DefaultMDAPConfig strategy) k) parallel.

Definition ex_legacySample : MDAPSample :=
  sampleOnce (ex_runtime canonicalOrder ex_legacyProvider)
    (ex_legacyProvider 0%nat) "model-1" "" "" DefaultMDAPConfig 0 0.

(** A provider that answers by the index of the sample in its round. *)
Definition ex_script (answers : list (result CompletionResponse))
  : LLMProvider :=
  λ _ _ idx _, nth idx answers (Err (ExternalError "rate limited")).

(** A provider that answers by the parity of the index. *)
Definition ex_alternating (even odd : result CompletionResponse)
  : LLMProvider :=
  λ _ _ idx _, if Nat.even idx then even else odd.

(** A provider that answers [first] in step [0] and fails afterwards. *)
Definition ex_firstStepOnly (first : result CompletionResponse)
  : LLMProvider :=
  λ step _ _ _,
    match step with
    | O => first
    | S _ => Err (ExternalError "rate limited")
    end.

Definition ex_string (s : string) : Value := StringValue s.

(** The pipeline of the Tower of Hanoi example, reduced to the
    properties that the executor reads: one microstep [move],
    [total_steps: 31], [k: 3], [parallel_samples: 3],
    [checkpoint_interval: 10]. *)
Definition ex_hanoi : MDAPPipelineEntity :=
  mkPipeline "solve-hanoi-5"
    (<["total_steps" := ex_number 31]> ∅)
    [ex_step "move"]
    (Some (<["checkpoint_interval" := ex_number 10]>
             (<["parallel_samples" := ex_number 3]>
                (<["k" := ex_number 3]>
                   (<["voting_strategy" := ex_string "first-to-ahead-by-k"]>
                      ∅))))).

Definition ex_hanoiRuntime : Runtime :=
  ex_runtime canonicalOrder
    (λ _ _ _ _, ex_reply "disk 1 from A to C" "A=[2,3,4,5], B=[], C=[1]").

(** One microstep, majority with [k: 1] and three samples per round. *)
Definition ex_majorityPipeline : MDAPPipelineEntity :=
  mkPipeline "vote" ∅ [ex_step "move"]
    (Some (<["parallel_samples" := ex_number 3]>
             (<["k" := ex_number 1]>
                (<["voting_strategy" := ex_string "majority"]> ∅)))).

Definition ex_unanimousRuntime : Runtime :=
  ex_runtime canonicalOrder (λ _ _ _ _, ex_reply "A" "sA").

(** One sample passes the filter, the two others are provider errors. *)
Definition ex_oneGoodRuntime : Runtime :=
  ex_runtime canonicalOrder (ex_script [ex_reply "A" "sA"]).

(** The sampler of the microstep [move] run as step [0] on the initial
    state of an empty context, without strategy: the agent resolves, its
    model is [model-1]. *)
Definition ex_systemPrompt : string :=
  "You are a careful solver." +:+ criticalInstructions.

Definition ex_sampler (r : Runtime) (provider : LLMProvider)
    (config : MDAPConfig) : nat → Outcome (list MDAPSample) :=
  stepSampler r provider "model-1" ex_systemPrompt
    (buildMDAPPrompt r (ex_step "move") AEmptyMap "" "") config 0.

Definition ex_rounds (r : Runtime) (provider : LLMProvider)
    (config : MDAPConfig) : nat → list MDAPSample :=
  stepRounds r provider "model-1" ex_systemPrompt
    (buildMDAPPrompt r (ex_step "move") AEmptyMap "" "") config 0.


Definition ex_tieProvider : LLMProvider :=
  ex_alternating (ex_reply "A" "X") (ex_reply "B" "Y").

(** First-to-ahead-by-k with [k: 2], two samples per round: both vote
    [A], with different next states. *)
Definition ex_twoStatesProvider : LLMProvider :=
  ex_script [ex_reply "A" "X"; ex_reply "A" "Y"].

(** The margin race of the specification: [k = 2], five samples per
    round, actions [A, A, B, A, C]. *)
Definition ex_raceProvider : LLMProvider :=
  ex_script [ex_reply "A" "sA"; ex_reply "A" "sA"; ex_reply "B" "sB";
             ex_reply "A" "sA"; ex_reply "C" "sC"].

(** Two microsteps; the first commits, the second meets a provider that
    only fails.  [checkpoint_interval] is [interval]. *)
Definition ex_twoSteps (interval : Z) : MDAPPipelineEntity :=
  mkPipeline "two" ∅ [ex_step "first"; ex_step "second"]
    (Some (<["checkpoint_interval" := ex_number interval]>
             (<["k" := ex_number 1]> ∅))).

Definition ex_failingRuntime : Runtime :=
  ex_runtime canonicalOrder (ex_firstStepOnly (ex_reply "A" "X")).

Definition ex_raceRuntime : Runtime := ex_runtime canonicalOrder ex_raceProvider.
Definition ex_raceConfig : MDAPConfig := ex_config "first-to-ahead-by-k" 2 5.

Definition ex_twoStatesRuntime : Runtime :=
  ex_runtime canonicalOrder ex_twoStatesProvider.
Definition ex_twoStatesConfig : MDAPConfig :=
  ex_config "first-to-ahead-by-k" 2 2.

Definition ex_oneGoodConfig : MDAPConfig := ex_config "majority" 1 3.

Definition ex_emptyContext : ExecutionContext := mkContext ∅.

(** The loop variables with which a completed run ends.  The second
    value of the match is never taken in the examples. *)
Definition ex_completed (run : list CtxCall * Outcome LoopExit) : LoopState :=
  match snd run with
  | Returned (Completed ls) => ls
  | _ => mkLoopState initialResult ANil ""
  end.


Definition ex_tieRuntime (ord : MapOrder) : Runtime :=
  ex_runtime ord ex_tieProvider.



(** Majority with [k: 4611686018427387904], which is [2^62], and three
    samples per round. *)
Definition ex_wrapMajorityPipeline : MDAPPipelineEntity :=
  mkPipeline "wrap" ∅ [ex_step "move"]
    (Some (<["parallel_samples" := ex_number 3]>
             (<["k" := ex_number (2 ^ 62)]>
                (<["voting_strategy" := ex_string "majority"]> ∅)))).



(** * Auxiliary definitions for the further properties *)

(** The sum of the counts of a tally. *)
Definition voteSum (m : gmap string Z) : Z :=
  map_fold (λ _ v acc, v + acc) 0 m.

(** A response in the format that the prompt asks for. *)
Definition formatted (move next : string) : string :=
  "move = " +:+ move +:+ nl +:+ "next_state = " +:+ next.

(** No line feed in a string. *)
Fixpoint oneLine (s : string) : bool :=
  match s with
  | EmptyString => true
  | String c r => negb (Ascii.eqb c "010"%char) && oneLine r
  end.

(** A continuation byte of UTF-8 ([10xxxxxx]). *)
Definition isCont (c : ascii) : bool :=
  let n := N_of_ascii c in ((128 <=? n) && (n <? 192))%N.

Fixpoint allCont (s : string) : bool :=
  match s with
  | EmptyString => true
  | String c r => isCont c && allCont r
  end.

(** A string made of white space runes only. *)
Inductive blank : string → Prop :=
| blank_nil : blank EmptyString
| blank_cons (u w : string) :
    isSpaceRune u = true → blank w → blank (u +:+ w).

(** No line of the content starts, once trimmed, with one of the two
    prefixes. *)
Definition noLineWith (pre1 pre2 content : string) : bool :=
  forallb
    (λ line,
       negb (HasPrefix (TrimSpace line) pre1
             || HasPrefix (TrimSpace line) pre2))
    (SplitLines content).

(** The step indices below [n] at which the checkpoint block runs. *)
Definition checkpointIndices (config : MDAPConfig) (n : Z) : list Z :=
  List.filter (checkpointDue config) (seqZ 0 n).

(** The calls [SetStepOutput] of a trace. *)
Definition stepOutputs (calls : list CtxCall) : list (string * Any) :=
  omap (λ c, match c with
             | SetStepOutput name output => Some (name, output)
             | EmitProgress _ => None
             end) calls.

(** The no-break space [U+00A0] in UTF-8, and the en quad [U+2000]. *)
Definition ex_nbsp : string := EncodeRune 160.
Definition ex_enQuad : string := EncodeRune 8192.

(** A workspace that records the names of the entities added to it and
    refuses the name [bad]. *)
Definition ex_loadEnv (files : gmap string (list AnyEntity)) (bad : string)
  : LoadEnv (list string) :=
  mkLoadEnv
    (λ p, if String.eqb p EmptyString then Err (ExternalError "empty path")
          else Ok ("/work/" +:+ p))
    (λ a, match files !! a with
          | Some _ => Ok a
          | None => Err (ExternalError "no such file")
          end)
    (λ _, "/work")
    (λ content, match files !! content with
                | Some entities => Ok entities
                | None => Err (ExternalError "syntax error")
                end)
    (λ ws entity,
       if String.eqb (entityName entity) bad
       then (ws, Some (ExternalError "entity refused"))
       else (ws ++ [entityName entity], None)).

(** The tally in which [action] alone has [c] votes. *)
Definition unanimousVotes (action : string) (c : Z) : gmap string Z :=
  if c =? 0 then ∅ else {[action := c]}.

(** How many samples of a list pass the filter. *)
Definition acceptedCount (config : MDAPConfig) (l : list MDAPSample) : Z :=
  Z.of_nat (length (List.filter (accepted config) l)).

(** The value of a key of a configuration bag, when it has the type
    that the loader asks for. *)
Definition stringAt (cfg : gmap string Value) (key : string) : option string :=
  match GetProperty cfg key with
  | Some (StringValue sv) => Some sv
  | _ => None
  end.

Definition numberAt (cfg : gmap string Value) (key : string) : option float64 :=
  match GetProperty cfg key with
  | Some (NumberValue nv) => Some nv
  | _ => None
  end.

Definition boolAt (cfg : gmap string Value) (key : string) : option bool :=
  match GetProperty cfg key with
  | Some (BoolValue bv) => Some bv
  | _ => None
  end.

(** The entities that a sequence of [AddEntity] calls leaves in a
    workspace, errors aside. *)
Definition addAll {W : Type} (env : LoadEnv W) (ws : W)
    (entities : list AnyEntity) : W :=
  fold_left (λ ws entity, fst (AddEntity env ws entity)) entities ws.

(** Whether a step ended by committing an action. *)
Definition committed (out : Outcome StepReturn) : bool :=
  match out with
  | Returned (_, _, _, None) => true
  | _ => false
  end.

(** The step results that the loop records for the steps whose output it
    has set: a success under the name of the step, holding the output. *)
Definition committedResults (outs : list (string * Any))
    (recorded : gmap string StepResult) : gmap string StepResult :=
  fold_left (λ m o, <[fst o := mkStepResult (fst o) true (snd o) None]> m)
    outs recorded.
(** * Properties *)

(** ** Configuration loader *)

Section LoaderFrame.
(** A property of the configuration that every assignment of the
    loader keeps is kept by the guarded blocks. *)
Variable P : MDAPConfig → Prop.

Lemma withString_keeps cfg key upd c :
  (∀ c v, P c → P (upd c v)) → P c → P (withString cfg key upd c).
Proof.
  intros Hupd Hc. unfold withString.
  destruct (GetProperty cfg key) as [[]|]; auto.
Qed.

Lemma withNumber_keeps cfg key upd c :
  (∀ c v, P c → P (upd c v)) → P c → P (withNumber cfg key upd c).
Proof.
  intros Hupd Hc. unfold withNumber.
  destruct (GetProperty cfg key) as [[]|]; auto.
Qed.

Lemma withBool_keeps cfg key upd c :
  (∀ c v, P c → P (upd c v)) → P c → P (withBool cfg key upd c).
Proof.
  intros Hupd Hc. unfold withBool.
  destruct (GetProperty cfg key) as [[]|]; auto.
Qed.
End LoaderFrame.

Ltac loader_keeps P :=
  repeat first
    [ apply (withNumber_keeps P)
    | apply (withBool_keeps P)
    | apply (withString_keeps P) ].

Lemma assignK_ParallelSamples c nv :
  ParallelSamples c ≠ 0 → ParallelSamples (assignK c nv) = ParallelSamples c.
Proof.
  intros Hne. unfold assignK. cbn.
  destruct (ParallelSamples c =? 0) eqn:E; [|reflexivity].
  apply Z.eqb_eq in E. contradiction.
Qed.

Lemma assignK_frame c nv :
  MaxRetries (assignK c nv) = MaxRetries c
  ∧ OutputPattern (assignK c nv) = OutputPattern c.
Proof. unfold assignK. cbn. destruct (ParallelSamples c =? 0); auto. Qed.

(** The loader reads a key only through [GetProperty]: a bag that differs
    at another key is read the same way. *)
Lemma GetProperty_insert_other (cfg : gmap string Value) key key' v :
  key ≠ key' → GetProperty (<[key := v]> cfg) key' = GetProperty cfg key'.
Proof. intros Hne. unfold GetProperty. by rewrite lookup_insert_ne. Qed.

Lemma withString_insert_other cfg key key' v upd c :
  key ≠ key' →
  withString (<[key := v]> cfg) key' upd c = withString cfg key' upd c.
Proof. intros Hne. unfold withString. by rewrite GetProperty_insert_other. Qed.

Lemma withNumber_insert_other cfg key key' v upd c :
  key ≠ key' →
  withNumber (<[key := v]> cfg) key' upd c = withNumber cfg key' upd c.
Proof. intros Hne. unfold withNumber. by rewrite GetProperty_insert_other. Qed.

Lemma withBool_insert_other cfg key key' v upd c :
  key ≠ key' →
  withBool (<[key := v]> cfg) key' upd c = withBool cfg key' upd c.
Proof. intros Hne. unfold withBool. by rewrite GetProperty_insert_other. Qed.

Lemma loadMDAPConfig_unread pipeline cfg key v :
  key ∉ ["voting_strategy"; "k"; "parallel_samples"; "temperature_first";
         "temperature_subsequent"; "max_output_tokens"; "require_format";
         "checkpoint_interval"] →
  loadMDAPConfig (withConfig pipeline (<[key := v]> cfg))
  = loadMDAPConfig (withConfig pipeline cfg).
Proof.
  intros Hkey. unfold loadMDAPConfig, withConfig. cbn [pl_Config].
  rewrite !not_elem_of_cons in Hkey.
  destruct Hkey as (H1 & H2 & H3 & H4 & H5 & H6 & H7 & H8 & _).
  rewrite withString_insert_other by done.
  rewrite !withNumber_insert_other by done.
  rewrite withBool_insert_other by done.
  reflexivity.
Qed.

(** C10.  Whatever the configuration bag of a pipeline holds, the
    effective configuration has [MaxRetries = 100] and no
    [OutputPattern]; the keys [max_retries] and [output_pattern] are not
    read: setting them to any value leaves the whole effective
    configuration unchanged. *)
Theorem loadMDAPConfig_MaxRetries_OutputPattern_fixed :
  ∀ pipeline : MDAPPipelineEntity,
    MaxRetries (loadMDAPConfig pipeline) = 100
    ∧ OutputPattern (loadMDAPConfig pipeline) = None
    ∧ ∀ cfg v,
        loadMDAPConfig (withConfig pipeline (<["max_retries" := v]> cfg))
        = loadMDAPConfig (withConfig pipeline cfg)
        ∧ loadMDAPConfig (withConfig pipeline (<["output_pattern" := v]> cfg))
          = loadMDAPConfig (withConfig pipeline cfg).
Proof.
  intros pipeline.
  assert (Hframe : MaxRetries (loadMDAPConfig pipeline) = 100
                   ∧ OutputPattern (loadMDAPConfig pipeline) = None).
  { unfold loadMDAPConfig. destruct (pl_Config pipeline) as [cfg|]; [|done].
    loader_keeps (λ c, MaxRetries c = 100 ∧ OutputPattern c = None);
      try (cbn; done).
    intros c v [H1 H2]. destruct (assignK_frame c v) as [-> ->]. done. }
  destruct Hframe as [H1 H2]. repeat split; try assumption.
  - apply loadMDAPConfig_unread. rewrite !not_elem_of_cons.
    repeat split; try discriminate. apply not_elem_of_nil.
  - apply loadMDAPConfig_unread. rewrite !not_elem_of_cons.
    repeat split; try discriminate. apply not_elem_of_nil.
Qed.

(** C6.  A configuration bag that does not set [parallel_samples] leaves
    [ParallelSamples] at the default [3], whatever [k] it sets: the guard
    [config.ParallelSamples == 0] of the [k] block never holds, because
    the default is [3]. *)
Theorem loadMDAPConfig_ParallelSamples_unset :
  ∀ (pipeline : MDAPPipelineEntity) (cfg : gmap string Value),
    pl_Config pipeline = Some cfg →
    cfg !! "parallel_samples" = None →
    ParallelSamples (loadMDAPConfig pipeline) = 3.
Proof.
  intros pipeline cfg Hcfg Hnone. unfold loadMDAPConfig. rewrite Hcfg.
  do 5 (first [ apply (withNumber_keeps (λ c, ParallelSamples c = 3))
              | apply (withBool_keeps (λ c, ParallelSamples c = 3)) ];
        [cbn; done|]).
  (* the [parallel_samples] block is not entered *)
  unfold withNumber at 1, GetProperty at 1. rewrite Hnone.
  apply (withNumber_keeps (λ c, ParallelSamples c = 3)).
  { intros c v Hc. rewrite assignK_ParallelSamples; rewrite Hc; done. }
  apply (withString_keeps (λ c, ParallelSamples c = 3)); [cbn; done|].
  reflexivity.
Qed.

(** Example: [mdap_config { k: 5 }] gives [K = 5] and [ParallelSamples = 3]. *)
Lemma loadMDAPConfig_ParallelSamples_unset_witness :
  K (loadMDAPConfig ex_pipeline_k5) = 5
  ∧ ParallelSamples (loadMDAPConfig ex_pipeline_k5) = 3.
Proof.
  split; [reflexivity|].
  apply (loadMDAPConfig_ParallelSamples_unset ex_pipeline_k5
           (<["k" := ex_number 5]> ∅)); reflexivity.
Defined.

(** ** Red-flag filter *)

Lemma redFlag_own_reason sample :
  RedFlagged sample = true → redFlag sample (RedFlagReason sample) = sample.
Proof. destruct sample; cbn; by intros ->. Qed.

Lemma isRedFlagged_rules sample config :
  isRedFlagged sample config
  = match find (λ rule, fst rule sample) (redFlagRules config) with
    | Some rule => (true, redFlag sample (snd rule sample))
    | None => (false, sample)
    end.
Proof.
  unfold isRedFlagged, redFlagRules, find; cbn [fst snd].
  destruct (RedFlagged sample) eqn:Hflag.
  { by rewrite redFlag_own_reason. }
  destruct ((0 <? MaxOutputTokens config)
            && (MaxOutputTokens config <? TokenCount sample)); [done|].
  destruct (RequireFormat config); cbn [andb].
  - destruct (OutputPattern config) as [re|].
    + destruct (negb (MatchString re (Content sample))); [done|].
      by destruct (String.eqb (Action sample) "").
    + by destruct (String.eqb (Action sample) "").
  - by destruct (String.eqb (Action sample) "").
Qed.

Lemma GetProperty_ms_SetProperty_other step key key' v :
  key ≠ key' →
  GetProperty (ms_Properties (ms_SetProperty step key v)) key'
  = GetProperty (ms_Properties step) key'.
Proof. intros Hne. cbn. by apply GetProperty_insert_other. Qed.

Lemma executeMicrostepWithVoting_red_flags_unread
    r step v config currentState lastAction strategy stepIdx totalSteps :
  executeMicrostepWithVoting r (ms_SetProperty step "red_flags" v) config
    currentState lastAction strategy stepIdx totalSteps
  = executeMicrostepWithVoting r step config currentState lastAction strategy
      stepIdx totalSteps.
Proof.
  unfold executeMicrostepWithVoting, resolveMicrostepAgent, buildMDAPPrompt,
    failedStep.
  rewrite !GetProperty_ms_SetProperty_other by done.
  reflexivity.
Qed.

(** C4 (amended).  The filter is the ordered disjunction of four rules:
    already flagged, longer than a positive [MaxOutputTokens], failing a
    required output pattern, empty action; the first rule that matches
    supplies the recorded reason (a flag already set keeps its reason).
    No rule comes from the step: the [red_flags] property of a microstep
    has no effect on how the step is executed. *)
Theorem isRedFlagged_is_first_of_four_rules :
  ∀ (sample : MDAPSample) (config : MDAPConfig),
    isRedFlagged sample config
    = match find (λ rule, fst rule sample) (redFlagRules config) with
      | Some rule => (true, redFlag sample (snd rule sample))
      | None => (false, sample)
      end
    ∧ fst (isRedFlagged sample config)
      = existsb (λ rule, fst rule sample) (redFlagRules config)
    ∧ ∀ r step v currentState lastAction strategy stepIdx totalSteps,
        executeMicrostepWithVoting r (ms_SetProperty step "red_flags" v)
          config currentState lastAction strategy stepIdx totalSteps
        = executeMicrostepWithVoting r step config currentState lastAction
            strategy stepIdx totalSteps.
Proof.
  intros sample config. split; [apply isRedFlagged_rules|]. split.
  - rewrite isRedFlagged_rules.
    destruct (find _ _) as [rule|] eqn:Hfind; cbn [fst].
    + symmetry. apply existsb_exists. exists rule.
      apply find_some in Hfind. exact Hfind.
    + symmetry. apply not_true_is_false. intros Hex.
      apply existsb_exists in Hex as (rule & Hin & Hrule).
      by rewrite (find_none _ _ Hfind rule Hin) in Hrule.
  - intros. apply executeMicrostepWithVoting_red_flags_unread.
Qed.

(** C4 as stated fails: the step declares the forbidden substring
    [LegacyDate], the content of the sample holds it, and the filter lets
    the sample through; with [k = 1] the step commits its action. *)
Lemma step_declared_red_flag_not_applied :
  spec_forbiddenSubstringFires ex_refactorStep ex_legacySample = true
  ∧ fst (isRedFlagged ex_legacySample DefaultMDAPConfig) = false
  ∧ snd (executeMicrostepWithVoting
           (ex_runtime canonicalOrder ex_legacyProvider) ex_refactorStep
           (ex_config "first-to-ahead-by-k" 1 3) AEmptyMap "" "" 0 1)
    = Returned
        (mkStepResult "refactor-file" true
           (AString (Content ex_legacySample)) None,
         "keep LegacyDate.now()", AString "unchanged", None).
Proof. vm_compute. repeat split. Qed.

(** ** Machine integers *)

Lemma wrap_small z : int_min ≤ z ≤ int_max → wrap z = z.
Proof.
  unfold wrap, int_min, int_max. intros Hz.
  rewrite Z.mod_small by lia. lia.
Qed.

(** ** Vote arbiter *)

(** An enumeration of a map holds exactly its entries. *)
Lemma elem_of_range (ord : MapOrder) (m : gmap string Z) (a : string) (v : Z) :
  (a, v) ∈ range ord m ↔ m !! a = Some v.
Proof. rewrite (range_perm ord m). apply elem_of_map_to_list. Qed.

Lemma range_nonempty (ord : MapOrder) (m : gmap string Z) :
  (size m =? 0)%nat = false → ∃ a v, m !! a = Some v.
Proof.
  intros Hsize. apply Nat.eqb_neq in Hsize.
  destruct (map_to_list m) as [|[a v] l] eqn:Hl.
  - apply map_to_list_empty_iff in Hl. subst m. by rewrite map_size_empty in Hsize.
  - exists a, v. apply elem_of_map_to_list. rewrite Hl. left.
Qed.

(** The scan of [hasWinner]: started with [secondMax ≤ maxVotes], it ends
    with the largest value seen and a bound on all the others. *)
Lemma hasWinner_scan (l : list (string * Z)) :
  ∀ maxVotes secondMax maxVotes' secondMax',
    fold_left hasWinner_body (map snd l) (maxVotes, secondMax)
    = (maxVotes', secondMax') →
    secondMax ≤ maxVotes →
    secondMax' ≤ maxVotes' ∧ maxVotes ≤ maxVotes' ∧ secondMax ≤ secondMax'
    ∧ (∀ a v, (a, v) ∈ l → v ≤ maxVotes')
    ∧ (maxVotes' = maxVotes ∨ ∃ a, (a, maxVotes') ∈ l)
    ∧ (∀ a v, (a, v) ∈ l → v ≤ secondMax' ∨ maxVotes ≤ secondMax')
    ∧ (∀ a v b u, (a, v) ∈ l → (b, u) ∈ l → a ≠ b →
         v ≤ secondMax' ∨ u ≤ secondMax').
Proof.
  induction l as [|[c x] l IH]; intros mx sec mx' sec' Hfold Hle.
  - cbn in Hfold. injection Hfold as <- <-.
    split; [lia|]. split; [lia|]. split; [lia|].
    split; [intros a v Hin; by apply elem_of_nil in Hin|].
    split; [by left|].
    split; [intros a v Hin; by apply elem_of_nil in Hin|].
    intros a v b u Hin; by apply elem_of_nil in Hin.
  - cbn [map fold_left snd] in Hfold.
    destruct (hasWinner_body (mx, sec) x) as [mx1 sec1] eqn:Hbody.
    assert (Hstep : sec1 ≤ mx1 ∧ mx ≤ mx1 ∧ sec ≤ sec1 ∧ x ≤ mx1
                    ∧ (mx1 = mx ∨ mx1 = x) ∧ (x ≤ sec1 ∨ mx ≤ sec1)).
    { unfold hasWinner_body in Hbody.
      destruct (mx <? x) eqn:E1; [|destruct (sec <? x) eqn:E2];
        injection Hbody as <- <-; lia. }
    destruct Hstep as (S1 & S2 & S3 & S4 & S5 & S6).
    destruct (IH _ _ _ _ Hfold S1) as (I1 & I2 & I3 & I4 & I5 & I6 & I7).
    split; [lia|]. split; [lia|]. split; [lia|]. split; [|split; [|split]].
    + intros a v [Heq|Hin]%elem_of_cons; [injection Heq as -> ->; lia|eauto].
    + destruct I5 as [->|[a Ha]].
      * destruct S5 as [->| ->]; [by left|right; exists c; left].
      * right. exists a. by right.
    + intros a v [Heq|Hin]%elem_of_cons.
      * injection Heq as -> ->. lia.
      * destruct (I6 _ _ Hin); lia.
    + intros a v b u [Heq1|Hin1]%elem_of_cons [Heq2|Hin2]%elem_of_cons Hne.
      * injection Heq1 as -> ->. injection Heq2 as -> ->. done.
      * injection Heq1 as -> ->. destruct (I6 _ _ Hin2); lia.
      * injection Heq2 as -> ->. destruct (I6 _ _ Hin1); lia.
      * eauto.
Qed.

(** The scan of [getWinner]: it ends with the largest value seen and,
    when that exceeds the starting value, with a key that carries it. *)
Lemma getWinner_scan (l : list (string * Z)) :
  ∀ maxVotes winner maxVotes' winner',
    fold_left getWinner_body l (maxVotes, winner) = (maxVotes', winner') →
    maxVotes ≤ maxVotes'
    ∧ (∀ a v, (a, v) ∈ l → v ≤ maxVotes')
    ∧ ((maxVotes' = maxVotes ∧ winner' = winner)
       ∨ (maxVotes < maxVotes' ∧ (winner', maxVotes') ∈ l)).
Proof.
  induction l as [|[c x] l IH]; intros mx win mx' win' Hfold.
  - cbn in Hfold. injection Hfold as <- <-.
    split; [lia|].
    split; [intros a v Hin; by apply elem_of_nil in Hin|].
    by left.
  - cbn [fold_left] in Hfold. unfold getWinner_body at 2 in Hfold.
    destruct (mx <? x) eqn:E.
    + apply Z.ltb_lt in E.
      destruct (IH _ _ _ _ Hfold) as (I1 & I2 & I3).
      split; [lia|]. split.
      * intros a v [Heq|Hin]%elem_of_cons; [injection Heq as -> ->; lia|eauto].
      * right. destruct I3 as [[-> ->]|[I3 I4]].
        -- split; [lia|left].
        -- split; [lia|by right].
    + apply Z.ltb_ge in E.
      destruct (IH _ _ _ _ Hfold) as (I1 & I2 & I3).
      split; [lia|]. split.
      * intros a v [Heq|Hin]%elem_of_cons; [injection Heq as -> ->; lia|eauto].
      * destruct I3 as [[-> ->]|[I3 I4]]; [by left|].
        right. split; [lia|by right].
Qed.

(** [getWinner] returns a key with the largest count, as soon as some
    count is positive. *)
Lemma getWinner_max (ord : MapOrder) (m : gmap string Z) (a0 : string) (v0 : Z) :
  m !! a0 = Some v0 → 0 < v0 →
  ∃ vw, m !! getWinner ord m = Some vw
        ∧ ∀ a v, m !! a = Some v → v ≤ vw.
Proof.
  intros Hin Hpos. unfold getWinner.
  destruct (fold_left getWinner_body (range ord m) (0, "")) as [mx w] eqn:Hfold.
  destruct (getWinner_scan _ _ _ _ _ Hfold) as (_ & Hall & Hcase).
  assert (v0 ≤ mx) by (eapply Hall, elem_of_range; eauto).
  destruct Hcase as [[-> _]|[_ Hw]]; [lia|].
  exists mx. cbn [snd]. split; [by apply elem_of_range in Hw|].
  intros a v Hav. eapply Hall, elem_of_range; eauto.
Qed.


(** The margin that [hasWinner] checks, read on the map: when no count
    leaves the range in which [secondMax + k] cannot overflow, the count
    of the winner exceeds every other count by at least [k]. *)
Lemma hasWinner_margin (ord ord' : MapOrder) (m : gmap string Z) (k bound : Z) :
  hasWinner ord m k = true →
  (∀ a v, m !! a = Some v → 1 ≤ v ≤ bound) →
  bound ≤ 2 ^ 62 → - 2 ^ 62 ≤ k < 2 ^ 62 →
  ∃ vw, m !! getWinner ord' m = Some vw
        ∧ k ≤ vw
        ∧ ∀ a v, a ≠ getWinner ord' m → m !! a = Some v → k ≤ vw - v.
Proof.
  intros Hhas Hrange Hbound Hk. unfold hasWinner in Hhas.
  destruct (size m =? 0)%nat eqn:Hsize; [done|].
  destruct (range_nonempty ord m Hsize) as (a0 & v0 & H0).
  destruct (fold_left hasWinner_body (map snd (range ord m)) (0, 0))
    as [mx sec] eqn:Hfold.
  destruct (hasWinner_scan _ _ _ _ _ Hfold ltac:(lia))
    as (S1 & S2 & S3 & Hall & Hmx & _ & Hpair).
  destruct (getWinner_max ord' m a0 v0 H0) as (vw & Hw & Hmax).
  { specialize (Hrange _ _ H0). lia. }
  assert (Hmxvw : mx = vw).
  { assert (vw ≤ mx) by (eapply Hall, elem_of_range; eauto).
    destruct Hmx as [->|[b Hb]].
    - specialize (Hrange _ _ Hw). lia.
    - apply elem_of_range in Hb. specialize (Hmax _ _ Hb). lia. }
  assert (mx ≤ bound) by (specialize (Hrange _ _ Hw); lia).
  apply Z.leb_le in Hhas. rewrite wrap_small in Hhas
    by (unfold int_min, int_max; lia).
  exists vw. split; [done|]. split; [lia|]. intros a v Hne Hav.
  assert (Hv : v ≤ mx) by (eapply Hall, elem_of_range; eauto).
  destruct (Hpair a v (getWinner ord' m) vw) as [?|?];
    [by apply elem_of_range|by apply elem_of_range|done|lia|lia].
Qed.

Lemma hasWinner_body_comm acc x y :
  hasWinner_body (hasWinner_body acc x) y
  = hasWinner_body (hasWinner_body acc y) x.
Proof.
  destruct acc as [mx sec]. unfold hasWinner_body.
  repeat match goal with
         | |- context [?a <? ?b] =>
             let E := fresh "E" in
             destruct (Z.ltb_spec a b) as [E|E]
         end; first [reflexivity | f_equal; lia | lia].
Qed.

Lemma fold_hasWinner_body_perm (l1 l2 : list Z) :
  l1 ≡ₚ l2 →
  ∀ acc, fold_left hasWinner_body l1 acc = fold_left hasWinner_body l2 acc.
Proof.
  induction 1 as [|x l1 l2 _ IH|x y l|l1 l2 l3 _ IH1 _ IH2]; intros acc; cbn.
  - reflexivity.
  - apply IH.
  - by rewrite hasWinner_body_comm.
  - by rewrite IH1.
Qed.


(** ** Voting loop: the loop as a fold with exits *)

Lemma isRedFlagged_accepted config sample :
  accepted config sample = true → isRedFlagged sample config = (false, sample).
Proof.
  unfold accepted. rewrite isRedFlagged_rules.
  by destruct (find _ _).
Qed.

Lemma isRedFlagged_rejected config sample :
  accepted config sample = false → fst (isRedFlagged sample config) = true.
Proof. unfold accepted. by destruct (fst _). Qed.

Lemma accepted_Action config sample :
  accepted config sample = true → voteKey sample = Action sample.
Proof.
  intros Hacc. unfold accepted, isRedFlagged in Hacc. unfold voteKey.
  destruct (String.eqb (Action sample) ""); [|done].
  exfalso. revert Hacc.
  destruct (RedFlagged sample); [done|].
  destruct (_ && _); [done|].
  by destruct (if RequireFormat config then _ else _).
Qed.

Lemma voteStep_accepted config st sample :
  accepted config sample = true →
  voteStep config st sample = tally st (voteKey sample) sample.
Proof.
  intros Hacc. unfold voteStep. by rewrite (isRedFlagged_accepted _ _ Hacc).
Qed.

Lemma voteStep_rejected config st sample :
  accepted config sample = false → voteStep config st sample = reject st.
Proof.
  intros Hrej%isRedFlagged_rejected. unfold voteStep.
  destruct (isRedFlagged sample config) as [flagged s']. cbn in Hrej.
  by subst flagged.
Qed.

Lemma voteStep_withTotal config st total sample :
  voteStep config (withTotal st total) sample
  = withTotal (voteStep config st sample) total.
Proof.
  unfold voteStep. destruct (isRedFlagged sample config) as [[] s']; done.
Qed.

Lemma absorb_cons config st sample processed :
  absorb config st (sample :: processed)
  = absorb config (voteStep config st sample) processed.
Proof. done. Qed.

Lemma absorb_withTotal config processed :
  ∀ st total,
    absorb config (withTotal st total) processed
    = withTotal (absorb config st processed) total.
Proof.
  induction processed as [|s l IH]; intros st total; [done|].
  rewrite !absorb_cons, voteStep_withTotal. apply IH.
Qed.

Lemma absorb_app config st l1 l2 :
  absorb config st (l1 ++ l2) = absorb config (absorb config st l1) l2.
Proof. apply fold_left_app. Qed.

Lemma withTotal_withTotal st t1 t2 :
  withTotal (withTotal st t1) t2 = withTotal st t2.
Proof. done. Qed.

Lemma drawn_withTotal st roundSamples :
  drawn st roundSamples
  = withTotal st (wrap (totalSamples st + Z.of_nat (length roundSamples))).
Proof. done. Qed.

Lemma totalSamples_absorb config processed :
  ∀ st, totalSamples (absorb config st processed) = totalSamples st.
Proof.
  induction processed as [|s l IH]; intros st; [done|].
  rewrite absorb_cons, IH. unfold voteStep.
  destruct (isRedFlagged s config) as [[] s']; done.
Qed.

(** One iteration of the loop over the samples. *)
Lemma tallySamples_cons r config st sample rest :
  tallySamples r config st (sample :: rest)
  = let st' := voteStep config st sample in
    if accepted config sample
       && String.eqb (VotingStrategy config) "first-to-ahead-by-k"
       && hasWinner (mapOrder r) (votes st') (K config)
    then declareWinner r st'
    else tallySamples r config st' rest.
Proof.
  cbn [tallySamples]. unfold voteStep, accepted, voteKey.
  destruct (isRedFlagged sample config) as [[] s']; cbn [fst negb andb]; [done|].
  destruct (String.eqb (VotingStrategy config) "first-to-ahead-by-k");
    cbn [andb]; [|done].
  by destruct (hasWinner _ _ _).
Qed.

Lemma declareWinner_Decided r st st' winner winnerSample :
  declareWinner r st = Returned (Decided st' winner winnerSample) →
  st' = st ∧ winner = getWinner (mapOrder r) (votes st)
  ∧ samples st !! winner = Some winnerSample.
Proof.
  unfold declareWinner.
  destruct (samples st !! getWinner (mapOrder r) (votes st)) eqn:E; [|done].
  intros [= <- <- <-]. done.
Qed.

Lemma declareWinner_not_Next r st st' :
  declareWinner r st ≠ Returned (Next st').
Proof. unfold declareWinner. by destruct (samples st !! _). Qed.

(** The loop over the samples of a round: it falls through after all of
    them, or it stops right after a sample that passed the filter and
    gave [hasWinner] under first-to-ahead-by-k. *)
Lemma tallySamples_spec r config roundSamples :
  ∀ st out,
    tallySamples r config st roundSamples = Returned out →
    match out with
    | Next st' => st' = absorb config st roundSamples
    | Decided st' winner winnerSample =>
        ∃ pre s post,
          roundSamples = pre ++ s :: post
          ∧ st' = absorb config st (pre ++ [s])
          ∧ accepted config s = true
          ∧ String.eqb (VotingStrategy config) "first-to-ahead-by-k" = true
          ∧ hasWinner (mapOrder r) (votes st') (K config) = true
          ∧ winner = getWinner (mapOrder r) (votes st')
          ∧ samples st' !! winner = Some winnerSample
    end.
Proof.
  induction roundSamples as [|s rest IH]; intros st out.
  - cbn. by intros [= <-].
  - rewrite tallySamples_cons. cbn zeta.
    destruct (accepted config s
              && String.eqb (VotingStrategy config) "first-to-ahead-by-k"
              && hasWinner (mapOrder r) (votes (voteStep config st s))
                   (K config)) eqn:Hexit.
    + intros Hdecl. destruct out as [st'|st' w ws].
      { by apply declareWinner_not_Next in Hdecl. }
      apply declareWinner_Decided in Hdecl as (-> & -> & Hws).
      apply andb_prop in Hexit as [[Hacc Hstrat]%andb_prop Hhas].
      exists [], s, rest. by repeat split.
    + intros Hrest. specialize (IH _ _ Hrest). destruct out as [st'|st' w ws].
      * done.
      * destruct IH as (pre & s' & post & -> & -> & H1 & H2 & H3 & H4 & H5).
        exists (s :: pre), s', post. by repeat split.
Qed.

Lemma roundsTaken_S rounds round k :
  roundsTaken rounds round (S k)
  = rounds round ++ roundsTaken rounds (S round) k.
Proof. done. Qed.

Lemma totalAfter_S rounds round k total :
  totalAfter rounds round (S k) total
  = totalAfter rounds (S round) k
      (wrap (total + Z.of_nat (length (rounds round)))).
Proof. done. Qed.

(** The loop over the rounds, when every call of the sampler returns.
    [Next]: all [n] rounds went through the loop body.  [Decided]: the
    loop stopped in its round number [j], after the samples [pre] of
    that round, by one of the two checks. *)
Lemma votingRounds_spec r config sampler rounds :
  (∀ i, sampler i = Returned (rounds i)) →
  ∀ n round st out,
    votingRounds r config sampler n round st = Returned out →
    match out with
    | Next st' =>
        st' = withTotal (absorb config st (roundsTaken rounds round n))
                (totalAfter rounds round n (totalSamples st))
    | Decided st' winner winnerSample =>
        ∃ j pre post,
          (j < n)%nat
          ∧ rounds (round + j)%nat = pre ++ post
          ∧ st' = withTotal
                    (absorb config st (roundsTaken rounds round j ++ pre))
                    (totalAfter rounds round (S j) (totalSamples st))
          ∧ winner = getWinner (mapOrder r) (votes st')
          ∧ samples st' !! winner = Some winnerSample
          ∧ ((String.eqb (VotingStrategy config) "first-to-ahead-by-k" = true
              ∧ hasWinner (mapOrder r) (votes st') (K config) = true
              ∧ ∃ pre' s, pre = pre' ++ [s] ∧ accepted config s = true)
             ∨ (String.eqb (VotingStrategy config) "majority" = true
                ∧ post = []
                ∧ (0 <? size (votes st'))%nat = true
                ∧ (wrap (K config * 3) <=? totalSamples st') = true))
    end.
Proof.
  intros Hsampler. induction n as [|n IH]; intros round st out.
  - cbn. intros [= <-]. destruct st; done.
  - cbn [votingRounds]. rewrite Hsampler.
    destruct (tallySamples r config (drawn st (rounds round)) (rounds round))
      as [[st2|st2 w2 ws2]|msg] eqn:Htally; [| |done].
    + (* the round fell through *)
      apply tallySamples_spec in Htally. cbn in Htally.
      rewrite drawn_withTotal, absorb_withTotal in Htally.
      destruct (String.eqb (VotingStrategy config) "majority"
                && (0 <? size (votes st2))%nat) eqn:Hmaj;
        [destruct (wrap (K config * 3) <=? totalSamples st2) eqn:Hthr|].
      * intros Hdecl. destruct out as [st'|st' w ws].
        { by apply declareWinner_not_Next in Hdecl. }
        apply declareWinner_Decided in Hdecl as (-> & -> & Hws).
        apply andb_prop in Hmaj as [Hstrat Hsize].
        exists 0%nat, (rounds round), []. rewrite Nat.add_0_r, app_nil_r.
        split; [lia|]. split; [done|]. split; [by rewrite Htally|].
        split; [done|]. split; [done|]. right. done.
      * intros Hrest. specialize (IH _ _ _ Hrest).
        destruct out as [st'|st' w ws].
        -- rewrite IH, Htally. rewrite absorb_withTotal, withTotal_withTotal.
           rewrite roundsTaken_S, !absorb_app.
           rewrite (totalAfter_S rounds round n). done.
        -- destruct IH as (j & pre & post & Hj & Hround & -> & Hw & Hws & Hwhy).
           exists (S j), pre, post. split; [lia|].
           split; [by rewrite <- Nat.add_succ_comm|].
           split; [|done].
           rewrite Htally. rewrite absorb_withTotal, withTotal_withTotal.
           rewrite roundsTaken_S, <- !app_assoc, !absorb_app.
           rewrite (totalAfter_S rounds round (S j)). done.
      * intros Hrest. specialize (IH _ _ _ Hrest).
        destruct out as [st'|st' w ws].
        -- rewrite IH, Htally. rewrite absorb_withTotal, withTotal_withTotal.
           rewrite roundsTaken_S, !absorb_app.
           rewrite (totalAfter_S rounds round n). done.
        -- destruct IH as (j & pre & post & Hj & Hround & -> & Hw & Hws & Hwhy).
           exists (S j), pre, post. split; [lia|].
           split; [by rewrite <- Nat.add_succ_comm|].
           split; [|done].
           rewrite Htally. rewrite absorb_withTotal, withTotal_withTotal.
           rewrite roundsTaken_S, <- !app_assoc, !absorb_app.
           rewrite (totalAfter_S rounds round (S j)). done.
    + (* the round stopped at a sample *)
      apply tallySamples_spec in Htally. cbn in Htally.
      destruct Htally as (pre & s & post & Hround & -> & Hacc & Hstrat & Hhas
                          & -> & Hws).
      intros [= <-].
      exists 0%nat, (pre ++ [s]), post. rewrite Nat.add_0_r.
      split; [lia|]. split; [by rewrite <- app_assoc|].
      split; [by rewrite drawn_withTotal, absorb_withTotal|].
      split; [done|]. split; [done|]. left.
      split; [done|]. split; [done|]. by exists pre, s.
Qed.

(** ** Voting loop: what the tally holds *)

Lemma votes_within_mono b b' (m : gmap string Z) :
  b ≤ b' → votes_within b m → votes_within b' m.
Proof. intros Hle Hm a v Hav. specialize (Hm a v Hav). lia. Qed.

Lemma votes_within_empty b : votes_within b (∅ : gmap string Z).
Proof. intros a v Hav. by rewrite lookup_empty in Hav. Qed.

Lemma votes_within_voteStep config st sample b :
  votes_within b (votes st) → 0 ≤ b < int_max →
  votes_within (b + 1) (votes (voteStep config st sample)).
Proof.
  intros Hin Hb. unfold voteStep.
  destruct (isRedFlagged sample config) as [[] s'].
  { cbn. eapply votes_within_mono; [|done]. lia. }
  cbn. intros a v. rewrite lookup_insert. case_decide as Ha.
  - intros [= <-].
    destruct (votes st !! voteKey s') as [v0|] eqn:E; cbn.
    + specialize (Hin _ _ E). rewrite wrap_small; unfold int_min, int_max in *; lia.
    + rewrite wrap_small; unfold int_min, int_max in *; lia.
  - intros Hav. specialize (Hin _ _ Hav). lia.
Qed.

Lemma votes_within_absorb config processed :
  ∀ st b,
    votes_within b (votes st) → 0 ≤ b →
    b + Z.of_nat (length processed) ≤ int_max →
    votes_within (b + Z.of_nat (length processed))
      (votes (absorb config st processed)).
Proof.
  induction processed as [|s l IH]; intros st b Hin Hb Hlen.
  - cbn. by rewrite Z.add_0_r.
  - rewrite absorb_cons. cbn [length] in *.
    replace (b + Z.of_nat (S (length l)))
      with ((b + 1) + Z.of_nat (length l)) by lia.
    apply IH; [|lia|lia]. apply votes_within_voteStep; [done|lia].
Qed.

(** The map [samples] holds, for each key, the last sample that voted
    under it. *)
Lemma samples_voteStep config st sample a :
  samples (voteStep config st sample) !! a
  = if accepted config sample && String.eqb (voteKey sample) a
    then Some sample else samples st !! a.
Proof.
  destruct (accepted config sample) eqn:Hacc; cbn [andb].
  - rewrite voteStep_accepted by done. cbn.
    destruct (String.eqb_spec (voteKey sample) a) as [->|Hne].
    + by rewrite lookup_insert_eq.
    + by rewrite lookup_insert_ne.
  - by rewrite voteStep_rejected.
Qed.

Lemma samples_absorb config processed :
  ∀ st a,
    samples (absorb config st processed) !! a
    = match lastAccepted config processed a with
      | Some s => Some s
      | None => samples st !! a
      end.
Proof.
  induction processed as [|s l IH]; intros st a; [done|].
  rewrite absorb_cons, IH, samples_voteStep.
  unfold lastAccepted. cbn [List.filter].
  destruct (accepted config s && String.eqb (voteKey s) a); [|done].
  rewrite last_cons. by destruct (last _).
Qed.

Lemma samples_withTotal st total : samples (withTotal st total) = samples st.
Proof. done. Qed.

Lemma votes_withTotal st total : votes (withTotal st total) = votes st.
Proof. done. Qed.

(** ** The samples of a step *)

Lemma stepSampler_Returned r provider model systemPrompt prompt config stepIdx :
  0 ≤ numSamples config →
  ∀ round,
    stepSampler r provider model systemPrompt prompt config stepIdx round
    = Returned
        (stepRounds r provider model systemPrompt prompt config stepIdx round).
Proof.
  intros Hn round. unfold stepSampler, parallelSample, stepRounds.
  destruct (Z.ltb_spec (numSamples config) 0); [lia|done].
Qed.

Lemma stepSampler_Panicked r provider model systemPrompt prompt config stepIdx :
  numSamples config < 0 →
  ∀ round,
    stepSampler r provider model systemPrompt prompt config stepIdx round
    = Panicked "makeslice: len out of range".
Proof.
  intros Hn round. unfold stepSampler, parallelSample.
  destruct (Z.ltb_spec (numSamples config) 0); [done|lia].
Qed.

Lemma votingRounds_sampler_panics r config sampler msg n round st st' w ws :
  (∀ i, sampler i = Panicked msg) →
  votingRounds r config sampler n round st ≠ Returned (Decided st' w ws).
Proof. intros Hs. destruct n; cbn; [done|]. by rewrite Hs. Qed.

Lemma length_stepRounds r provider model systemPrompt prompt config stepIdx round :
  length (stepRounds r provider model systemPrompt prompt config stepIdx round)
  = Z.to_nat (numSamples config).
Proof. unfold stepRounds. by rewrite length_map, length_seq. Qed.

Lemma length_roundsTaken rounds (len : nat) :
  (∀ i, length (rounds i) = len) →
  ∀ k round, length (roundsTaken rounds round k) = (k * len)%nat.
Proof.
  intros Hlen. induction k as [|k IH]; intros round; [done|].
  rewrite roundsTaken_S, length_app, Hlen, IH. lia.
Qed.

(** A step that commits went through its voting loop. *)
Lemma executeMicrostepWithVoting_commit
    r step config currentState lastAction strategy stepIdx totalSteps
    calls stepResult winner nextState :
  executeMicrostepWithVoting r step config currentState lastAction strategy
    stepIdx totalSteps
  = (calls, Returned (stepResult, winner, nextState, None)) →
  ∃ agent systemPrompt provider st winnerSample,
    resolveMicrostepAgent r step = Ok agent
    ∧ getAgentSystemPrompt r agent = Ok systemPrompt
    ∧ getProviderForModel r (getAgentModel r agent) = Ok provider
    ∧ votingLoop r config
        (stepSampler r provider (getAgentModel r agent)
           (systemPrompt +:+ criticalInstructions)
           (buildMDAPPrompt r step currentState lastAction strategy)
           config stepIdx)
      = Returned (Decided st winner winnerSample)
    ∧ stepResult = mkStepResult (ms_Name step) true
                     (AString (Content winnerSample)) None
    ∧ nextState = NextState winnerSample.
Proof.
  unfold executeMicrostepWithVoting, failedStep.
  destruct (totalSteps =? 0); [by intros [= ]|].
  destruct (resolveMicrostepAgent r step) as [agent|e] eqn:Hagent;
    [|by intros [= ]].
  destruct (getAgentSystemPrompt r agent) as [sp|e] eqn:Hsp; [|by intros [= ]].
  destruct (getProviderForModel r (getAgentModel r agent)) as [provider|e]
    eqn:Hprovider; [|by intros [= ]].
  destruct (votingLoop _ _ _) as [[st|st w ws]|msg] eqn:Hloop;
    [by intros [= ]| |by intros [= ]].
  intros [= <- <- <- <-].
  exists agent, sp, provider, st, ws. done.
Qed.

(** The voting loop of a step that declares a winner: the samples
    [processed] that went through the loop body are the rounds before
    round [j] and the part [pre] of round [j]. *)
Lemma votingLoop_step_Decided
    r provider model systemPrompt prompt config stepIdx st winner winnerSample :
  votingLoop r config
    (stepSampler r provider model systemPrompt prompt config stepIdx)
  = Returned (Decided st winner winnerSample) →
  let rounds := stepRounds r provider model systemPrompt prompt config stepIdx in
  ∃ j pre post,
    0 ≤ numSamples config
    ∧ (j < Z.to_nat (MaxRetries config))%nat
    ∧ rounds j = pre ++ post
    ∧ st = withTotal
             (absorb config initialVoteState (roundsTaken rounds 0 j ++ pre))
             (totalAfter rounds 0 (S j) 0)
    ∧ winner = getWinner (mapOrder r) (votes st)
    ∧ samples st !! winner = Some winnerSample
    ∧ ((String.eqb (VotingStrategy config) "first-to-ahead-by-k" = true
        ∧ hasWinner (mapOrder r) (votes st) (K config) = true
        ∧ ∃ pre' s, pre = pre' ++ [s] ∧ accepted config s = true)
       ∨ (String.eqb (VotingStrategy config) "majority" = true
          ∧ post = []
          ∧ (0 <? size (votes st))%nat = true
          ∧ (wrap (K config * 3) <=? totalSamples st) = true)).
Proof.
  intros Hloop rounds. unfold votingLoop in Hloop.
  destruct (Z.lt_ge_cases (numSamples config) 0) as [Hneg|Hpos].
  { exfalso. revert Hloop. eapply votingRounds_sampler_panics.
    by apply stepSampler_Panicked. }
  eapply (votingRounds_spec r config _ rounds) in Hloop;
    [|by apply stepSampler_Returned].
  cbn in Hloop. destruct Hloop as (j & pre & post & Hj & Hround & Hrest).
  exists j, pre, post. done.
Qed.


(** ** First-to-ahead-by-k *)


(** ** The representative sample *)


(** ** Independence of the enumeration order *)



















(** ** Step loop *)

Lemma checkpointBlock_frame config stepIdx result state calls result' :
  checkpointBlock config stepIdx result state = (calls, result') →
  Embedded result' = Embedded result
  ∧ TotalMicrosteps result' = TotalMicrosteps result
  ∧ TotalSamples result' = TotalSamples result
  ∧ RejectedSamples result' = RejectedSamples result
  ∧ VotingRounds result' = VotingRounds result.
Proof.
  unfold checkpointBlock. destruct (checkpointDue config stepIdx);
    intros [= <- <-]; done.
Qed.

(** The sample counters of the result are not written by the loop. *)
Lemma stepLoop_sample_counters r pipeline config strategy isDynamic totalSteps :
  ∀ n stepIdx ls calls exit,
    stepLoop r pipeline config strategy isDynamic totalSteps n stepIdx ls
    = (calls, Returned exit) →
    TotalSamples (exitResult exit) = TotalSamples (ls_result ls)
    ∧ RejectedSamples (exitResult exit) = RejectedSamples (ls_result ls)
    ∧ VotingRounds (exitResult exit) = VotingRounds (ls_result ls).
Proof.
  induction n as [|n IH]; intros stepIdx ls calls exit.
  - cbn. by intros [= <- <-].
  - cbn [stepLoop].
    destruct (checkpointBlock config stepIdx (ls_result ls) (ls_state ls))
      as [calls0 result] eqn:Hck.
    apply checkpointBlock_frame in Hck as (_ & _ & Hts & Hrs & Hvr).
    destruct (microstepAt pipeline isDynamic stepIdx (ls_state ls) strategy)
      as [microstep|]; [|by intros [= ]].
    destruct (executeMicrostepWithVoting r microstep config (ls_state ls)
                (ls_lastAction ls) strategy stepIdx totalSteps)
      as [calls1 [[[[stepResult action] newState] [err|]]|msg]];
      [| |by intros [= ]].
    + intros [= <- <-]. cbn. by rewrite <- Hts, <- Hrs, <- Hvr.
    + destruct (stepLoop r pipeline config strategy isDynamic totalSteps n
                  (stepIdx + 1) _) as [calls2 exit2] eqn:Hrest.
      intros [= <- ->]. apply IH in Hrest. cbn in Hrest.
      by rewrite <- Hts, <- Hrs, <- Hvr.
Qed.

(** C2.  Whenever a pipeline completes, the terminal [Complete] event
    carries [total_samples = "0"] and [rejected_samples = "0"]: the loop
    never adds the counts of a step to the result. *)
Theorem completion_event_reports_no_samples :
  ∀ r ctx pipeline calls ls,
    runMDAPPipeline r ctx pipeline = (calls, Returned (Completed ls)) →
    ∃ ev,
      last calls = Some (EmitProgress ev)
      ∧ ev_Type ev = ProgressTypeComplete
      ∧ ev_Metadata ev !! "total_samples" = Some "0"
      ∧ ev_Metadata ev !! "rejected_samples" = Some "0"
      ∧ TotalSamples (ls_result ls) = 0
      ∧ RejectedSamples (ls_result ls) = 0.
Proof.
  intros r ctx pipeline calls ls. unfold runMDAPPipeline.
  destruct (stepLoop r pipeline _ _ _ _ _ _ _) as [calls' exit] eqn:Hloop.
  destruct exit as [[ls'|res]|msg]; [|by intros [= ]|by intros [= ]].
  apply stepLoop_sample_counters in Hloop as (Hts & Hrs & _).
  cbn in Hts, Hrs.
  intros [= <- <-].
  exists (completionEvent r (setSuccess (ls_result ls') (ls_state ls'))).
  split.
  { change (EmitProgress (startEvent pipeline) :: calls' ++ [?x])
      with ((EmitProgress (startEvent pipeline) :: calls') ++ [x]).
    apply last_snoc. }
  cbn. rewrite Hts, Hrs. done.
Qed.

(** A step that fails reports the error in its step result. *)
Lemma executeMicrostepWithVoting_failed
    r step config currentState lastAction strategy stepIdx totalSteps
    calls stepResult action newState err :
  executeMicrostepWithVoting r step config currentState lastAction strategy
    stepIdx totalSteps
  = (calls, Returned (stepResult, action, newState, Some err)) →
  stepResult = mkStepResult (ms_Name step) false ANil (Some err)
  ∧ action = "" ∧ newState = ANil.
Proof.
  unfold executeMicrostepWithVoting, failedStep.
  destruct (totalSteps =? 0); [by intros [= ]|].
  destruct (resolveMicrostepAgent r step) as [agent|e];
    [|by intros [= <- <- <- <- <-]].
  destruct (getAgentSystemPrompt r agent) as [sp|e];
    [|by intros [= <- <- <- <- <-]].
  destruct (getProviderForModel r (getAgentModel r agent)) as [provider|e];
    [|by intros [= <- <- <- <- <-]].
  destruct (votingLoop _ _ _) as [[st|st w ws]|msg];
    [by intros [= <- <- <- <- <-]|by intros [= ]|by intros [= ]].
Qed.

(** The microstep of a step index does not depend on the state. *)
Lemma microstepAt_state pipeline isDynamic stepIdx state strategy state'
    strategy' :
  microstepAt pipeline isDynamic stepIdx state strategy
  = microstepAt pipeline isDynamic stepIdx state' strategy'.
Proof. unfold microstepAt. by destruct isDynamic. Qed.

(** What the loop leaves in [StepResults]: the entries it found, and one
    entry under the name of every microstep that it ran. *)
Lemma stepLoop_step_results r pipeline config strategy isDynamic totalSteps :
  ∀ n stepIdx ls calls exit,
    stepLoop r pipeline config strategy isDynamic totalSteps n stepIdx ls
    = (calls, Returned exit) →
    TotalMicrosteps (ls_result ls) ≤ TotalMicrosteps (exitResult exit)
    ∧ (∀ key, is_Some (er_StepResults (Embedded (ls_result ls)) !! key) →
              is_Some (er_StepResults (Embedded (exitResult exit)) !! key))
    ∧ (∀ j state strategy' microstep,
         stepIdx ≤ j
         < stepIdx + (TotalMicrosteps (exitResult exit)
                      - TotalMicrosteps (ls_result ls)) →
         microstepAt pipeline isDynamic j state strategy' = Some microstep →
         is_Some (er_StepResults (Embedded (exitResult exit))
                  !! ms_Name microstep)).
Proof.
  induction n as [|n IH]; intros stepIdx ls calls exit.
  - cbn. intros [= <- <-]. cbn. split; [lia|]. split; [done|]. intros; lia.
  - cbn [stepLoop].
    destruct (checkpointBlock config stepIdx (ls_result ls) (ls_state ls))
      as [calls0 result] eqn:Hck.
    apply checkpointBlock_frame in Hck as (Hemb & Htm & _).
    destruct (microstepAt pipeline isDynamic stepIdx (ls_state ls) strategy)
      as [microstep|] eqn:Hms; [|by intros [= ]].
    destruct (executeMicrostepWithVoting r microstep config (ls_state ls)
                (ls_lastAction ls) strategy stepIdx totalSteps)
      as [calls1 [[[[stepResult action] newState] [err|]]|msg]];
      [| |by intros [= ]].
    + intros [= <- <-]. cbn. rewrite Hemb, Htm. split; [lia|]. split.
      * intros key Hkey. rewrite lookup_insert. by case_decide.
      * intros j state strategy' ms Hj Hat.
        assert (j = stepIdx) as -> by lia.
        rewrite (microstepAt_state _ _ _ _ _ (ls_state ls) strategy), Hms in Hat.
        injection Hat as <-. by rewrite lookup_insert_eq.
    + destruct (stepLoop r pipeline config strategy isDynamic totalSteps n
                  (stepIdx + 1) _) as [calls2 exit2] eqn:Hrest.
      intros [= <- ->]. apply IH in Hrest as (Hle & Hmono & Hran).
      cbn in Hle, Hmono, Hran. rewrite Hemb, Htm in *.
      split; [lia|]. split.
      * intros key Hkey. apply Hmono. rewrite lookup_insert. by case_decide.
      * intros j state strategy' ms Hj Hat.
        destruct (decide (j = stepIdx)) as [->|Hne].
        -- apply Hmono.
           rewrite (microstepAt_state _ _ _ _ _ (ls_state ls) strategy), Hms
             in Hat.
           injection Hat as <-. by rewrite lookup_insert_eq.
        -- eapply Hran; [|done]. lia.
Qed.

(** The result with which the loop aborts: the error and the step result
    of the failing microstep are set, [Success] and [Output] are as the
    loop found them. *)
Lemma stepLoop_aborted r pipeline config strategy isDynamic totalSteps :
  ∀ n stepIdx ls calls res,
    stepLoop r pipeline config strategy isDynamic totalSteps n stepIdx ls
    = (calls, Returned (Aborted res)) →
    er_Success (Embedded res) = er_Success (Embedded (ls_result ls))
    ∧ er_Output (Embedded res) = er_Output (Embedded (ls_result ls))
    ∧ ∃ name cause,
        er_Error (Embedded res) = Some (ErrMicrostepFailed name cause)
        ∧ er_StepResults (Embedded res) !! name
          = Some (mkStepResult name false ANil (Some cause)).
Proof.
  induction n as [|n IH]; intros stepIdx ls calls res.
  - cbn. by intros [= ].
  - cbn [stepLoop].
    destruct (checkpointBlock config stepIdx (ls_result ls) (ls_state ls))
      as [calls0 result] eqn:Hck.
    apply checkpointBlock_frame in Hck as (Hemb & _).
    destruct (microstepAt pipeline isDynamic stepIdx (ls_state ls) strategy)
      as [microstep|] eqn:Hms; [|by intros [= ]].
    destruct (executeMicrostepWithVoting r microstep config (ls_state ls)
                (ls_lastAction ls) strategy stepIdx totalSteps)
      as [calls1 [[[[stepResult action] newState] [err|]]|msg]] eqn:Hexec;
      [| |by intros [= ]].
    + apply executeMicrostepWithVoting_failed in Hexec as (-> & _ & _).
      intros [= <- <-]. cbn. rewrite Hemb. split; [done|]. split; [done|].
      exists (ms_Name microstep), err. split; [done|].
      by rewrite lookup_insert_eq.
    + destruct (stepLoop r pipeline config strategy isDynamic totalSteps n
                  (stepIdx + 1) _) as [calls2 exit2] eqn:Hrest.
      intros [= <- ->]. apply IH in Hrest as (Hs & Ho & Herr).
      cbn in Hs, Ho. by rewrite Hemb in Hs, Ho.
Qed.

Lemma fst_executeMicrostepWithVoting r step config currentState lastAction
    strategy stepIdx totalSteps :
  stepOutputs
    (fst (executeMicrostepWithVoting r step config currentState lastAction
            strategy stepIdx totalSteps))
  = [].
Proof.
  unfold executeMicrostepWithVoting.
  destruct (totalSteps =? 0); [done|].
  destruct (_ || _);
    destruct (resolveMicrostepAgent r step) as [agent|?]; try done;
    destruct (getAgentSystemPrompt r agent) as [sp|?]; try done;
    destruct (getProviderForModel r (getAgentModel r agent)) as [pr|?];
    try done;
    by destruct (votingLoop _ _ _) as [[?|? ? ?]|?].
Qed.

Lemma stepOutputs_checkpointBlock config stepIdx result state :
  stepOutputs (fst (checkpointBlock config stepIdx result state)) = [].
Proof. unfold checkpointBlock. by destruct (checkpointDue config stepIdx). Qed.

Lemma stepOutputs_app (l1 l2 : list CtxCall) :
  stepOutputs (l1 ++ l2) = stepOutputs l1 ++ stepOutputs l2.
Proof. apply omap_app. Qed.

Lemma stepOutputs_SetStepOutput name output (l : list CtxCall) :
  stepOutputs (SetStepOutput name output :: l)
  = (name, output) :: stepOutputs l.
Proof. reflexivity. Qed.

Lemma stepOutputs_EmitProgress e (l : list CtxCall) :
  stepOutputs (EmitProgress e :: l) = stepOutputs l.
Proof. reflexivity. Qed.

(** The step results of the loop: the entries it found, then a success
    for every step whose output it has set (a later step of the same name
    replaces an earlier one), then the failure of the step that made it
    stop. *)
Lemma stepLoop_results r pipeline config strategy isDynamic totalSteps :
  ∀ n stepIdx ls calls exit,
    stepLoop r pipeline config strategy isDynamic totalSteps n stepIdx ls
    = (calls, Returned exit) →
    Forall (λ o, ∃ content, snd o = AString content) (stepOutputs calls)
    ∧ match exit with
      | Completed ls' =>
          er_StepResults (Embedded (ls_result ls'))
          = committedResults (stepOutputs calls)
              (er_StepResults (Embedded (ls_result ls)))
      | Aborted res =>
          ∃ name cause,
            er_Error (Embedded res) = Some (ErrMicrostepFailed name cause)
            ∧ er_StepResults (Embedded res)
              = <[name := mkStepResult name false ANil (Some cause)]>
                  (committedResults (stepOutputs calls)
                     (er_StepResults (Embedded (ls_result ls))))
      end.
Proof.
  induction n as [|n IH]; intros stepIdx ls calls exit.
  - cbn. intros [= <- <-]. split; [constructor|done].
  - cbn [stepLoop].
    pose proof (stepOutputs_checkpointBlock config stepIdx (ls_result ls)
                  (ls_state ls)) as Hcalls0.
    destruct (checkpointBlock config stepIdx (ls_result ls) (ls_state ls))
      as [calls0 result] eqn:Hck.
    apply checkpointBlock_frame in Hck as (Hemb & _).
    destruct (microstepAt pipeline isDynamic stepIdx (ls_state ls) strategy)
      as [microstep|] eqn:Hms; [|by intros [= ]].
    pose proof (fst_executeMicrostepWithVoting r microstep config (ls_state ls)
                  (ls_lastAction ls) strategy stepIdx totalSteps) as Hcalls1.
    destruct (executeMicrostepWithVoting r microstep config (ls_state ls)
                (ls_lastAction ls) strategy stepIdx totalSteps)
      as [calls1 [[[[stepResult action] newState] [err|]]|msg]] eqn:Hexec;
      [| |by intros [= ]]; cbn [fst] in Hcalls0, Hcalls1.
    + apply executeMicrostepWithVoting_failed in Hexec as (-> & _ & _).
      intros [= <- <-].
      rewrite !stepOutputs_app, Hcalls0, Hcalls1, stepOutputs_EmitProgress.
      split; [constructor|].
      exists (ms_Name microstep), err. split; [done|].
      cbn. by rewrite Hemb.
    + apply executeMicrostepWithVoting_commit in Hexec
        as (_ & _ & _ & _ & ws & _ & _ & _ & _ & -> & _).
      destruct (stepLoop r pipeline config strategy isDynamic totalSteps n
                  (stepIdx + 1) _) as [calls2 exit2] eqn:Hrest.
      intros [= <- ->]. apply IH in Hrest as [Hall Hres].
      rewrite !stepOutputs_app, Hcalls0, Hcalls1. cbn [app].
      rewrite stepOutputs_SetStepOutput. cbn [sr_Output].
      split; [constructor; [by eexists|done]|].
      cbn [committedResults fold_left fst snd].
      cbn [ls_result recordStep Embedded er_StepResults] in Hres.
      rewrite Hemb in Hres. exact Hres.
Qed.

(** C3 (amended).  When a step fails, the caller receives the embedded
    execution result with [Success = false] and the error set to the
    wrapped error of the step.  Its step results are exactly those
    recorded: a success holding the output, under the name of every step
    whose output was set, and the failure of the failing step under its
    name.  Its [Output] is unset.  The microstep counter and the
    checkpoints belong to the local [result], which is not returned. *)
Theorem failed_run_returns_step_results :
  ∀ r ctx pipeline calls res err,
    executeMDAPPipeline r ctx (IsMDAPPipeline pipeline)
    = (calls, Returned (res, Some err)) →
    ∃ result name cause,
      runMDAPPipeline r ctx pipeline = (calls, Returned (Aborted result))
      ∧ res = Some (Embedded result)
      ∧ er_Success (Embedded result) = false
      ∧ er_Error (Embedded result) = Some err
      ∧ err = ErrMicrostepFailed name cause
      ∧ er_StepResults (Embedded result)
        = <[name := mkStepResult name false ANil (Some cause)]>
            (committedResults (stepOutputs calls) ∅)
      ∧ Forall (λ o, ∃ content, snd o = AString content) (stepOutputs calls)
      ∧ er_Output (Embedded result) = ANil
      ∧ 1 ≤ TotalMicrosteps result
      ∧ ∀ j state strategy microstep,
          0 ≤ j < TotalMicrosteps result →
          microstepAt pipeline (isDynamicOf pipeline) j state strategy
          = Some microstep →
          is_Some (er_StepResults (Embedded result) !! ms_Name microstep).
Proof.
  intros r ctx pipeline calls res err. unfold executeMDAPPipeline.
  destruct (runMDAPPipeline r ctx pipeline) as [calls' exit] eqn:Hrun.
  destruct exit as [[ls|result]|msg]; [by intros [= ]| |by intros [= ]].
  intros [= <- <- Herr].
  exists result.
  unfold runMDAPPipeline in Hrun.
  destruct (stepLoop r pipeline _ _ _ _ _ _ _) as [calls2 exit] eqn:Hloop.
  destruct exit as [[ls|result']|msg]; [by injection Hrun| |by injection Hrun].
  injection Hrun as <- <-.
  pose proof (stepLoop_aborted _ _ _ _ _ _ _ _ _ _ _ Hloop)
    as (Hs & Ho & name & cause & Herr' & Hsr).
  pose proof (stepLoop_step_results _ _ _ _ _ _ _ _ _ _ _ Hloop)
    as (Hle & _ & Hran).
  pose proof (stepLoop_results _ _ _ _ _ _ _ _ _ _ _ Hloop)
    as (Hcontents & name' & cause' & Herr'' & Hresults).
  rewrite Herr' in Herr''. injection Herr'' as <- <-.
  cbn in Hs, Ho, Hle, Hran, Hresults.
  exists name, cause. rewrite Herr' in Herr. injection Herr as <-.
  do 5 (split; [done|]).
  split; [by rewrite stepOutputs_EmitProgress|].
  split; [by rewrite stepOutputs_EmitProgress|].
  split; [done|]. split.
  - (* the failing step was counted *)
    destruct (Z.to_nat (totalStepsOf pipeline)) as [|n] eqn:Hn;
      [by cbn in Hloop|].
    cbn [stepLoop] in Hloop.
    destruct (checkpointBlock _ _ _ _) as [calls0 result0] eqn:Hck.
    apply checkpointBlock_frame in Hck as (_ & Htm & _). cbn in Htm.
    destruct (microstepAt _ _ _ _ _) as [microstep|]; [|by injection Hloop].
    destruct (executeMicrostepWithVoting _ _ _ _ _ _ _ _)
      as [calls1 [[[[stepResult action] newState] [e|]]|msg]];
      [| |by injection Hloop].
    + injection Hloop as _ <-. cbn. lia.
    + destruct (stepLoop r pipeline _ _ _ _ n _ _) as [calls3 exit3] eqn:Hrest.
      injection Hloop as _ ->.
      apply stepLoop_step_results in Hrest as (Hle' & _). cbn in Hle'. lia.
  - intros j state strategy microstep Hj Hat.
    eapply (Hran j); [lia|]. exact Hat.
Qed.

(** ** Majority *)

Lemma tallySamples_no_exit r config roundSamples :
  String.eqb (VotingStrategy config) "first-to-ahead-by-k" = false →
  ∀ st,
    tallySamples r config st roundSamples
    = Returned (Next (absorb config st roundSamples)).
Proof.
  intros Hstrat. induction roundSamples as [|s rest IH]; intros st; [done|].
  rewrite tallySamples_cons. cbn zeta.
  rewrite Hstrat, andb_false_r. cbn [andb]. by rewrite IH.
Qed.

Lemma votes_voteStep_nonempty config st sample :
  votes st ≠ ∅ → votes (voteStep config st sample) ≠ ∅.
Proof.
  intros Hne. unfold voteStep.
  destruct (isRedFlagged sample config) as [[] s']; [done|].
  cbn. apply insert_non_empty.
Qed.

Lemma votes_absorb_nonempty config processed :
  ∀ st, votes st ≠ ∅ → votes (absorb config st processed) ≠ ∅.
Proof.
  induction processed as [|s l IH]; intros st Hne; [done|].
  rewrite absorb_cons. by apply IH, votes_voteStep_nonempty.
Qed.

Lemma size_pos_nonempty (m : gmap string Z) :
  (0 <? size m)%nat = true ↔ m ≠ ∅.
Proof. rewrite Nat.ltb_lt, <- map_size_non_empty_iff. lia. Qed.

(** The tally is non-empty exactly when some sample passed the filter. *)
Lemma votes_absorb_some_accepted config processed :
  ∀ st,
    votes st = ∅ →
    (0 <? size (votes (absorb config st processed)))%nat
    = existsb (accepted config) processed.
Proof.
  induction processed as [|s l IH]; intros st Hempty.
  - cbn. by rewrite Hempty, map_size_empty.
  - rewrite absorb_cons. cbn [existsb].
    destruct (accepted config s) eqn:Hacc; cbn [orb].
    + apply size_pos_nonempty, votes_absorb_nonempty.
      rewrite voteStep_accepted by done. cbn. apply insert_non_empty.
    + apply IH. by rewrite voteStep_rejected.
Qed.

Lemma roundsTaken_snoc rounds round k :
  roundsTaken rounds round (S k)
  = roundsTaken rounds round k ++ rounds (round + k)%nat.
Proof.
  unfold roundsTaken. rewrite seq_S, map_app, concat_app. cbn.
  by rewrite app_nil_r.
Qed.

Lemma length_roundsTaken_mono rounds k n :
  (k ≤ n)%nat →
  (length (roundsTaken rounds 0 k) ≤ length (roundsTaken rounds 0 n))%nat.
Proof.
  induction 1 as [|n _ IH]; [done|].
  rewrite roundsTaken_snoc, length_app. lia.
Qed.

(** One more round on top of [round] full rounds. *)
Lemma tallyAfter_S config rounds round :
  Z.of_nat (length (roundsTaken rounds 0 (S round))) ≤ int_max →
  absorb config (drawn (tallyAfter config rounds round) (rounds round))
    (rounds round)
  = tallyAfter config rounds (S round).
Proof.
  intros Hlen. unfold tallyAfter.
  rewrite drawn_withTotal, !absorb_withTotal, !withTotal_withTotal.
  rewrite roundsTaken_snoc in *. cbn [Nat.add] in *.
  rewrite absorb_app. cbn [totalSamples withTotal].
  f_equal. rewrite length_app in *.
  rewrite wrap_small; unfold int_min, int_max in *; lia.
Qed.

Lemma votingRounds_majority r config sampler rounds :
  VotingStrategy config = "majority" →
  (∀ i, sampler i = Returned (rounds i)) →
  ∀ n round,
    Z.of_nat (length (roundsTaken rounds 0 (round + n))) ≤ int_max →
    votingRounds r config sampler n round (tallyAfter config rounds round)
    = match
        find
          (λ j, existsb (accepted config) (roundsTaken rounds 0 (S j))
                && (wrap (K config * 3)
                    <=? Z.of_nat (length (roundsTaken rounds 0 (S j)))))
          (seq round n)
      with
      | Some j => declareWinner r (tallyAfter config rounds (S j))
      | None => Returned (Next (tallyAfter config rounds (round + n)))
      end.
Proof.
  intros Hstrat Hsampler.
  induction n as [|n IH]; intros round Hlen.
  - cbn. by rewrite Nat.add_0_r.
  - cbn [votingRounds seq find]. rewrite Hsampler.
    rewrite tallySamples_no_exit by (by rewrite Hstrat).
    assert (Hlen1 : Z.of_nat (length (roundsTaken rounds 0 (S round)))
                    ≤ int_max).
    { pose proof (length_roundsTaken_mono rounds (S round) (round + S n)
                    ltac:(lia)). lia. }
    rewrite tallyAfter_S by done.
    rewrite Hstrat. cbn [String.eqb Ascii.eqb Bool.eqb andb].
    replace (0 <? size (votes (tallyAfter config rounds (S round))))%nat
      with (existsb (accepted config) (roundsTaken rounds 0 (S round)))
      by (symmetry; by apply votes_absorb_some_accepted).
    change (totalSamples (tallyAfter config rounds (S round)))
      with (Z.of_nat (length (roundsTaken rounds 0 (S round)))).
    destruct (existsb (accepted config) (roundsTaken rounds 0 (S round)));
      cbn [andb].
    + destruct (wrap (K config * 3)
                <=? Z.of_nat (length (roundsTaken rounds 0 (S round))));
        [done|].
      rewrite IH by (by rewrite Nat.add_succ_comm).
      by rewrite Nat.add_succ_comm.
    + rewrite IH by (by rewrite Nat.add_succ_comm).
      by rewrite Nat.add_succ_comm.
Qed.

(** C5 (amended).  Under the majority strategy, when the sampler returns
    in every round and the samples of the step number at most the
    largest [int], the voting loop declares the winner at the end of the
    first round at which some sample has passed the filter and the
    number of samples drawn so far, flagged ones included, is at least
    [config.K*3], the threshold as the code computes it (the product
    [3 * K] when that is an [int], its wrap-around otherwise); it
    declares none when the [MaxRetries] rounds hold no such round.  The
    declared winner has the largest count of the tally. *)
Theorem majority_threshold_counts_every_sample :
  ∀ r config sampler rounds,
    VotingStrategy config = "majority" →
    (∀ i, sampler i = Returned (rounds i)) →
    Z.of_nat (length (roundsTaken rounds 0 (Z.to_nat (MaxRetries config))))
    ≤ int_max →
    votingLoop r config sampler
    = match majorityCommitRound config rounds (Z.to_nat (MaxRetries config))
      with
      | Some j => declareWinner r (tallyAfter config rounds (S j))
      | None =>
          Returned
            (Next (tallyAfter config rounds (Z.to_nat (MaxRetries config))))
      end
    ∧ ∀ st winner winnerSample,
        votingLoop r config sampler
        = Returned (Decided st winner winnerSample) →
        ∃ winnerVotes,
          votes st !! winner = Some winnerVotes
          ∧ ∀ a v, votes st !! a = Some v → v ≤ winnerVotes.
Proof.
  intros r config sampler rounds Hstrat Hsampler Hlen.
  assert (Heq :
    votingLoop r config sampler
    = match majorityCommitRound config rounds (Z.to_nat (MaxRetries config))
      with
      | Some j => declareWinner r (tallyAfter config rounds (S j))
      | None =>
          Returned
            (Next (tallyAfter config rounds (Z.to_nat (MaxRetries config))))
      end).
  { unfold votingLoop, majorityCommitRound.
    change initialVoteState with (tallyAfter config rounds 0).
    by rewrite (votingRounds_majority r config sampler rounds Hstrat
                  Hsampler). }
  split; [exact Heq|].
  intros st winner winnerSample Hdecided. rewrite Heq in Hdecided.
  unfold majorityCommitRound in Hdecided.
  destruct (find _ _) as [j|] eqn:Hfind; [|done].
  apply declareWinner_Decided in Hdecided as (-> & -> & _).
  apply find_some in Hfind as [Hj Hcond].
  apply in_seq in Hj. apply andb_prop in Hcond as [Hsome _].
  assert (Hlenj : Z.of_nat (length (roundsTaken rounds 0 (S j))) ≤ int_max).
  { pose proof (length_roundsTaken_mono rounds (S j)
                  (Z.to_nat (MaxRetries config)) ltac:(lia)). lia. }
  assert (Hwithin :
    votes_within (0 + Z.of_nat (length (roundsTaken rounds 0 (S j))))
      (votes (tallyAfter config rounds (S j)))).
  { apply votes_within_absorb; [apply votes_within_empty|lia|lia]. }
  assert (Hsize : (size (votes (tallyAfter config rounds (S j))) =? 0)%nat
                  = false).
  { rewrite <- (votes_absorb_some_accepted config _ initialVoteState) in Hsome
      by done.
    apply Nat.ltb_lt in Hsome. apply Nat.eqb_neq.
    unfold tallyAfter. rewrite votes_withTotal. lia. }
  destruct (range_nonempty (mapOrder r) _ Hsize) as (a0 & v0 & H0).
  apply (getWinner_max (mapOrder r) _ a0 v0 H0).
  specialize (Hwithin _ _ H0). lia.
Qed.

(** ** Microstep selection *)

(** An explicit microstep list that is shorter than [total_steps] is
    indexed past its end. *)
Lemma stepLoop_index_out_of_range
    r pipeline config strategy totalSteps n stepIdx ls :
  (length (pl_Microsteps pipeline) ≤ Z.to_nat stepIdx)%nat →
  snd (stepLoop r pipeline config strategy false totalSteps (S n) stepIdx ls)
  = Panicked ("index out of range [" +:+ fmtD stepIdx +:+ "] with length "
              +:+ fmtD (Z.of_nat (length (pl_Microsteps pipeline)))).
Proof.
  intros Hlen. cbn [stepLoop].
  destruct (checkpointBlock config stepIdx (ls_result ls) (ls_state ls))
    as [calls0 result].
  unfold microstepAt. by rewrite lookup_ge_None_2.
Qed.

(** Where selection does succeed: an empty list with a positive step
    count yields the synthesized [step-<index>], and an index inside a
    non-empty list yields its entry. *)
Lemma microstepAt_covered pipeline stepIdx state strategy :
  0 ≤ stepIdx →
  (pl_Microsteps pipeline = [] → 0 < totalStepsOf pipeline →
   ∃ microstep,
     microstepAt pipeline (isDynamicOf pipeline) stepIdx state strategy
     = Some microstep
     ∧ ms_Name microstep = "step-" +:+ fmtD stepIdx)
  ∧ ∀ microstep,
      pl_Microsteps pipeline !! Z.to_nat stepIdx = Some microstep →
      microstepAt pipeline (isDynamicOf pipeline) stepIdx state strategy
      = Some microstep.
Proof.
  intros Hidx. unfold microstepAt, isDynamicOf. split.
  - intros -> Hpos. cbn [length Nat.eqb andb].
    apply Z.ltb_lt in Hpos. rewrite Hpos. eexists. split; reflexivity.
  - intros microstep Hat.
    destruct (pl_Microsteps pipeline) as [|m l]; [done|]. done.
Qed.

(** C1.  On the pipeline of the Tower of Hanoi example (one explicit
    microstep, [total_steps: 31]) the first step commits and the second
    iteration reads [pipeline.Microsteps[1]]: the run panics, no
    microstep [step-1] is synthesized. *)
Theorem explicit_microsteps_indexed_past_their_end :
  length (pl_Microsteps ex_hanoi) = 1%nat
  ∧ totalStepsOf ex_hanoi = 31
  ∧ isDynamicOf ex_hanoi = false
  ∧ microstepAt ex_hanoi (isDynamicOf ex_hanoi) 1 AEmptyMap "" = None
  ∧ executeMDAPPipeline ex_hanoiRuntime ex_emptyContext
      (IsMDAPPipeline ex_hanoi)
    = ([EmitProgress (startEvent ex_hanoi);
        EmitProgress
          (mkEvent ProgressTypeStep "Step 1/31: move" "move" 0 ∅);
        SetStepOutput "move"
          (AString ("move = disk 1 from A to C" +:+ nl
                    +:+ "next_state = A=[2,3,4,5], B=[], C=[1]"))],
       Panicked "index out of range [1] with length 1").
Proof. vm_compute. repeat split. Qed.

(** ** Examples for the theorems above *)

(** Example: a majority step draws three samples, all accepted, and
    commits; the [Complete] event of the run reports none. *)
Lemma completion_event_reports_no_samples_witness :
  (∃ st winnerSample,
     votingLoop ex_unanimousRuntime (loadMDAPConfig ex_majorityPipeline)
       (ex_sampler ex_unanimousRuntime (λ _ _ _ _, ex_reply "A" "sA")
          (loadMDAPConfig ex_majorityPipeline))
     = Returned (Decided st "A" winnerSample)
     ∧ totalSamples st = 3 ∧ rejectedSamples st = 0)
  ∧ ∃ ev,
      last (fst (runMDAPPipeline ex_unanimousRuntime ex_emptyContext
                   ex_majorityPipeline))
      = Some (EmitProgress ev)
      ∧ ev_Type ev = ProgressTypeComplete
      ∧ ev_Metadata ev !! "total_samples" = Some "0"
      ∧ ev_Metadata ev !! "rejected_samples" = Some "0".
Proof.
  split.
  - vm_compute. eexists _, _. repeat split.
  - destruct (completion_event_reports_no_samples ex_unanimousRuntime
                ex_emptyContext ex_majorityPipeline
                (fst (runMDAPPipeline ex_unanimousRuntime ex_emptyContext
                        ex_majorityPipeline))
                (ex_completed (runMDAPPipeline ex_unanimousRuntime
                                 ex_emptyContext ex_majorityPipeline)))
      as (ev & Hlast & Htype & Htotal & Hrejected & _).
    + vm_compute. reflexivity.
    + exists ev. repeat split; assumption.
Defined.



(** Example: with [k = 2^62] the threshold [config.K*3] of the majority
    strategy wraps around to [-2^62], and three samples commit the
    step. *)
Example majority_threshold_wraps_at_huge_k :
  K (loadMDAPConfig ex_wrapMajorityPipeline) = 2 ^ 62
  ∧ wrap (K (loadMDAPConfig ex_wrapMajorityPipeline) * 3) = - 2 ^ 62
  ∧ snd (executeMicrostepWithVoting ex_unanimousRuntime (ex_step "move")
           (loadMDAPConfig ex_wrapMajorityPipeline) AEmptyMap "" "" 0 1)
    = Returned
        (mkStepResult "move" true
           (AString ("move = A" +:+ nl +:+ "next_state = sA")) None,
         "A", AString "sA", None).
Proof. repeat split; vm_compute; reflexivity. Qed.



(** C5 as stated fails: with [k = 1] and three samples per round of
    which one passes the filter, the winner is declared at the end of
    round 0 although one non-rejected sample is fewer than [3k = 3]. *)
Lemma majority_commits_below_3k_accepted_samples :
  ∃ st winnerSample,
    votingLoop ex_oneGoodRuntime ex_oneGoodConfig
      (ex_sampler ex_oneGoodRuntime (ex_script [ex_reply "A" "sA"])
         ex_oneGoodConfig)
    = Returned (Decided st "A" winnerSample)
    ∧ totalSamples st = 3
    ∧ rejectedSamples st = 2
    ∧ votes st !! "A" = Some 1
    ∧ totalSamples st - rejectedSamples st < 3 * K ex_oneGoodConfig.
Proof. vm_compute. eexists _, _. repeat split. Qed.

(** Example: on the run above the closed form gives round [0]. *)
Lemma majority_threshold_counts_every_sample_witness :
  votingLoop ex_oneGoodRuntime ex_oneGoodConfig
    (ex_sampler ex_oneGoodRuntime (ex_script [ex_reply "A" "sA"])
       ex_oneGoodConfig)
  = match
      majorityCommitRound ex_oneGoodConfig
        (ex_rounds ex_oneGoodRuntime (ex_script [ex_reply "A" "sA"])
           ex_oneGoodConfig)
        (Z.to_nat (MaxRetries ex_oneGoodConfig))
    with
    | Some j =>
        declareWinner ex_oneGoodRuntime
          (tallyAfter ex_oneGoodConfig
             (ex_rounds ex_oneGoodRuntime (ex_script [ex_reply "A" "sA"])
                ex_oneGoodConfig) (S j))
    | None =>
        Returned
          (Next
             (tallyAfter ex_oneGoodConfig
                (ex_rounds ex_oneGoodRuntime (ex_script [ex_reply "A" "sA"])
                   ex_oneGoodConfig)
                (Z.to_nat (MaxRetries ex_oneGoodConfig))))
    end
  ∧ majorityCommitRound ex_oneGoodConfig
      (ex_rounds ex_oneGoodRuntime (ex_script [ex_reply "A" "sA"])
         ex_oneGoodConfig)
      (Z.to_nat (MaxRetries ex_oneGoodConfig))
    = Some 0%nat.
Proof.
  split; [|vm_compute; reflexivity].
  apply (majority_threshold_counts_every_sample ex_oneGoodRuntime
           ex_oneGoodConfig).
  - reflexivity.
  - intros i. reflexivity.
  - vm_compute. discriminate.
Defined.



(** C3 as stated fails: the first step commits the state [X], a
    checkpoint records it before the second step, the second step
    fails.  The result handed to the caller has no output, and it is the
    same result as in the run without checkpoints: the state, the
    checkpoint and the counter stay in the local [result]. *)
Lemma failed_run_drops_state_checkpoints_counters :
  ∃ result result0 e err,
    snd (runMDAPPipeline ex_failingRuntime ex_emptyContext (ex_twoSteps 1))
    = Returned (Aborted result)
    ∧ Checkpoints result = [mkCheckpoint 1 (AString "X")]
    ∧ TotalMicrosteps result = 2
    ∧ snd (executeMDAPPipeline ex_failingRuntime ex_emptyContext
             (IsMDAPPipeline (ex_twoSteps 1)))
      = Returned (Some e, Some err)
    ∧ er_Output e = ANil
    ∧ snd (runMDAPPipeline ex_failingRuntime ex_emptyContext (ex_twoSteps 0))
      = Returned (Aborted result0)
    ∧ Checkpoints result0 = []
    ∧ snd (executeMDAPPipeline ex_failingRuntime ex_emptyContext
             (IsMDAPPipeline (ex_twoSteps 0)))
      = Returned (Some e, Some err).
Proof. vm_compute. eexists _, _, _, _. repeat split. Qed.

(** Example: the result returned by the failing run above holds the
    success of the first microstep, with its output, and the failure of
    the second. *)
Lemma failed_run_returns_step_results_witness :
  ∃ e,
    snd (executeMDAPPipeline ex_failingRuntime ex_emptyContext
           (IsMDAPPipeline (ex_twoSteps 1)))
    = Returned
        (Some e,
         Some (ErrMicrostepFailed "second" (ErrNoConsensus 300 300)))
    ∧ er_Success e = false
    ∧ er_StepResults e
      = <["second" :=
            mkStepResult "second" false ANil (Some (ErrNoConsensus 300 300))]>
          (<["first" :=
               mkStepResult "first" true
                 (AString ("move = A" +:+ nl +:+ "next_state = X")) None]> ∅).
Proof.
  destruct (failed_run_returns_step_results ex_failingRuntime ex_emptyContext
              (ex_twoSteps 1)
              (fst (executeMDAPPipeline ex_failingRuntime ex_emptyContext
                      (IsMDAPPipeline (ex_twoSteps 1))))
              (Some (Embedded
                       (exitResult
                          (match snd (runMDAPPipeline ex_failingRuntime
                                        ex_emptyContext (ex_twoSteps 1)) with
                           | Returned exit => exit
                           | Panicked _ => Aborted initialResult
                           end))))
              (ErrMicrostepFailed "second" (ErrNoConsensus 300 300)))
    as (result & name & cause & Hrun & Hres & Hsuccess & Herr & Hname & Hsr
        & Hcontents & Hout & Hcount & Hall).
  - vm_compute. reflexivity.
  - injection Hname as <- <-.
    exists (Embedded result).
    split.
    { rewrite <- Hres. vm_compute. reflexivity. }
    split; [assumption|].
    rewrite Hsr. vm_compute. reflexivity.
Defined.

(** ** The model on the scenarios of the specification *)

(** A response in the required format. *)
Example parseHanoiResponse_two_lines :
  parseHanoiResponse
    ("move = disk 1 from A to C" +:+ nl +:+ "next_state = A=[2,3], B=[], C=[1]")
  = ("disk 1 from A to C", AString "A=[2,3], B=[], C=[1]").
Proof. reflexivity. Qed.

(** A response without the two lines: no action, no next state. *)
Example parseHanoiResponse_prose :
  parseHanoiResponse "I think the best move is disk 1." = ("", ANil).
Proof. reflexivity. Qed.

(** Red-flag on length: 150 tokens against [max_output_tokens = 100]. *)
Example isRedFlagged_too_long :
  isRedFlagged (mkSample "move = A" "A" ANil 150 false "")
    (set_MaxOutputTokens DefaultMDAPConfig 100)
  = (true,
     mkSample "move = A" "A" ANil 150 true
       "response too long: 150 tokens > 100").
Proof. reflexivity. Qed.

(** Tie and proceed: [k = 3], two samples per round, [A] and [B] in every
    round; after [MaxRetries = 100] rounds the step fails with the
    counts of the loop. *)
Example tie_never_reaches_margin :
  snd (executeMicrostepWithVoting (ex_tieRuntime canonicalOrder)
         (ex_step "move") (ex_config "first-to-ahead-by-k" 3 2) AEmptyMap
         "" "" 0 1)
  = Returned (failedStep (ex_step "move") (ErrNoConsensus 200 0)).
Proof. vm_compute. reflexivity. Qed.

(** Dynamic microsteps: an empty list with [total_steps: 5] synthesizes
    [step-0], which has no [use] property; the run fails in its first
    step. *)
Example dynamic_microstep_has_no_agent :
  snd (executeMDAPPipeline ex_hanoiRuntime ex_emptyContext
         (IsMDAPPipeline
            (mkPipeline "dyn" (<["total_steps" := ex_number 5]> ∅) [] None)))
  = Returned
      (Some
         (mkExecutionResult false ANil
            (Some (ErrMicrostepFailed "step-0" (ErrNoUse "step-0"))) ∅
            (<["step-0" := mkStepResult "step-0" false ANil
                              (Some (ErrNoUse "step-0"))]> ∅)),
       Some (ErrMicrostepFailed "step-0" (ErrNoUse "step-0"))).
Proof. vm_compute. reflexivity. Qed.

(** * Further properties *)

(** ** The response parser *)

Lemma append_cons (c : ascii) (r s : string) :
  String c r +:+ s = String c (r +:+ s).
Proof. reflexivity. Qed.

Lemma SplitLines_nonempty (s : string) : SplitLines s ≠ [].
Proof.
  destruct s as [|c r]; cbn; [done|].
  destruct (Ascii.eqb c "010"%char); [done|].
  by destruct (SplitLines r).
Qed.

Lemma SplitLines_app_nl (a b : string) :
  SplitLines (a +:+ nl +:+ b) = SplitLines a ++ SplitLines b.
Proof.
  induction a as [|c r IH]; [done|].
  rewrite append_cons. cbn [SplitLines].
  destruct (Ascii.eqb c "010"%char).
  - by rewrite IH.
  - rewrite IH.
    pose proof (SplitLines_nonempty r).
    by destruct (SplitLines r).
Qed.

Lemma SplitLines_oneLine (s : string) : oneLine s = true → SplitLines s = [s].
Proof.
  induction s as [|c r IH]; [done|].
  cbn. destruct (Ascii.eqb c "010"%char); [done|].
  cbn. intros Hr. by rewrite (IH Hr).
Qed.

(** *** White space *)

Lemma append_assoc (a b c : string) : (a +:+ b) +:+ c = a +:+ b +:+ c.
Proof.
  induction a as [|x a IH]; [done|].
  by rewrite !append_cons, IH.
Qed.

Lemma append_nil_r (a : string) : a +:+ EmptyString = a.
Proof. induction a as [|x a IH]; [done|]. by rewrite append_cons, IH. Qed.

Lemma length_append (a b : string) :
  String.length (a +:+ b) = (String.length a + String.length b)%nat.
Proof.
  induction a as [|x a IH]; [done|]. rewrite append_cons. cbn. by rewrite IH.
Qed.

(** A property of the encodings of the white space runes holds of every
    string that [isSpaceRune] accepts. *)
Lemma isSpaceRune_elim (P : string → Prop) :
  List.Forall P (map EncodeRune spaceRunes) →
  ∀ u, isSpaceRune u = true → P u.
Proof.
  intros HP u Hu. apply existsb_exists in Hu as (enc & Hin & Heq).
  apply String.eqb_eq in Heq. subst u.
  exact (proj1 (List.Forall_forall _ _) HP enc Hin).
Qed.

Ltac each_space_rune :=
  unfold spaceRunes; cbn [map];
  repeat (apply List.Forall_cons; [intros; try reflexivity|]);
  try apply List.Forall_nil.

(** An encoding starts with a byte that is no continuation byte and goes
    on with continuation bytes. *)
Lemma isSpaceRune_shape (u : string) :
  isSpaceRune u = true →
  ∃ a t, u = String a t ∧ isCont a = false ∧ allCont t = true.
Proof.
  apply (isSpaceRune_elim
           (λ u, ∃ a t, u = String a t ∧ isCont a = false
                        ∧ allCont t = true)).
  each_space_rune; by eexists _, _.
Qed.

Lemma TrimLeft_unit (u y : string) :
  isSpaceRune u = true → TrimLeft (u +:+ y) = TrimLeft y.
Proof.
  intros Hu. revert y.
  apply (isSpaceRune_elim (λ u, ∀ y, TrimLeft (u +:+ y) = TrimLeft y));
    [|done].
  each_space_rune.
Qed.

Lemma TrimRight_unit (u : string) :
  isSpaceRune u = true → TrimRight u = EmptyString.
Proof.
  apply (isSpaceRune_elim (λ u, TrimRight u = EmptyString)).
  each_space_rune.
Qed.

Lemma TrimLeft_cases (s : string) :
  TrimLeft s = s
  ∨ ∃ u y, isSpaceRune u = true ∧ s = u +:+ y ∧ TrimLeft s = TrimLeft y.
Proof.
  destruct s as [|c r]; [by left|]. cbn [TrimLeft].
  destruct (isSpaceRune (String c EmptyString)) eqn:H1.
  { right. by exists (String c EmptyString), r. }
  destruct r as [|d r2]; [by left|].
  destruct (isSpaceRune (String c (String d EmptyString))) eqn:H2.
  { right. by exists (String c (String d EmptyString)), r2. }
  destruct r2 as [|e r3]; [by left|].
  destruct (isSpaceRune (String c (String d (String e EmptyString)))) eqn:H3.
  { right. by exists (String c (String d (String e EmptyString))), r3. }
  by left.
Qed.

Lemma isSpaceRune_nonempty (u : string) :
  isSpaceRune u = true → (0 < String.length u)%nat.
Proof.
  intros Hu. apply isSpaceRune_shape in Hu as (a & t & -> & _). cbn. lia.
Qed.

Lemma length_TrimLeft (s : string) :
  (String.length (TrimLeft s) <= String.length s)%nat.
Proof.
  remember (String.length s) as n eqn:Hn.
  revert s Hn. induction n as [n IH] using lt_wf_ind. intros s ->.
  destruct (TrimLeft_cases s) as [->|(u & y & Hu & -> & ->)]; [done|].
  pose proof (isSpaceRune_nonempty u Hu).
  rewrite length_append.
  specialize (IH (String.length y)
                ltac:(rewrite length_append; lia) y eq_refl).
  lia.
Qed.

Lemma TrimLeft_fixed (s u y : string) :
  TrimLeft s = s → isSpaceRune u = true → s ≠ u +:+ y.
Proof.
  intros Hfix Hu ->. rewrite TrimLeft_unit in Hfix by done.
  pose proof (length_TrimLeft y) as Hlen. rewrite Hfix in Hlen.
  pose proof (isSpaceRune_nonempty u Hu).
  rewrite length_append in Hlen. lia.
Qed.

Lemma TrimLeft_split (s : string) : ∃ b, blank b ∧ s = b +:+ TrimLeft s.
Proof.
  remember (String.length s) as n eqn:Hn.
  revert s Hn. induction n as [n IH] using lt_wf_ind. intros s ->.
  destruct (TrimLeft_cases s) as [->|(u & y & Hu & -> & ->)].
  { exists EmptyString. split; [constructor|done]. }
  pose proof (isSpaceRune_nonempty u Hu).
  destruct (IH (String.length y)
              ltac:(rewrite length_append; lia) y eq_refl)
    as (b & Hb & Hy).
  exists (u +:+ b). split; [by constructor|].
  by rewrite append_assoc, <- Hy.
Qed.

Lemma TrimLeft_blank (b y : string) :
  blank b → TrimLeft (b +:+ y) = TrimLeft y.
Proof.
  induction 1 as [|u w Hu _ IH]; [done|].
  by rewrite append_assoc, TrimLeft_unit.
Qed.

Lemma TrimLeft_idemp (s : string) : TrimLeft (TrimLeft s) = TrimLeft s.
Proof.
  destruct (TrimLeft_split s) as (b & Hb & Hs).
  rewrite Hs at 2. by rewrite TrimLeft_blank.
Qed.

Lemma TrimRight_app_unit (y u : string) :
  isSpaceRune u = true → TrimRight (y +:+ u) = TrimRight y.
Proof.
  intros Hu. induction y as [|c y IH].
  - by apply TrimRight_unit.
  - rewrite append_cons. cbn [TrimRight]. by rewrite IH.
Qed.

Lemma TrimRight_app_blank (w : string) :
  blank w → ∀ y, TrimRight (y +:+ w) = TrimRight y.
Proof.
  induction 1 as [|u w Hu _ IH]; intros y.
  - by rewrite append_nil_r.
  - by rewrite <- append_assoc, IH, TrimRight_app_unit.
Qed.

Lemma TrimRight_split (s : string) : ∃ w, blank w ∧ s = TrimRight s +:+ w.
Proof.
  induction s as [|c r (w & Hw & Hr)].
  - exists EmptyString. split; [constructor|done].
  - cbn [TrimRight]. cbv zeta.
    destruct (isSpaceRune (String c (TrimRight r))) eqn:Hu.
    + exists (String c (TrimRight r) +:+ w). split; [by constructor|].
      by rewrite append_cons, <- Hr.
    + exists w. split; [done|]. by rewrite append_cons, <- Hr.
Qed.

Lemma blank_head (w : string) :
  blank w → ∀ c w', w = String c w' → isCont c = false.
Proof.
  induction 1 as [|u w Hu Hw IH]; intros c w' Heq; [done|].
  apply isSpaceRune_shape in Hu as (a & t & -> & Ha & _).
  rewrite append_cons in Heq. by injection Heq as <- _.
Qed.

Lemma allCont_app (a b : string) :
  allCont (a +:+ b) = allCont a && allCont b.
Proof.
  induction a as [|x a IH]; [done|].
  rewrite append_cons. cbn [allCont]. by rewrite IH, andb_assoc.
Qed.

(** Two ways of cutting the same string. *)
Lemma append_eq_split (a b c d : string) :
  a +:+ b = c +:+ d →
  (∃ z, a = c +:+ z ∧ d = z +:+ b)
  ∨ (∃ x z, c = a +:+ String x z ∧ b = String x z +:+ d).
Proof.
  revert c. induction a as [|x a IH]; intros c Heq.
  - destruct c as [|y c].
    + left. by exists EmptyString.
    + right. by exists y, c.
  - destruct c as [|y c].
    + left. by exists (String x a).
    + rewrite !append_cons in Heq. injection Heq as -> Heq.
      destruct (IH c Heq) as [(z & -> & ->)|(x' & z & -> & ->)].
      * left. by exists z.
      * right. by exists x', z.
Qed.

Lemma TrimLeft_app_blank (x w : string) :
  TrimLeft x = x → x ≠ EmptyString → blank w →
  TrimLeft (x +:+ w) = x +:+ w.
Proof.
  intros Hfix Hne Hw.
  destruct (TrimLeft_cases (x +:+ w)) as [|(u & y & Hu & Heq & _)]; [done|].
  exfalso.
  apply append_eq_split in Heq as [(z & -> & _)|(c & z & -> & ->)].
  - by eapply TrimLeft_fixed.
  - apply isSpaceRune_shape in Hu as (a & t & Heq & _ & Ht).
    destruct x as [|a' x]; [done|].
    rewrite append_cons in Heq. injection Heq as _ <-.
    rewrite allCont_app in Ht. apply andb_true_iff in Ht as [_ Ht].
    cbn [allCont] in Ht. apply andb_true_iff in Ht as [Hc _].
    rewrite append_cons in Hw.
    by rewrite (blank_head _ Hw c _ eq_refl) in Hc.
Qed.

(** What is trimmed off the right end plays no part in [TrimSpace]. *)
Lemma TrimSpace_TrimRight (s : string) :
  TrimSpace (TrimRight s) = TrimSpace s.
Proof.
  unfold TrimSpace.
  destruct (TrimRight_split s) as (w & Hw & Hs).
  destruct (TrimLeft_split (TrimRight s)) as (b & Hb & Hx).
  rewrite Hs at 2. rewrite Hx at 2.
  rewrite append_assoc, TrimLeft_blank by done.
  destruct (TrimLeft (TrimRight s)) as [|c x'] eqn:Hx'.
  - replace (EmptyString +:+ w) with (w +:+ EmptyString)
      by (by rewrite append_nil_r).
    by rewrite TrimLeft_blank.
  - rewrite TrimLeft_app_blank; [|by rewrite <- Hx', TrimLeft_idemp|done|done].
    by rewrite TrimRight_app_blank.
Qed.

Lemma TrimSpace_TrimRight_space (s : string) :
  TrimSpace (TrimRight (String " "%char s)) = TrimSpace s.
Proof. by rewrite TrimSpace_TrimRight. Qed.

(** A byte that starts no encoding of a white space rune stays. *)
Lemma TrimRight_cons_plain (c : ascii) (r : string) :
  (∀ t, isSpaceRune (String c t) = false) →
  TrimRight (String c r) = String c (TrimRight r).
Proof. intros Hc. cbn [TrimRight]. cbv zeta. by rewrite Hc. Qed.

Lemma TrimRight_space_before (c : ascii) (r : string) :
  (∀ t, isSpaceRune (String " "%char (String c t)) = false) →
  (∀ t, isSpaceRune (String c t) = false) →
  TrimRight (String " "%char (String c r))
  = String " "%char (String c (TrimRight r)).
Proof.
  intros Hsc Hc. cbn [TrimRight]. cbv zeta. by rewrite (Hc _), (Hsc _).
Qed.

Ltac plain_byte := intros; vm_compute; reflexivity.

Lemma TrimSpace_move_line (text : string) :
  TrimSpace ("move = " +:+ text)
  = String "m" (String "o" (String "v" (String "e" (String " " (String "="
      (TrimRight (String " "%char text))))))).
Proof.
  change ("move = " +:+ text) with (String "m" (String "o" (String "v"
    (String "e" (String " " (String "=" (String " " text))))))).
  unfold TrimSpace.
  change (TrimLeft (String "m" (String "o" (String "v" ?r))))
    with (String "m" (String "o" (String "v" r))).
  do 4 (rewrite TrimRight_cons_plain by plain_byte).
  by rewrite TrimRight_space_before by plain_byte.
Qed.

Lemma TrimSpace_next_state_line (text : string) :
  TrimSpace ("next_state = " +:+ text)
  = String "n" (String "e" (String "x" (String "t" (String "_" (String "s"
      (String "t" (String "a" (String "t" (String "e" (String " " (String "="
      (TrimRight (String " "%char text))))))))))))).
Proof.
  change ("next_state = " +:+ text) with (String "n" (String "e" (String "x"
    (String "t" (String "_" (String "s" (String "t" (String "a" (String "t"
    (String "e" (String " " (String "=" (String " " text))))))))))))).
  unfold TrimSpace.
  change (TrimLeft (String "n" (String "e" (String "x" ?r))))
    with (String "n" (String "e" (String "x" r))).
  do 10 (rewrite TrimRight_cons_plain by plain_byte).
  by rewrite TrimRight_space_before by plain_byte.
Qed.

Lemma parseHanoiLine_move (acc : string * Any) (text : string) :
  parseHanoiLine acc ("move = " +:+ text) = (TrimSpace text, snd acc).
Proof.
  unfold parseHanoiLine. rewrite TrimSpace_move_line.
  cbn -[TrimSpace TrimRight].
  by rewrite TrimSpace_TrimRight_space.
Qed.

Lemma parseHanoiLine_next_state (acc : string * Any) (text : string) :
  parseHanoiLine acc ("next_state = " +:+ text)
  = (fst acc, AString (TrimSpace text)).
Proof.
  unfold parseHanoiLine. rewrite TrimSpace_next_state_line.
  cbn -[TrimSpace TrimRight].
  by rewrite TrimSpace_TrimRight_space.
Qed.

Lemma oneLine_app (a b : string) :
  oneLine (a +:+ b) = oneLine a && oneLine b.
Proof.
  induction a as [|c r IH]; [done|].
  rewrite append_cons. cbn [oneLine]. rewrite IH.
  by rewrite andb_assoc.
Qed.

Lemma parseHanoiResponse_app_nl (a b : string) :
  parseHanoiResponse (a +:+ nl +:+ b)
  = fold_left parseHanoiLine (SplitLines b) (parseHanoiResponse a).
Proof.
  unfold parseHanoiResponse.
  by rewrite SplitLines_app_nl, fold_left_app.
Qed.

Lemma SplitLines_formatted (move next : string) :
  oneLine move = true → oneLine next = true →
  SplitLines (formatted move next)
  = ["move = " +:+ move; "next_state = " +:+ next].
Proof.
  intros Hm Hn. unfold formatted.
  change ("move = " +:+ move +:+ nl +:+ "next_state = " +:+ next)
    with (("move = " +:+ move) +:+ nl +:+ ("next_state = " +:+ next)).
  rewrite SplitLines_app_nl.
  rewrite !SplitLines_oneLine; [done| |];
    by rewrite oneLine_app; cbn; rewrite ?Hm, ?Hn.
Qed.

(** X1.  Round trip of the response format: a response made of a line
    [move = m] and a line [next_state = s] ([m] and [s] without a line
    feed) is parsed into the action [m] and the next state [s], each
    trimmed of its surrounding white space, that of Unicode as
    [strings.TrimSpace] cuts it. *)
Theorem parseHanoiResponse_formatted (move next : string) :
  oneLine move = true →
  oneLine next = true →
  parseHanoiResponse (formatted move next)
  = (TrimSpace move, AString (TrimSpace next)).
Proof.
  intros Hm Hn. unfold parseHanoiResponse.
  rewrite SplitLines_formatted by done.
  cbn [fold_left].
  by rewrite parseHanoiLine_move, parseHanoiLine_next_state.
Qed.

Lemma parseHanoiResponse_formatted_witness :
  parseHanoiResponse (formatted "disk 1 from A to C " " [[3,2],[],[1]]")
  = ("disk 1 from A to C", AString "[[3,2],[],[1]]").
Proof.
  exact (parseHanoiResponse_formatted "disk 1 from A to C " " [[3,2],[],[1]]"
           eq_refl eq_refl).
Defined.

(** X2.  The parser keeps the last assignment of each key: whatever text
    precedes a well-formed pair of lines, the action and the next state
    are those of the pair, trimmed of the white space of Unicode. *)
Theorem parseHanoiResponse_last_lines_win (preamble move next : string) :
  oneLine move = true →
  oneLine next = true →
  parseHanoiResponse (preamble +:+ nl +:+ formatted move next)
  = (TrimSpace move, AString (TrimSpace next)).
Proof.
  intros Hm Hn.
  rewrite parseHanoiResponse_app_nl, SplitLines_formatted by done.
  cbn [fold_left].
  by rewrite parseHanoiLine_move, parseHanoiLine_next_state.
Qed.

Lemma parseHanoiResponse_last_lines_win_witness :
  parseHanoiResponse
    (formatted "disk 1 from A to B" "[[3,2],[1],[]]" +:+ nl
     +:+ formatted "disk 1 from A to C" "[[3,2],[],[1]]")
  = ("disk 1 from A to C", AString "[[3,2],[],[1]]").
Proof.
  exact (parseHanoiResponse_last_lines_win
           (formatted "disk 1 from A to B" "[[3,2],[1],[]]")
           "disk 1 from A to C" "[[3,2],[],[1]]" eq_refl eq_refl).
Defined.

(** ** Samples and the filter *)

Lemma parseHanoiLine_no_move (acc : string * Any) (line : string) :
  HasPrefix (TrimSpace line) "move" || HasPrefix (TrimSpace line) "Move"
  = false →
  fst (parseHanoiLine acc line) = fst acc.
Proof.
  intros Hno. unfold parseHanoiLine. rewrite Hno.
  destruct (HasPrefix (TrimSpace line) "next_state" || _); [|done].
  destruct (SplitAtEq _) as [[? ?]|]; reflexivity.
Qed.

Lemma parseHanoiLines_no_move (lines : list string) (acc : string * Any) :
  forallb
    (λ line,
       negb (HasPrefix (TrimSpace line) "move"
             || HasPrefix (TrimSpace line) "Move")) lines = true →
  fst (fold_left parseHanoiLine lines acc) = fst acc.
Proof.
  revert acc. induction lines as [|line lines IH]; intros acc Hall; [done|].
  cbn [forallb] in Hall. apply andb_true_iff in Hall as [Hline Hall].
  cbn [fold_left]. rewrite (IH _ Hall).
  apply parseHanoiLine_no_move. by apply negb_true_iff.
Qed.

Lemma parseHanoiResponse_no_move (content : string) :
  noLineWith "move" "Move" content = true →
  fst (parseHanoiResponse content) = "".
Proof. apply parseHanoiLines_no_move. Qed.

Lemma sampleOnce_parsed r provider model systemPrompt prompt config round idx :
  parseHanoiResponse
    (Content (sampleOnce r provider model systemPrompt prompt config round idx))
  = (Action (sampleOnce r provider model systemPrompt prompt config round idx),
     NextState
       (sampleOnce r provider model systemPrompt prompt config round idx)).
Proof.
  unfold sampleOnce.
  destruct (provider round idx _) as [resp|err]; [|reflexivity].
  by destruct (parseHanoiResponse (resp_Content resp)) eqn:Hparse.
Qed.

Lemma isRedFlagged_no_action (sample : MDAPSample) (config : MDAPConfig) :
  Action sample = "" → fst (isRedFlagged sample config) = true.
Proof.
  intros Hact. unfold isRedFlagged. rewrite Hact.
  destruct (RedFlagged sample); [done|].
  destruct (_ && _); [done|].
  by destruct (if RequireFormat config then _ else _).
Qed.

(** X3.  A sample whose content has no line that starts, once trimmed
    of the white space of Unicode as [strings.TrimSpace] cuts it, with
    [move] or [Move] is rejected by the filter under every
    configuration, also one that requires no format. *)
Theorem sample_without_move_line_is_rejected r provider model systemPrompt
    prompt config round idx (config' : MDAPConfig) :
  noLineWith "move" "Move"
    (Content (sampleOnce r provider model systemPrompt prompt config round idx))
  = true →
  fst (isRedFlagged
         (sampleOnce r provider model systemPrompt prompt config round idx)
         config')
  = true.
Proof.
  intros Hno. apply isRedFlagged_no_action.
  apply parseHanoiResponse_no_move in Hno.
  by rewrite sampleOnce_parsed in Hno.
Qed.

Lemma sample_without_move_line_is_rejected_witness :
  fst (isRedFlagged
         (sampleOnce ex_failingRuntime
            (λ _ _ _,
               Ok (mkResponse
                     ("The date helper is only used in tests." +:+ nl
                      +:+ "next_state = reviewed") 9))
            "model-1" ex_systemPrompt "p" DefaultMDAPConfig 0 0)
         (set_RequireFormat DefaultMDAPConfig false))
  = true.
Proof.
  apply (sample_without_move_line_is_rejected ex_failingRuntime
           (λ _ _ _,
              Ok (mkResponse
                    ("The date helper is only used in tests." +:+ nl
                     +:+ "next_state = reviewed") 9))).
  vm_compute. reflexivity.
Defined.

(** The white space of Unicode is trimmed as that of ASCII: a line that
    starts with a no-break space is a [move] line all the same, and the
    action is cut of the no-break space that follows it. *)
Example parseHanoiResponse_no_break_space :
  ex_nbsp = String "194" (String "160" EmptyString)
  ∧ TrimSpace (ex_nbsp +:+ "move = A" +:+ ex_enQuad +:+ " ") = "move = A"
  ∧ parseHanoiResponse (formatted ("A" +:+ ex_nbsp) "S") = ("A", AString "S")
  ∧ parseHanoiResponse (ex_nbsp +:+ "move = A") = ("A", ANil)
  ∧ noLineWith "move" "Move" (ex_nbsp +:+ "move = A") = false.
Proof. repeat split; vm_compute; reflexivity. Qed.

(** ** The voting loop *)

Lemma accepted_not_flagged (config : MDAPConfig) (sample : MDAPSample) :
  accepted config sample = true →
  RedFlagged sample = false ∧ Action sample ≠ "".
Proof.
  unfold accepted, isRedFlagged.
  destruct (RedFlagged sample); [done|].
  destruct (_ && _); [done|].
  destruct (if RequireFormat config then _ else _); [done|].
  destruct (String.eqb_spec (Action sample) ""); [done|]. done.
Qed.

Lemma elem_of_roundsTaken (rounds : nat → list MDAPSample) (round k : nat)
    (s : MDAPSample) :
  s ∈ roundsTaken rounds round k →
  ∃ i, (round <= i < round + k)%nat ∧ s ∈ rounds i.
Proof.
  revert round. induction k as [|k IH]; intros round Hin.
  - by apply elem_of_nil in Hin.
  - rewrite roundsTaken_S in Hin. apply elem_of_app in Hin as [Hin|Hin].
    + exists round. split; [lia|done].
    + destruct (IH _ Hin) as (i & Hi & His). exists i. split; [lia|done].
Qed.

Lemma lastAccepted_Some (config : MDAPConfig) (processed : list MDAPSample)
    (action : string) (s : MDAPSample) :
  lastAccepted config processed action = Some s →
  s ∈ processed ∧ accepted config s = true ∧ voteKey s = action.
Proof.
  unfold lastAccepted. intros Hlast.
  apply last_Some_elem_of, list_elem_of_In, filter_In in Hlast as [Hin Hs].
  apply andb_true_iff in Hs as [Hacc Hkey].
  apply String.eqb_eq in Hkey.
  split; [by apply list_elem_of_In|done].
Qed.

Lemma executeMicrostepWithVoting_commit_parsed r step config currentState
    lastAction strategy stepIdx totalSteps calls stepResult winner nextState :
  executeMicrostepWithVoting r step config currentState lastAction strategy
    stepIdx totalSteps
  = (calls, Returned (stepResult, winner, nextState, None)) →
  ∃ content,
    sr_Output stepResult = AString content
    ∧ parseHanoiResponse content = (winner, nextState)
    ∧ winner ≠ ""
    ∧ sr_Success stepResult = true
    ∧ sr_Error stepResult = None
    ∧ sr_Name stepResult = ms_Name step.
Proof.
  intros Hexec.
  apply executeMicrostepWithVoting_commit in Hexec
    as (agent & systemPrompt & provider & st & ws & _ & _ & _ & Hloop
        & -> & ->).
  apply votingLoop_step_Decided in Hloop
    as (j & pre & post & _ & _ & Hround & Hst & _ & Hws & _).
  rewrite Hst, samples_withTotal, samples_absorb in Hws.
  change (samples initialVoteState) with (∅ : gmap string MDAPSample) in Hws.
  destruct (lastAccepted _ _ _) as [s|] eqn:Hlast;
    [|by rewrite lookup_empty in Hws].
  injection Hws as ->.
  apply lastAccepted_Some in Hlast as (Hin & Hacc & Hkey).
  assert (Hsample : ∃ round idx,
             ws = sampleOnce r (provider (Z.to_nat stepIdx))
                    (getAgentModel r agent)
                    (systemPrompt +:+ criticalInstructions)
                    (buildMDAPPrompt r step currentState lastAction strategy)
                    config round idx).
  { assert (Hin' : ∃ i, ws ∈ stepRounds r provider (getAgentModel r agent)
                          (systemPrompt +:+ criticalInstructions)
                          (buildMDAPPrompt r step currentState lastAction
                             strategy) config stepIdx i).
    { apply elem_of_app in Hin as [Hin|Hin].
      - apply elem_of_roundsTaken in Hin as (i & _ & Hi). by exists i.
      - exists j. rewrite Hround. apply elem_of_app. by left. }
    destruct Hin' as (i & Hi). unfold stepRounds in Hi.
    apply list_elem_of_fmap in Hi as (idx & -> & _). by exists i, idx. }
  destruct Hsample as (round & idx & Hws).
  exists (Content ws). cbn [sr_Output sr_Success sr_Name sr_Error].
  rewrite (accepted_Action _ _ Hacc) in Hkey.
  destruct (accepted_not_flagged _ _ Hacc) as [_ Hne].
  split; [done|]. split; [|by rewrite <- Hkey].
  rewrite <- Hkey. rewrite Hws. apply sampleOnce_parsed.
Qed.

(** X4.  What a committed step hands on is read from one response: the
    output of the step is the content of a response that passed the
    filter, and the action and the next state are what the parser
    extracts from that content; the action is never empty. *)
Theorem committed_step_is_parsed_from_its_output r step config currentState
    lastAction strategy stepIdx totalSteps calls stepResult winner nextState :
  executeMicrostepWithVoting r step config currentState lastAction strategy
    stepIdx totalSteps
  = (calls, Returned (stepResult, winner, nextState, None)) →
  ∃ content,
    sr_Output stepResult = AString content
    ∧ parseHanoiResponse content = (winner, nextState)
    ∧ winner ≠ ""
    ∧ sr_Success stepResult = true.
Proof.
  intros Hexec.
  apply executeMicrostepWithVoting_commit_parsed in Hexec
    as (content & ? & ? & ? & ? & _).
  by exists content.
Qed.

Lemma committed_step_is_parsed_from_its_output_witness :
  ∃ content,
    sr_Output
      (mkStepResult "move" true
         (AString ("move = A" +:+ nl +:+ "next_state = Y")) None)
    = AString content
    ∧ parseHanoiResponse content = ("A", AString "Y")
    ∧ "A" ≠ ""
    ∧ sr_Success
        (mkStepResult "move" true
           (AString ("move = A" +:+ nl +:+ "next_state = Y")) None)
      = true.
Proof.
  apply (committed_step_is_parsed_from_its_output ex_twoStatesRuntime
           (ex_step "move") ex_twoStatesConfig AEmptyMap "" "" 0 1
           (fst (executeMicrostepWithVoting ex_twoStatesRuntime
                   (ex_step "move") ex_twoStatesConfig AEmptyMap "" "" 0 1))).
  vm_compute. reflexivity.
Defined.


(** ** Accounting of the samples of a step *)

Lemma voteSum_insert_fresh (m : gmap string Z) (a : string) (v : Z) :
  m !! a = None → voteSum (<[a := v]> m) = v + voteSum m.
Proof.
  intros Hfresh. unfold voteSum.
  rewrite map_fold_insert_L; [done| |done].
  intros. lia.
Qed.

Lemma voteSum_insert (m : gmap string Z) (a : string) (v : Z) :
  voteSum (<[a := v]> m) = v + voteSum m - default 0 (m !! a).
Proof.
  destruct (m !! a) as [u|] eqn:Hu; cbn [from_option id].
  - assert (Hm : voteSum m = u + voteSum (delete a m)).
    { rewrite <- (insert_delete_id m a u Hu) at 1.
      apply voteSum_insert_fresh, lookup_delete_eq. }
    rewrite <- (insert_delete_eq m a v).
    rewrite voteSum_insert_fresh by apply lookup_delete_eq.
    lia.
  - rewrite voteSum_insert_fresh by done. lia.
Qed.

Lemma voteSum_nonneg (m : gmap string Z) (b : Z) :
  votes_within b m → 0 ≤ voteSum m.
Proof.
  unfold voteSum, votes_within. revert m.
  apply (map_fold_weak_ind
           (λ (r : Z) (m : gmap string Z),
              (∀ a v, m !! a = Some v → 1 ≤ v ≤ b) → 0 ≤ r)).
  - intros _. lia.
  - intros i x m r Hfresh IH Hall.
    assert (1 ≤ x ≤ b) by (apply (Hall i); apply lookup_insert_eq).
    assert (0 ≤ r).
    { apply IH. intros a v Hav. apply (Hall a).
      rewrite lookup_insert_ne; [done|]. intros ->. congruence. }
    lia.
Qed.

Lemma voteStep_accounting (config : MDAPConfig) (st : VoteState)
    (sample : MDAPSample) (n : Z) :
  0 ≤ rejectedSamples st →
  votes_within n (votes st) →
  rejectedSamples st + voteSum (votes st) = n →
  n < int_max →
  0 ≤ rejectedSamples (voteStep config st sample)
  ∧ rejectedSamples (voteStep config st sample)
    + voteSum (votes (voteStep config st sample)) = n + 1.
Proof.
  intros Hrej Hwithin Hsum Hn.
  pose proof (voteSum_nonneg _ _ Hwithin) as Hnonneg.
  assert (Hmin : int_min ≤ 0) by (vm_compute; discriminate).
  destruct (accepted config sample) eqn:Hacc.
  - rewrite voteStep_accepted by done. cbn [tally votes rejectedSamples].
    rewrite voteSum_insert.
    assert (Hv : 0 ≤ default 0 (votes st !! voteKey sample) ≤ n).
    { destruct (votes st !! voteKey sample) as [v|] eqn:Hv; cbn [from_option id];
        [|lia].
      destruct (Hwithin _ _ Hv). lia. }
    rewrite wrap_small by lia. lia.
  - rewrite voteStep_rejected by done. cbn [reject votes rejectedSamples].
    rewrite wrap_small by lia. lia.
Qed.

Lemma absorb_accounting (config : MDAPConfig) (processed : list MDAPSample) :
  ∀ (st : VoteState) (n : Z),
    0 ≤ rejectedSamples st →
    votes_within n (votes st) →
    rejectedSamples st + voteSum (votes st) = n →
    n + Z.of_nat (length processed) ≤ int_max →
    0 ≤ rejectedSamples (absorb config st processed)
    ∧ rejectedSamples (absorb config st processed)
      + voteSum (votes (absorb config st processed))
      = n + Z.of_nat (length processed).
Proof.
  induction processed as [|s l IH]; intros st n Hrej Hwithin Hsum Hn.
  - cbn. split; [done|lia].
  - rewrite absorb_cons. cbn [length] in *.
    destruct (voteStep_accounting config st s n) as [Hrej' Hsum'];
      [done|done|done|lia|].
    assert (0 ≤ n).
    { pose proof (voteSum_nonneg _ _ Hwithin). lia. }
    destruct (IH (voteStep config st s) (n + 1)) as [Hrej'' Hsum''];
      [done| |done|lia|].
    { apply votes_within_voteStep; [done|lia]. }
    split; [done|lia].
Qed.

Lemma totalAfter_small (rounds : nat → list MDAPSample) (k : nat) :
  ∀ (round : nat) (total : Z),
    0 ≤ total →
    total + Z.of_nat (length (roundsTaken rounds round k)) ≤ int_max →
    totalAfter rounds round k total
    = total + Z.of_nat (length (roundsTaken rounds round k)).
Proof.
  assert (Hmin : int_min ≤ 0) by (vm_compute; discriminate).
  induction k as [|k IH]; intros round total Htotal Hbound.
  - cbn. lia.
  - rewrite totalAfter_S. rewrite roundsTaken_S, length_app in *.
    rewrite wrap_small by lia. rewrite IH by lia. lia.
Qed.

Lemma length_stepRounds_taken r provider model systemPrompt prompt config
    stepIdx (k : nat) :
  Z.of_nat
    (length
       (roundsTaken
          (stepRounds r provider model systemPrompt prompt config stepIdx)
          0 k))
  = Z.of_nat k * Z.max 0 (numSamples config).
Proof.
  rewrite (length_roundsTaken _ (Z.to_nat (numSamples config)))
    by (intros; apply length_stepRounds).
  lia.
Qed.

Lemma initial_accounting :
  0 ≤ rejectedSamples initialVoteState
  ∧ votes_within 0 (votes initialVoteState)
  ∧ rejectedSamples initialVoteState + voteSum (votes initialVoteState) = 0.
Proof. split; [done|]. split; [apply votes_within_empty|done]. Qed.

(** X5.  When a step ends without consensus, every round has been drawn
    and every sample examined: the number of samples it reports is
    [MaxRetries] times the batch size, and each of them was either
    rejected or counted as exactly one vote. *)
Theorem no_consensus_accounts_for_every_sample r provider model systemPrompt
    prompt config stepIdx (st : VoteState) :
  samplesBound config ≤ int_max →
  votingLoop r config
    (stepSampler r provider model systemPrompt prompt config stepIdx)
  = Returned (Next st) →
  totalSamples st = samplesBound config
  ∧ 0 ≤ rejectedSamples st
  ∧ rejectedSamples st + voteSum (votes st) = totalSamples st.
Proof.
  intros Hbound Hloop. unfold votingLoop in Hloop.
  destruct (Z.to_nat (MaxRetries config)) as [|n] eqn:Hretries.
  { cbn in Hloop. injection Hloop as <-.
    unfold samplesBound. rewrite Z.max_l by lia. done. }
  destruct (Z.ltb_spec (numSamples config) 0) as [Hneg|Hpos].
  { cbn [votingRounds] in Hloop.
    by rewrite stepSampler_Panicked in Hloop. }
  apply (votingRounds_spec r config _
           (stepRounds r provider model systemPrompt prompt config stepIdx))
    in Hloop; [|by apply stepSampler_Returned].
  rewrite <- Hretries in Hloop.
  pose proof (length_stepRounds_taken r provider model systemPrompt prompt
                config stepIdx (Z.to_nat (MaxRetries config))) as Hlen.
  assert (Hsb : Z.of_nat (Z.to_nat (MaxRetries config))
                * Z.max 0 (numSamples config) = samplesBound config).
  { unfold samplesBound. lia. }
  rewrite Hsb in Hlen.
  change (totalSamples initialVoteState) with 0 in Hloop.
  rewrite totalAfter_small in Hloop by lia.
  destruct initial_accounting as (Hrej & Hwithin & Hsum).
  destruct (absorb_accounting config
              (roundsTaken
                 (stepRounds r provider model systemPrompt prompt config
                    stepIdx) 0 (Z.to_nat (MaxRetries config)))
              initialVoteState 0 Hrej Hwithin Hsum) as [Hrej' Hsum']; [lia|].
  subst st. cbn [withTotal totalSamples rejectedSamples votes].
  split; [lia|]. split; [done|lia].
Qed.

Lemma no_consensus_accounts_for_every_sample_witness :
  ∃ st,
    votingLoop ex_failingRuntime (ex_config "majority" 3 2)
      (stepSampler ex_failingRuntime
         (λ _ _ _ _, Err (ExternalError "rate limited"))
         "model-1" ex_systemPrompt "p" (ex_config "majority" 3 2) 0)
    = Returned (Next st)
    ∧ totalSamples st = 200
    ∧ 0 ≤ rejectedSamples st
    ∧ rejectedSamples st + voteSum (votes st) = totalSamples st.
Proof.
  eexists. split; [vm_compute; reflexivity|].
  apply (no_consensus_accounts_for_every_sample ex_failingRuntime
           (λ _ _ _ _, Err (ExternalError "rate limited"))
           "model-1" ex_systemPrompt "p" (ex_config "majority" 3 2) 0).
  - vm_compute. discriminate.
  - vm_compute. reflexivity.
Defined.

(** X6.  When a step commits, the samples it reports are whole rounds:
    the count is a positive multiple of the batch size, also when the
    first-to-ahead-by-k rule stops in the middle of a round, so that the
    rejected samples and the votes together may fall short of it; under
    the majority rule they add up to it. *)
Theorem commit_counts_whole_rounds r provider model systemPrompt prompt config
    stepIdx (st : VoteState) (winner : string) (winnerSample : MDAPSample) :
  samplesBound config ≤ int_max →
  votingLoop r config
    (stepSampler r provider model systemPrompt prompt config stepIdx)
  = Returned (Decided st winner winnerSample) →
  ∃ round : Z,
    0 ≤ round < MaxRetries config
    ∧ totalSamples st = (round + 1) * numSamples config
    ∧ 0 ≤ rejectedSamples st
    ∧ rejectedSamples st + voteSum (votes st) ≤ totalSamples st
    ∧ (VotingStrategy config = "majority" →
       rejectedSamples st + voteSum (votes st) = totalSamples st).
Proof.
  intros Hbound Hloop.
  apply votingLoop_step_Decided in Hloop
    as (j & pre & post & Hn & Hj & Hround & Hst & _ & _ & Hwhy).
  set (rounds := stepRounds r provider model systemPrompt prompt config
                   stepIdx) in *.
  pose proof (length_stepRounds_taken r provider model systemPrompt prompt
                config stepIdx (S j)) as HlenS.
  pose proof (length_stepRounds_taken r provider model systemPrompt prompt
                config stepIdx j) as Hlenj.
  fold rounds in HlenS, Hlenj.
  assert (HSj : Z.of_nat (S j) * Z.max 0 (numSamples config)
                ≤ samplesBound config).
  { unfold samplesBound. apply Z.mul_le_mono_nonneg_r; lia. }
  rewrite totalAfter_small in Hst by lia.
  assert (Hpre : Z.of_nat (length (roundsTaken rounds 0 j ++ pre))
                 + Z.of_nat (length post)
                 = Z.of_nat (length (roundsTaken rounds 0 (S j)))).
  { rewrite roundsTaken_snoc. cbn [Nat.add]. rewrite Hround, !length_app.
    lia. }
  destruct initial_accounting as (Hrej & Hwithin & Hsum).
  destruct (absorb_accounting config (roundsTaken rounds 0 j ++ pre)
              initialVoteState 0 Hrej Hwithin Hsum) as [Hrej' Hsum']; [lia|].
  subst st. cbn [withTotal totalSamples rejectedSamples votes].
  exists (Z.of_nat j). split; [lia|]. split; [lia|]. split; [done|].
  split; [lia|].
  intros Hmaj. destruct Hwhy as [(Hf & _)|(_ & -> & _)].
  - rewrite Hmaj in Hf. discriminate.
  - cbn [length] in Hpre. lia.
Qed.

Lemma commit_counts_whole_rounds_witness :
  ∃ st winnerSample,
    votingLoop ex_raceRuntime ex_raceConfig
      (stepSampler ex_raceRuntime ex_raceProvider "model-1" ex_systemPrompt
         (buildMDAPPrompt ex_raceRuntime (ex_step "move") AEmptyMap "" "")
         ex_raceConfig 0)
    = Returned (Decided st "A" winnerSample)
    ∧ ∃ round : Z,
        0 ≤ round < MaxRetries ex_raceConfig
        ∧ totalSamples st = (round + 1) * numSamples ex_raceConfig
        ∧ 0 ≤ rejectedSamples st
        ∧ rejectedSamples st + voteSum (votes st) ≤ totalSamples st
        ∧ (VotingStrategy ex_raceConfig = "majority" →
           rejectedSamples st + voteSum (votes st) = totalSamples st).
Proof.
  eexists _, _. split; [vm_compute; reflexivity|].
  eapply (commit_counts_whole_rounds ex_raceRuntime ex_raceProvider "model-1"
           ex_systemPrompt
           (buildMDAPPrompt ex_raceRuntime (ex_step "move") AEmptyMap "" "")
           ex_raceConfig 0 _ "A").
  - vm_compute. discriminate.
  - vm_compute. reflexivity.
Defined.

(** ** How a step ends *)

(** A step whose agent, system prompt and provider are found ends as its
    voting loop does. *)
Lemma executeMicrostepWithVoting_resolved r step config currentState
    lastAction strategy stepIdx totalSteps agent systemPrompt provider :
  totalSteps ≠ 0 →
  resolveMicrostepAgent r step = Ok agent →
  getAgentSystemPrompt r agent = Ok systemPrompt →
  getProviderForModel r (getAgentModel r agent) = Ok provider →
  snd (executeMicrostepWithVoting r step config currentState lastAction
         strategy stepIdx totalSteps)
  = match votingLoop r config
            (stepSampler r provider (getAgentModel r agent)
               (systemPrompt +:+ criticalInstructions)
               (buildMDAPPrompt r step currentState lastAction strategy)
               config stepIdx) with
    | Panicked msg => Panicked msg
    | Returned (Decided st winner winnerSample) =>
        Returned
          (mkStepResult (ms_Name step) true (AString (Content winnerSample))
             None,
           winner, NextState winnerSample, None)
    | Returned (Next st) =>
        Returned
          (failedStep step
             (ErrNoConsensus (totalSamples st) (rejectedSamples st)))
    end.
Proof.
  intros Hsteps Hagent Hprompt Hprovider.
  unfold executeMicrostepWithVoting.
  apply Z.eqb_neq in Hsteps. rewrite Hsteps, Hagent, Hprompt, Hprovider.
  destruct (votingLoop _ _ _) as [[st|st winner winnerSample]|msg]; done.
Qed.

Lemma tallySamples_all_rejected r config (roundSamples : list MDAPSample) :
  Forall (λ s, accepted config s = false) roundSamples →
  ∀ st, tallySamples r config st roundSamples
        = Returned (Next (absorb config st roundSamples)).
Proof.
  induction 1 as [|s l Hs _ IH]; intros st; [done|].
  rewrite tallySamples_cons, absorb_cons. cbn zeta.
  rewrite Hs. cbn [andb]. apply IH.
Qed.

Lemma votes_absorb_all_rejected config (processed : list MDAPSample) :
  Forall (λ s, accepted config s = false) processed →
  ∀ st, votes (absorb config st processed) = votes st.
Proof.
  induction 1 as [|s l Hs _ IH]; intros st; [done|].
  rewrite absorb_cons, IH, voteStep_rejected by done. done.
Qed.

Lemma Forall_roundsTaken (P : MDAPSample → Prop)
    (rounds : nat → list MDAPSample) :
  (∀ i, Forall P (rounds i)) →
  ∀ k round, Forall P (roundsTaken rounds round k).
Proof.
  intros Hall. induction k as [|k IH]; intros round.
  - constructor.
  - rewrite roundsTaken_S. apply Forall_app. split; [apply Hall|apply IH].
Qed.

Lemma votingRounds_all_rejected r config sampler
    (rounds : nat → list MDAPSample) :
  (∀ i, sampler i = Returned (rounds i)) →
  (∀ i, Forall (λ s, accepted config s = false) (rounds i)) →
  ∀ n round st,
    votes st = ∅ →
    votingRounds r config sampler n round st
    = Returned
        (Next (withTotal (absorb config st (roundsTaken rounds round n))
                 (totalAfter rounds round n (totalSamples st)))).
Proof.
  intros Hsampler Hall n round st Hvotes.
  assert (Hnext : ∃ st', votingRounds r config sampler n round st
                         = Returned (Next st')).
  { revert round st Hvotes.
    induction n as [|n IH]; intros round st Hvotes; [by eexists|].
    cbn [votingRounds]. rewrite Hsampler.
    rewrite tallySamples_all_rejected by apply Hall.
    assert (Hvotes' : votes (absorb config (drawn st (rounds round))
                               (rounds round)) = ∅).
    { rewrite votes_absorb_all_rejected by apply Hall. done. }
    rewrite Hvotes', map_size_empty, andb_false_r.
    by apply IH. }
  destruct Hnext as [st' Hst'].
  pose proof (votingRounds_spec r config sampler rounds Hsampler n round st
                (Next st') Hst') as Hspec.
  cbn in Hspec. by rewrite Hst', Hspec.
Qed.

(** X7.  A step all of whose samples are rejected (the provider fails on
    every request, say) is not cut short: it draws every round and then
    fails with the no-consensus error, which reports [MaxRetries] times
    the batch size as the samples drawn and the same number as
    rejected. *)
Theorem all_samples_rejected_is_no_consensus r step config currentState
    lastAction strategy stepIdx totalSteps agent systemPrompt provider :
  totalSteps ≠ 0 →
  resolveMicrostepAgent r step = Ok agent →
  getAgentSystemPrompt r agent = Ok systemPrompt →
  getProviderForModel r (getAgentModel r agent) = Ok provider →
  0 ≤ numSamples config →
  samplesBound config ≤ int_max →
  (∀ round idx,
     accepted config
       (sampleOnce r (provider (Z.to_nat stepIdx)) (getAgentModel r agent)
          (systemPrompt +:+ criticalInstructions)
          (buildMDAPPrompt r step currentState lastAction strategy)
          config round idx) = false) →
  snd (executeMicrostepWithVoting r step config currentState lastAction
         strategy stepIdx totalSteps)
  = Returned
      (failedStep step
         (ErrNoConsensus (samplesBound config) (samplesBound config))).
Proof.
  intros Hsteps Hagent Hprompt Hprovider Hn Hbound Hrejected.
  rewrite (executeMicrostepWithVoting_resolved _ _ _ _ _ _ _ _ _ _ _
             Hsteps Hagent Hprompt Hprovider).
  set (rounds := stepRounds r provider (getAgentModel r agent)
                   (systemPrompt +:+ criticalInstructions)
                   (buildMDAPPrompt r step currentState lastAction strategy)
                   config stepIdx).
  assert (Hall : ∀ i, Forall (λ s, accepted config s = false) (rounds i)).
  { intros i. unfold rounds, stepRounds. apply Forall_forall.
    intros s Hs. apply list_elem_of_fmap in Hs as (idx & -> & _).
    apply Hrejected. }
  unfold votingLoop.
  rewrite (votingRounds_all_rejected r config _ rounds)
    by (done || by apply stepSampler_Returned).
  pose proof (length_stepRounds_taken r provider (getAgentModel r agent)
                (systemPrompt +:+ criticalInstructions)
                (buildMDAPPrompt r step currentState lastAction strategy)
                config stepIdx (Z.to_nat (MaxRetries config))) as Hlen.
  fold rounds in Hlen.
  assert (Hsb : Z.of_nat (Z.to_nat (MaxRetries config))
                * Z.max 0 (numSamples config) = samplesBound config).
  { unfold samplesBound. lia. }
  rewrite Hsb in Hlen.
  change (totalSamples initialVoteState) with 0.
  rewrite totalAfter_small by lia.
  destruct initial_accounting as (Hrej & Hwithin & Hsum).
  destruct (absorb_accounting config
              (roundsTaken rounds 0 (Z.to_nat (MaxRetries config)))
              initialVoteState 0 Hrej Hwithin Hsum) as [_ Hsum']; [lia|].
  rewrite votes_absorb_all_rejected in Hsum'
    by (by apply Forall_roundsTaken).
  change (voteSum (votes initialVoteState)) with 0 in Hsum'.
  cbn [withTotal totalSamples rejectedSamples].
  do 3 f_equal; lia.
Qed.

Lemma all_samples_rejected_is_no_consensus_witness :
  snd (executeMicrostepWithVoting
         (ex_runtime canonicalOrder
            (λ _ _ _ _, Err (ExternalError "rate limited")))
         (ex_step "move") (ex_config "first-to-ahead-by-k" 3 2) AEmptyMap
         "" "" 0 1)
  = Returned
      (failedStep (ex_step "move") (ErrNoConsensus 200 200)).
Proof.
  apply (all_samples_rejected_is_no_consensus
           (ex_runtime canonicalOrder
              (λ _ _ _ _, Err (ExternalError "rate limited")))
           (ex_step "move") (ex_config "first-to-ahead-by-k" 3 2) AEmptyMap
           "" "" 0 1
           (mkEntity "agent" "solver" ∅) "You are a careful solver."
           (λ _ _ _ _, Err (ExternalError "rate limited"))).
  - lia.
  - reflexivity.
  - reflexivity.
  - reflexivity.
  - vm_compute. discriminate.
  - vm_compute. discriminate.
  - intros round idx. reflexivity.
Defined.

Lemma votingRounds_unknown_strategy r config sampler :
  String.eqb (VotingStrategy config) "first-to-ahead-by-k" = false →
  String.eqb (VotingStrategy config) "majority" = false →
  ∀ n round st st' winner winnerSample,
    votingRounds r config sampler n round st
    ≠ Returned (Decided st' winner winnerSample).
Proof.
  intros Hfirst Hmajority.
  induction n as [|n IH]; intros round st st' winner winnerSample; [done|].
  cbn [votingRounds].
  destruct (sampler round) as [roundSamples|msg]; [|done].
  rewrite tallySamples_no_exit by done.
  rewrite Hmajority. cbn [andb]. apply IH.
Qed.

(** X8.  A voting strategy other than [first-to-ahead-by-k] and
    [majority] never declares a winner: with such a configuration no
    step commits, whatever the provider answers. *)
Theorem unknown_strategy_never_commits r step config currentState lastAction
    strategy stepIdx totalSteps :
  VotingStrategy config ≠ "first-to-ahead-by-k" →
  VotingStrategy config ≠ "majority" →
  committed
    (snd (executeMicrostepWithVoting r step config currentState lastAction
            strategy stepIdx totalSteps))
  = false.
Proof.
  intros Hfirst Hmajority.
  destruct (executeMicrostepWithVoting r step config currentState lastAction
              strategy stepIdx totalSteps)
    as [calls [[[[stepResult winner] nextState] [err|]]|msg]] eqn:Hexec;
    [done| |done].
  apply executeMicrostepWithVoting_commit in Hexec
    as (agent & systemPrompt & provider & st & ws & _ & _ & _ & Hloop & _).
  exfalso. revert Hloop. apply votingRounds_unknown_strategy;
    by apply String.eqb_neq.
Qed.

Lemma unknown_strategy_never_commits_witness :
  committed
    (snd (executeMicrostepWithVoting ex_hanoiRuntime (ex_step "move")
            (ex_config "unanimous" 3 3) AEmptyMap "" "" 0 1))
  = false.
Proof.
  apply (unknown_strategy_never_commits ex_hanoiRuntime (ex_step "move")
           (ex_config "unanimous" 3 3) AEmptyMap "" "" 0 1);
    vm_compute; discriminate.
Defined.

(** X9.  A negative batch size (a non-positive [ParallelSamples] with a
    negative [K]) makes the first round of a step panic in [make]. *)
Theorem negative_batch_size_panics r step config currentState lastAction
    strategy stepIdx totalSteps agent systemPrompt provider :
  totalSteps ≠ 0 →
  resolveMicrostepAgent r step = Ok agent →
  getAgentSystemPrompt r agent = Ok systemPrompt →
  getProviderForModel r (getAgentModel r agent) = Ok provider →
  numSamples config < 0 →
  0 < MaxRetries config →
  snd (executeMicrostepWithVoting r step config currentState lastAction
         strategy stepIdx totalSteps)
  = Panicked "makeslice: len out of range".
Proof.
  intros Hsteps Hagent Hprompt Hprovider Hn Hretries.
  rewrite (executeMicrostepWithVoting_resolved _ _ _ _ _ _ _ _ _ _ _
             Hsteps Hagent Hprompt Hprovider).
  unfold votingLoop.
  destruct (Z.to_nat (MaxRetries config)) as [|n] eqn:Hnat; [lia|].
  cbn [votingRounds]. by rewrite stepSampler_Panicked.
Qed.

Lemma negative_batch_size_panics_witness :
  snd (executeMicrostepWithVoting ex_hanoiRuntime (ex_step "move")
         (ex_config "majority" (-1) 0) AEmptyMap "" "" 0 1)
  = Panicked "makeslice: len out of range".
Proof.
  apply (negative_batch_size_panics ex_hanoiRuntime (ex_step "move")
           (ex_config "majority" (-1) 0) AEmptyMap "" "" 0 1
           (mkEntity "agent" "solver" ∅) "You are a careful solver."
           (λ _ _ _ _,
              ex_reply "disk 1 from A to C" "A=[2,3,4,5], B=[], C=[1]")).
  - lia.
  - reflexivity.
  - reflexivity.
  - reflexivity.
  - reflexivity.
  - reflexivity.
Defined.

(** ** The vote arbiter *)

Lemma range_singleton (ord : MapOrder) (a : string) (c : Z) :
  range ord {[a := c]} = [(a, c)].
Proof.
  apply Permutation_singleton_r.
  rewrite (range_perm ord). by rewrite map_to_list_singleton.
Qed.

Lemma hasWinner_singleton (ord : MapOrder) (a : string) (c k : Z) :
  1 ≤ c → hasWinner ord {[a := c]} k = (wrap k <=? c).
Proof.
  intros Hc. unfold hasWinner.
  rewrite map_size_singleton, range_singleton. cbn.
  destruct (Z.ltb_spec 0 c); [done|lia].
Qed.

Lemma getWinner_singleton (ord : MapOrder) (a : string) (c : Z) :
  1 ≤ c → getWinner ord {[a := c]} = a.
Proof.
  intros Hc. unfold getWinner. rewrite range_singleton. cbn.
  destruct (Z.ltb_spec 0 c); [done|lia].
Qed.

(** X10.  [getWinner] returns an action with the largest count, provided
    some count is positive; otherwise it returns the empty string. *)
Theorem getWinner_has_most_votes (ord : MapOrder) (m : gmap string Z) :
  (getWinner ord m = "" ∧ ∀ a v, m !! a = Some v → v ≤ 0)
  ∨ ∃ vw, m !! getWinner ord m = Some vw
          ∧ 0 < vw
          ∧ ∀ a v, m !! a = Some v → v ≤ vw.
Proof.
  unfold getWinner.
  destruct (fold_left getWinner_body (range ord m) (0, "")) as [mx w]
    eqn:Hfold.
  apply getWinner_scan in Hfold as (_ & Hall & [[-> ->]|[Hpos Hin]]);
    cbn [snd].
  - left. split; [done|]. intros a v Hav. apply (Hall a).
    by apply elem_of_range.
  - right. exists mx. split; [by apply elem_of_range in Hin|].
    split; [done|]. intros a v Hav. apply (Hall a). by apply elem_of_range.
Qed.

Lemma fold_hasWinner_body_below (l : list Z) (b : Z) :
  ∀ mx sec,
    Forall (λ v, v ≤ b) l → sec ≤ b → b < mx →
    ∃ sec', fold_left hasWinner_body l (mx, sec) = (mx, sec')
            ∧ sec ≤ sec' ≤ b.
Proof.
  induction l as [|v l IH]; intros mx sec Hall Hsec Hmx.
  - exists sec. split; [done|lia].
  - apply Forall_cons in Hall as [Hv Hall]. cbn [fold_left hasWinner_body].
    destruct (Z.ltb_spec mx v); [lia|].
    destruct (Z.ltb_spec sec v).
    + destruct (IH mx v Hall Hv Hmx) as (sec' & -> & ?).
      exists sec'. split; [done|lia].
    + destruct (IH mx sec Hall Hsec Hmx) as (sec' & -> & ?).
      exists sec'. split; [done|lia].
Qed.

(** X11.  For counts that are positive and at most [2^62] and a margin
    [k ≥ 1], [hasWinner] holds exactly when some action has at least [k]
    votes and leads every other action by at least [k]; the order in
    which the map is traversed plays no part. *)
Theorem hasWinner_iff_lead_of_k (ord : MapOrder) (m : gmap string Z)
    (k bound : Z) :
  votes_within bound m →
  bound ≤ 2 ^ 62 →
  1 ≤ k < 2 ^ 62 →
  hasWinner ord m k = true
  ↔ ∃ w vw, m !! w = Some vw
            ∧ k ≤ vw
            ∧ ∀ a v, a ≠ w → m !! a = Some v → v + k ≤ vw.
Proof.
  intros Hwithin Hbound Hk. split.
  - intros Hhas.
    destruct (hasWinner_margin ord ord m k bound Hhas Hwithin Hbound)
      as (vw & Hw & Hkvw & Hlead); [lia|].
    exists (getWinner ord m), vw. split; [done|]. split; [done|].
    intros a v Hne Hav. specialize (Hlead a v Hne Hav). lia.
  - intros (w & vw & Hw & Hkvw & Hlead). unfold hasWinner.
    destruct (Nat.eqb_spec (size m) 0) as [Hsize|_].
    { apply map_size_empty_iff in Hsize. subst m.
      by rewrite lookup_empty in Hw. }
    assert (Hperm : map snd (range ord m)
                    ≡ₚ vw :: map snd (map_to_list (delete w m))).
    { rewrite (range_perm ord m), <- (map_to_list_delete m w vw Hw). done. }
    rewrite (fold_hasWinner_body_perm _ _ Hperm).
    cbn [fold_left hasWinner_body].
    destruct (Z.ltb_spec 0 vw) as [_|?]; [|lia].
    destruct (fold_hasWinner_body_below
                (map snd (map_to_list (delete w m))) (vw - k) vw 0)
      as (sec' & -> & Hsec'); [|lia|lia|].
    { apply Forall_forall. intros v Hv.
      apply list_elem_of_fmap in Hv as ([a v'] & -> & Hin).
      apply elem_of_map_to_list, lookup_delete_Some in Hin as [Hne Hav].
      cbn [snd]. specialize (Hlead a v' (not_eq_sym Hne) Hav). lia. }
    destruct (Hwithin _ _ Hw) as [_ Hvw].
    assert (Hmax : 2 ^ 62 ≤ int_max) by (vm_compute; discriminate).
    assert (Hmin : int_min ≤ 0) by (vm_compute; discriminate).
    rewrite wrap_small by lia.
    apply Z.leb_le. lia.
Qed.

Lemma votes_within_check (bound : Z) (m : gmap string Z) :
  forallb (λ e, (1 <=? snd e) && (snd e <=? bound)) (map_to_list m) = true →
  votes_within bound m.
Proof.
  intros Hall a v Hav. apply elem_of_map_to_list in Hav.
  rewrite forallb_forall in Hall.
  apply list_elem_of_In, Hall in Hav. cbn [snd] in Hav. lia.
Qed.

Lemma hasWinner_iff_lead_of_k_witness :
  hasWinner reversedOrder (<["A" := 5]> (<["B" := 2]> {["C" := 1]})) 3 = true
  ↔ ∃ w vw, (<["A" := 5]> (<["B" := 2]> {["C" := 1]}) : gmap string Z) !! w
            = Some vw
            ∧ 3 ≤ vw
            ∧ ∀ a v, a ≠ w →
                (<["A" := 5]> (<["B" := 2]> {["C" := 1]}) : gmap string Z)
                !! a = Some v →
                v + 3 ≤ vw.
Proof.
  apply (hasWinner_iff_lead_of_k reversedOrder
           (<["A" := 5]> (<["B" := 2]> {["C" := 1]})) 3 5).
  - apply votes_within_check. vm_compute. reflexivity.
  - lia.
  - lia.
Defined.

(** ** Agreement without dissent *)

Lemma unanimousVotes_pos (a : string) (c : Z) :
  1 ≤ c → unanimousVotes a c = {[a := c]}.
Proof.
  intros Hc. unfold unanimousVotes. destruct (Z.eqb_spec c 0); [lia|done].
Qed.

Lemma acceptedCount_cons (config : MDAPConfig) (s : MDAPSample)
    (l : list MDAPSample) :
  acceptedCount config (s :: l)
  = (if accepted config s then 1 else 0) + acceptedCount config l.
Proof.
  unfold acceptedCount. cbn [List.filter].
  destruct (accepted config s); cbn [length]; lia.
Qed.

Lemma acceptedCount_nonneg (config : MDAPConfig) (l : list MDAPSample) :
  0 ≤ acceptedCount config l.
Proof. unfold acceptedCount. lia. Qed.

Lemma votes_voteStep_unanimous (config : MDAPConfig) (st : VoteState)
    (s : MDAPSample) (a : string) (c : Z) :
  votes st = unanimousVotes a c →
  0 ≤ c < int_max →
  (accepted config s = true → Action s = a) →
  votes (voteStep config st s)
  = unanimousVotes a (c + if accepted config s then 1 else 0).
Proof.
  intros Hvotes Hc Hact.
  assert (Hmin : int_min ≤ 0) by (vm_compute; discriminate).
  destruct (accepted config s) eqn:Hacc.
  - rewrite voteStep_accepted by done. cbn [tally votes].
    rewrite (accepted_Action _ _ Hacc), (Hact eq_refl), Hvotes.
    rewrite (unanimousVotes_pos a (c + 1)) by lia.
    unfold unanimousVotes. destruct (Z.eqb_spec c 0) as [->|Hne].
    + rewrite lookup_empty. cbn [from_option id].
      rewrite wrap_small by lia. apply insert_empty.
    + rewrite lookup_singleton_eq. cbn [from_option id].
      rewrite wrap_small by lia.
      rewrite <- !insert_empty. apply insert_insert_eq.
  - rewrite voteStep_rejected by done. cbn [reject votes].
    by rewrite Z.add_0_r.
Qed.

Lemma tallySamples_unanimous_below r config (a : string)
    (l : list MDAPSample) :
  1 ≤ K config ≤ int_max →
  ∀ st c,
    votes st = unanimousVotes a c →
    0 ≤ c →
    c + acceptedCount config l < K config →
    Forall (λ s, accepted config s = true → Action s = a) l →
    tallySamples r config st l = Returned (Next (absorb config st l))
    ∧ votes (absorb config st l)
      = unanimousVotes a (c + acceptedCount config l).
Proof.
  intros HK.
  assert (Hmin : int_min ≤ 0) by (vm_compute; discriminate).
  induction l as [|s l IH]; intros st c Hvotes Hc Hcount Hall.
  - split; [done|]. unfold acceptedCount. cbn. by rewrite Z.add_0_r.
  - apply Forall_cons in Hall as [Hs Hall].
    rewrite acceptedCount_cons in Hcount.
    pose proof (acceptedCount_nonneg config l) as Hnonneg.
    assert (Hstep := votes_voteStep_unanimous config st s a c Hvotes
                       ltac:(destruct (accepted config s); lia) Hs).
    rewrite tallySamples_cons, absorb_cons, acceptedCount_cons. cbn zeta.
    assert (Hno : accepted config s
                  && String.eqb (VotingStrategy config) "first-to-ahead-by-k"
                  && hasWinner (mapOrder r) (votes (voteStep config st s))
                       (K config) = false).
    { destruct (accepted config s) eqn:Hacc; [|done].
      rewrite Hstep, unanimousVotes_pos, hasWinner_singleton by lia.
      rewrite wrap_small by lia.
      destruct (Z.leb_spec (K config) (c + 1)); [lia|].
      by rewrite andb_false_r. }
    rewrite Hno.
    destruct (IH (voteStep config st s)
                (c + if accepted config s then 1 else 0) Hstep)
      as [Htally Hvotes']; [destruct (accepted config s); lia|lia|done|].
    split; [done|]. rewrite Hvotes'. f_equal. lia.
Qed.

Lemma tallySamples_app_Next r config (l1 l2 : list MDAPSample) :
  ∀ st st1,
    tallySamples r config st l1 = Returned (Next st1) →
    tallySamples r config st (l1 ++ l2) = tallySamples r config st1 l2.
Proof.
  induction l1 as [|s l1 IH]; intros st st1 Htally.
  - cbn in Htally. by injection Htally as ->.
  - rewrite <- app_comm_cons, tallySamples_cons.
    rewrite tallySamples_cons in Htally. cbn zeta in *.
    destruct (_ && _).
    + by apply declareWinner_not_Next in Htally.
    + by apply IH.
Qed.

(** X12.  Under first-to-ahead-by-k with [K ≥ 1], when the accepted
    samples at the head of the first round all propose the same action,
    the step commits that action exactly at its [K]-th accepted sample:
    not earlier, and without examining the rest of the round; with
    [K = 1] the first accepted sample decides. *)
Theorem unanimous_samples_commit_at_Kth r config sampler
    (pre post : list MDAPSample) (s : MDAPSample) (a : string) :
  VotingStrategy config = "first-to-ahead-by-k" →
  1 ≤ K config ≤ int_max →
  0 < MaxRetries config →
  sampler 0%nat = Returned (pre ++ s :: post) →
  Z.of_nat (length (pre ++ s :: post)) ≤ int_max →
  Forall (λ x, accepted config x = true → Action x = a) pre →
  accepted config s = true →
  Action s = a →
  acceptedCount config pre + 1 = K config →
  ∃ st,
    votingLoop r config sampler = Returned (Decided st a s)
    ∧ votes st = {[a := K config]}
    ∧ totalSamples st = Z.of_nat (length (pre ++ s :: post))
    ∧ st = absorb config
             (drawn initialVoteState (pre ++ s :: post)) (pre ++ [s]).
Proof.
  intros Hstrategy HK Hretries Hsampler Hlen Hpre Hs Hact Hcount.
  assert (Hmin : int_min ≤ 0) by (vm_compute; discriminate).
  unfold votingLoop.
  destruct (Z.to_nat (MaxRetries config)) as [|n] eqn:Hnat; [lia|].
  cbn [votingRounds]. rewrite Hsampler.
  set (st0 := drawn initialVoteState (pre ++ s :: post)).
  destruct (tallySamples_unanimous_below r config a pre HK st0 0)
    as [Htally Hvotes]; [done|done|lia|done|].
  rewrite (tallySamples_app_Next r config pre (s :: post) st0 _ Htally).
  rewrite tallySamples_cons. cbn zeta.
  assert (Hstep := votes_voteStep_unanimous config (absorb config st0 pre) s a
                     (0 + acceptedCount config pre) Hvotes
                     ltac:(pose proof (acceptedCount_nonneg config pre); lia)
                     (λ _, Hact)).
  rewrite Hs in Hstep.
  replace (0 + acceptedCount config pre + 1) with (K config) in Hstep by lia.
  rewrite unanimousVotes_pos in Hstep by lia.
  rewrite Hs, Hstrategy, Hstep, hasWinner_singleton by lia.
  rewrite wrap_small by lia.
  rewrite Z.leb_refl, String.eqb_refl. cbn [andb].
  unfold declareWinner. rewrite Hstep, getWinner_singleton by lia.
  rewrite samples_voteStep, Hs, (accepted_Action _ _ Hs), Hact.
  rewrite String.eqb_refl. cbn [andb].
  assert (Hst : voteStep config (absorb config st0 pre) s
                = absorb config st0 (pre ++ [s])).
  { by rewrite absorb_app, absorb_cons. }
  eexists. split; [reflexivity|]. split; [done|]. split; [|done].
  rewrite Hst, totalSamples_absorb. unfold st0. cbn [drawn totalSamples].
  change (totalSamples initialVoteState) with 0.
  rewrite wrap_small by lia. lia.
Qed.

Lemma unanimous_samples_commit_at_Kth_witness :
  ∃ st,
    votingLoop ex_raceRuntime ex_raceConfig
      (ex_sampler ex_raceRuntime ex_raceProvider ex_raceConfig)
    = Returned
        (Decided st "A"
           (mkSample ("move = A" +:+ nl +:+ "next_state = sA") "A"
              (AString "sA") 12 false ""))
    ∧ votes st = {["A" := 2]}
    ∧ totalSamples st = 5.
Proof.
  destruct (unanimous_samples_commit_at_Kth ex_raceRuntime ex_raceConfig
              (ex_sampler ex_raceRuntime ex_raceProvider ex_raceConfig)
              [mkSample ("move = A" +:+ nl +:+ "next_state = sA") "A"
                 (AString "sA") 12 false ""]
              [mkSample ("move = B" +:+ nl +:+ "next_state = sB") "B"
                 (AString "sB") 12 false "";
               mkSample ("move = A" +:+ nl +:+ "next_state = sA") "A"
                 (AString "sA") 12 false "";
               mkSample ("move = C" +:+ nl +:+ "next_state = sC") "C"
                 (AString "sC") 12 false ""]
              (mkSample ("move = A" +:+ nl +:+ "next_state = sA") "A"
                 (AString "sA") 12 false "")
              "A")
    as (st & Hloop & Hvotes & Htotal & _).
  - reflexivity.
  - vm_compute. split; discriminate.
  - reflexivity.
  - vm_compute. reflexivity.
  - vm_compute. discriminate.
  - constructor; [intros _; reflexivity|constructor].
  - reflexivity.
  - reflexivity.
  - reflexivity.
  - exists st. split; [exact Hloop|]. split; [exact Hvotes|exact Htotal].
Defined.

(** ** What a step reads of its microstep *)

(** X13.  A step reads its microstep only through the name and the
    properties [use] and [prompt]: two microsteps that agree on these
    are executed alike, whatever else they declare ([context],
    [output_schema], ...). *)
Theorem step_reads_only_name_use_prompt r (step step' : MicrostepEntity)
    config currentState lastAction strategy stepIdx totalSteps :
  ms_Name step = ms_Name step' →
  GetProperty (ms_Properties step) "use"
  = GetProperty (ms_Properties step') "use" →
  GetProperty (ms_Properties step) "prompt"
  = GetProperty (ms_Properties step') "prompt" →
  executeMicrostepWithVoting r step config currentState lastAction strategy
    stepIdx totalSteps
  = executeMicrostepWithVoting r step' config currentState lastAction strategy
      stepIdx totalSteps.
Proof.
  intros Hname Huse Hprompt.
  unfold executeMicrostepWithVoting, resolveMicrostepAgent, buildMDAPPrompt,
    failedStep.
  by rewrite Hname, Huse, Hprompt.
Qed.

Lemma step_reads_only_name_use_prompt_witness :
  executeMicrostepWithVoting ex_hanoiRuntime
    (ms_SetProperty
       (ms_SetProperty (ex_step "move") "context"
          (ReferenceValue "file" "rules"))
       "output_schema" (StringValue "Move"))
    (ex_config "majority" 1 3) AEmptyMap "" "" 0 1
  = executeMicrostepWithVoting ex_hanoiRuntime (ex_step "move")
      (ex_config "majority" 1 3) AEmptyMap "" "" 0 1.
Proof.
  apply (step_reads_only_name_use_prompt ex_hanoiRuntime
           (ms_SetProperty
              (ms_SetProperty (ex_step "move") "context"
                 (ReferenceValue "file" "rules"))
              "output_schema" (StringValue "Move"))
           (ex_step "move")).
  - reflexivity.
  - vm_compute. reflexivity.
  - vm_compute. reflexivity.
Defined.

(** ** The step loop *)

Lemma generated_step_has_no_agent r stepIdx state strategy :
  resolveMicrostepAgent r (generateMicrostep stepIdx state strategy)
  = Err (ErrNoUse ("step-" +:+ fmtD stepIdx)).
Proof. reflexivity. Qed.

(** What the pipeline returns, in terms of its step loop. *)
Lemma runMDAPPipeline_exit r ctx pipeline calls exit :
  runMDAPPipeline r ctx pipeline = (calls, Returned exit) →
  ∃ calls',
    (∃ res,
       stepLoop r pipeline (loadMDAPConfig pipeline)
         (resolveStrategy r pipeline) (isDynamicOf pipeline)
         (totalStepsOf pipeline) (Z.to_nat (totalStepsOf pipeline)) 0
         (mkLoopState initialResult (initialState ctx) "")
       = (calls', Returned (Aborted res))
       ∧ exit = Aborted res
       ∧ calls = EmitProgress (startEvent pipeline) :: calls')
    ∨ (∃ ls,
         stepLoop r pipeline (loadMDAPConfig pipeline)
           (resolveStrategy r pipeline) (isDynamicOf pipeline)
           (totalStepsOf pipeline) (Z.to_nat (totalStepsOf pipeline)) 0
           (mkLoopState initialResult (initialState ctx) "")
         = (calls', Returned (Completed ls))
         ∧ exit = Completed
                    (mkLoopState (setSuccess (ls_result ls) (ls_state ls))
                       (ls_state ls) (ls_lastAction ls))
         ∧ calls = EmitProgress (startEvent pipeline) :: calls'
                   ++ [EmitProgress
                         (completionEvent r
                            (setSuccess (ls_result ls) (ls_state ls)))]).
Proof.
  unfold runMDAPPipeline. fold (isDynamicOf pipeline).
  destruct (stepLoop _ _ _ _ _ _ _ _ _) as [calls' [[ls|res]|msg]];
    intros [= <- <-]; exists calls'.
  - right. by exists ls.
  - left. by exists res.
Qed.

(** The loop, when it runs to its end. *)
Lemma stepLoop_completed r pipeline config strategy isDynamic totalSteps :
  ∀ n stepIdx ls calls ls',
    stepLoop r pipeline config strategy isDynamic totalSteps n stepIdx ls
    = (calls, Returned (Completed ls')) →
    TotalMicrosteps (ls_result ls')
    = TotalMicrosteps (ls_result ls) + Z.of_nat n
    ∧ er_Success (Embedded (ls_result ls'))
      = er_Success (Embedded (ls_result ls))
    ∧ er_Error (Embedded (ls_result ls')) = er_Error (Embedded (ls_result ls))
    ∧ length (stepOutputs calls) = n
    ∧ ((∀ name sr,
          er_StepResults (Embedded (ls_result ls)) !! name = Some sr →
          sr_Success sr = true ∧ sr_Error sr = None) →
       ∀ name sr,
         er_StepResults (Embedded (ls_result ls')) !! name = Some sr →
         sr_Success sr = true ∧ sr_Error sr = None)
    ∧ match last (stepOutputs calls) with
      | None =>
          ls_state ls' = ls_state ls ∧ ls_lastAction ls' = ls_lastAction ls
      | Some (name, output) =>
          ∃ content,
            output = AString content
            ∧ parseHanoiResponse content = (ls_lastAction ls', ls_state ls')
      end.
Proof.
  induction n as [|n IH]; intros stepIdx ls calls ls'.
  - cbn. intros [= <- <-]. cbn.
    split; [lia|]. split; [done|]. split; [done|]. split; [done|].
    split; [by intros H|by split].
  - cbn [stepLoop].
    pose proof (stepOutputs_checkpointBlock config stepIdx (ls_result ls)
                  (ls_state ls)) as Hcalls0.
    destruct (checkpointBlock config stepIdx (ls_result ls) (ls_state ls))
      as [calls0 result] eqn:Hck.
    apply checkpointBlock_frame in Hck as (Hemb & Htm & _).
    destruct (microstepAt pipeline isDynamic stepIdx (ls_state ls) strategy)
      as [microstep|] eqn:Hms; [|by intros [= ]].
    pose proof (fst_executeMicrostepWithVoting r microstep config (ls_state ls)
                  (ls_lastAction ls) strategy stepIdx totalSteps) as Hcalls1.
    destruct (executeMicrostepWithVoting r microstep config (ls_state ls)
                (ls_lastAction ls) strategy stepIdx totalSteps)
      as [calls1 [[[[stepResult action] newState] [err|]]|msg]] eqn:Hexec;
      [by intros [= ]| |by intros [= ]].
    apply executeMicrostepWithVoting_commit_parsed in Hexec
      as (content & Hout & Hparse & _ & Hsucc & Herr & _).
    destruct (stepLoop r pipeline config strategy isDynamic totalSteps n
                (stepIdx + 1) _) as [calls2 exit2] eqn:Hrest.
    intros [= <- ->].
    apply IH in Hrest as (Htm' & Hs & He & Hlen & Hall & Hlast).
    cbn [ls_result ls_state ls_lastAction recordStep Embedded
           TotalMicrosteps er_Success er_Error er_StepResults] in *.
    cbn [fst] in Hcalls0, Hcalls1.
    rewrite !stepOutputs_app, Hcalls0, Hcalls1. cbn [app].
    rewrite stepOutputs_SetStepOutput. cbn [length].
    split; [lia|]. split; [by rewrite Hs, Hemb|].
    split; [by rewrite He, Hemb|]. split; [by rewrite Hlen|].
    split.
    + intros Hinit. apply Hall. intros name sr Hsr.
      apply lookup_insert_Some in Hsr as [[_ <-]|[_ Hsr]]; [done|].
      rewrite Hemb in Hsr. by apply (Hinit name).
    + rewrite Hout.
      destruct (stepOutputs calls2) as [|o outs] eqn:Houts.
      * cbn in *. destruct Hlast as [-> ->]. by exists content.
      * change (last ((ms_Name microstep, AString content) :: o :: outs))
          with (last (o :: outs)).
        destruct (last (o :: outs)) as [[? ?]|] eqn:Hl; [exact Hlast|].
        by apply last_None in Hl.
Qed.

(** The loop, when a step fails. *)
Lemma stepLoop_aborted_trace r pipeline config strategy isDynamic totalSteps :
  ∀ n stepIdx ls calls res,
    stepLoop r pipeline config strategy isDynamic totalSteps n stepIdx ls
    = (calls, Returned (Aborted res)) →
    ∃ name cause calls',
      calls = calls'
              ++ [EmitProgress
                    (mkEvent ProgressTypeError (ErrorText r cause) name 0 ∅)]
      ∧ er_Error (Embedded res) = Some (ErrMicrostepFailed name cause)
      ∧ (length (stepOutputs calls) < n)%nat.
Proof.
  induction n as [|n IH]; intros stepIdx ls calls res.
  - cbn. by intros [= ].
  - cbn [stepLoop].
    pose proof (stepOutputs_checkpointBlock config stepIdx (ls_result ls)
                  (ls_state ls)) as Hcalls0.
    destruct (checkpointBlock config stepIdx (ls_result ls) (ls_state ls))
      as [calls0 result] eqn:Hck.
    destruct (microstepAt pipeline isDynamic stepIdx (ls_state ls) strategy)
      as [microstep|] eqn:Hms; [|by intros [= ]].
    pose proof (fst_executeMicrostepWithVoting r microstep config (ls_state ls)
                  (ls_lastAction ls) strategy stepIdx totalSteps) as Hcalls1.
    destruct (executeMicrostepWithVoting r microstep config (ls_state ls)
                (ls_lastAction ls) strategy stepIdx totalSteps)
      as [calls1 [[[[stepResult action] newState] [err|]]|msg]] eqn:Hexec;
      [| |by intros [= ]]; cbn [fst] in Hcalls0, Hcalls1.
    + intros [= <- <-].
      exists (ms_Name microstep), err, (calls0 ++ calls1).
      split; [by rewrite app_assoc|]. split; [done|].
      rewrite !stepOutputs_app, Hcalls0, Hcalls1. cbn. lia.
    + destruct (stepLoop r pipeline config strategy isDynamic totalSteps n
                  (stepIdx + 1) _) as [calls2 exit2] eqn:Hrest.
      intros [= <- ->].
      apply IH in Hrest as (name & cause & calls' & -> & Herr & Hlen).
      exists name, cause,
        (calls0 ++ calls1
         ++ [SetStepOutput (ms_Name microstep) (sr_Output stepResult)]
         ++ calls').
      split; [by rewrite <- !app_assoc|]. split; [done|].
      rewrite !stepOutputs_app, !length_app in *.
      rewrite stepOutputs_EmitProgress in *.
      rewrite Hcalls0, Hcalls1, stepOutputs_SetStepOutput.
      rewrite stepOutputs_app, stepOutputs_EmitProgress.
      change (stepOutputs []) with (@nil (string * Any)) in *.
      cbn [length] in *. rewrite length_app. cbn [length]. lia.
Qed.

(** ** What the caller of a pipeline receives *)

Lemma executeMDAPPipeline_result r ctx entity calls res err :
  executeMDAPPipeline r ctx entity = (calls, Returned (res, err)) →
  match res with
  | Some e => err = er_Error e ∧ (er_Success e = true ↔ err = None)
  | None => err = Some ErrNotPipeline ∧ calls = []
  end.
Proof.
  unfold executeMDAPPipeline.
  destruct entity as [pipeline|other]; [|by intros [= <- <- <-]].
  destruct (runMDAPPipeline r ctx pipeline) as [calls' [exit|msg]] eqn:Hrun;
    [|by intros [= ]].
  apply runMDAPPipeline_exit in Hrun
    as (calls0 & [(result & Hloop & -> & _)|(ls & Hloop & -> & _)]).
  - intros [= _ <- <-]. split; [done|].
    apply stepLoop_aborted in Hloop as (Hs & _ & name & cause & -> & _).
    rewrite Hs. cbn. split; intros; discriminate.
  - intros [= _ <- <-].
    apply stepLoop_completed in Hloop as (_ & _ & He & _).
    cbn in *. by rewrite He.
Qed.

(** X14.  What the dispatch returns is consistent: a result is returned
    only for an entity of type [mdap_pipeline]; the error returned with
    it is the one recorded in it, and it says [Success] exactly when no
    error is returned.  Without a result there is always an error, and
    no call has been made on the context. *)
Theorem dispatch_success_iff_no_error r ctx entity calls res err :
  executeEntityDispatch r ctx entity = (calls, Returned (res, err)) →
  match res with
  | Some e =>
      entityType entity = "mdap_pipeline"
      ∧ err = er_Error e
      ∧ (er_Success e = true ↔ err = None)
  | None => err ≠ None ∧ calls = []
  end.
Proof.
  unfold executeEntityDispatch.
  destruct (String.eqb_spec (entityType entity) "mdap_pipeline")
    as [Htype|Htype].
  - intros Hexec. apply executeMDAPPipeline_result in Hexec.
    destruct res as [e|].
    + by destruct Hexec.
    + destruct Hexec as [-> ->]. done.
  - by intros [= <- <- <-].
Qed.

Lemma dispatch_success_iff_no_error_witness :
  ∃ e,
    snd (executeEntityDispatch ex_hanoiRuntime ex_emptyContext
           (IsMDAPPipeline (ex_twoSteps 1)))
    = Returned (Some e, None)
    ∧ entityType (IsMDAPPipeline (ex_twoSteps 1)) = "mdap_pipeline"
    ∧ None = er_Error e
    ∧ (er_Success e = true ↔ (None : option error) = None).
Proof.
  destruct (executeEntityDispatch ex_hanoiRuntime ex_emptyContext
              (IsMDAPPipeline (ex_twoSteps 1)))
    as [calls [[[e|] err]|msg]] eqn:Hexec;
    try (vm_compute in Hexec; discriminate).
  assert (Herr : err = None).
  { vm_compute in Hexec. by injection Hexec as _ _ <-. }
  subst err. exists e. split; [reflexivity|].
  exact (dispatch_success_iff_no_error ex_hanoiRuntime ex_emptyContext
           (IsMDAPPipeline (ex_twoSteps 1)) calls (Some e) None Hexec).
Defined.

(** X15.  A run that returns no error has set the output of exactly
    [total_steps] steps, every step result it returns is a success, and
    its output is the next state parsed from the content of the last
    step output set (the initial state when there was no step). *)
Theorem completed_run_output_is_last_parsed_state r ctx pipeline calls e :
  executeMDAPPipeline r ctx (IsMDAPPipeline pipeline)
  = (calls, Returned (Some e, None)) →
  length (stepOutputs calls) = Z.to_nat (totalStepsOf pipeline)
  ∧ er_Success e = true
  ∧ (∀ name sr, er_StepResults e !! name = Some sr →
                sr_Success sr = true ∧ sr_Error sr = None)
  ∧ match last (stepOutputs calls) with
    | None => er_Output e = initialState ctx
    | Some (_, output) =>
        ∃ content,
          output = AString content
          ∧ er_Output e = snd (parseHanoiResponse content)
    end.
Proof.
  unfold executeMDAPPipeline.
  destruct (runMDAPPipeline r ctx pipeline) as [calls' [exit|msg]] eqn:Hrun;
    [|by intros [= ]].
  apply runMDAPPipeline_exit in Hrun
    as (calls0 & [(result & Hloop & -> & _)|(ls & Hloop & -> & ->)]).
  - apply stepLoop_aborted in Hloop as (_ & _ & name & cause & Herr & _).
    intros [= _ _ Hnone]. congruence.
  - intros [= <- <-].
    apply stepLoop_completed in Hloop as (_ & _ & _ & Hlen & Hall & Hlast).
    rewrite stepOutputs_EmitProgress, stepOutputs_app, stepOutputs_EmitProgress.
    change (stepOutputs []) with (@nil (string * Any)). rewrite app_nil_r.
    cbn [ls_result ls_state ls_lastAction setSuccess set_Embedded Embedded
           er_Success er_Output er_StepResults] in *.
    split; [done|]. split; [done|]. split.
    + apply Hall. intros name sr Hsr.
      unfold initialResult in Hsr. cbn [Embedded er_StepResults] in Hsr.
      by rewrite lookup_empty in Hsr.
    + destruct (last (stepOutputs calls0)) as [[name output]|].
      * destruct Hlast as (content & -> & Hparse). exists content.
        by rewrite Hparse.
      * by destruct Hlast as [-> _].
Qed.

Lemma completed_run_output_is_last_parsed_state_witness :
  ∃ calls e,
    executeMDAPPipeline ex_hanoiRuntime ex_emptyContext
      (IsMDAPPipeline (ex_twoSteps 1))
    = (calls, Returned (Some e, None))
    ∧ length (stepOutputs calls) = 2%nat
    ∧ er_Output e = AString "A=[2,3,4,5], B=[], C=[1]".
Proof.
  destruct (executeMDAPPipeline ex_hanoiRuntime ex_emptyContext
              (IsMDAPPipeline (ex_twoSteps 1)))
    as [calls [[[e|] [err|]]|msg]] eqn:Hexec;
    try (vm_compute in Hexec; discriminate).
  exists calls, e. split; [reflexivity|].
  destruct (completed_run_output_is_last_parsed_state ex_hanoiRuntime
              ex_emptyContext (ex_twoSteps 1) calls e Hexec)
    as (Hlen & _ & _ & _).
  split; [exact Hlen|].
  vm_compute in Hexec. by injection Hexec as _ <-.
Defined.

(** X16.  When a run fails, the error returned wraps the error of the
    failing step under its name, the last call made on the context is the
    error event of that step, whose message is the text of the step's own
    error, and fewer than [total_steps] step outputs have been set. *)
Theorem failed_run_ends_with_error_event r ctx pipeline calls res err :
  executeMDAPPipeline r ctx (IsMDAPPipeline pipeline)
  = (calls, Returned (res, Some err)) →
  ∃ name cause,
    err = ErrMicrostepFailed name cause
    ∧ last calls
      = Some (EmitProgress
                (mkEvent ProgressTypeError (ErrorText r cause) name 0 ∅))
    ∧ (length (stepOutputs calls) < Z.to_nat (totalStepsOf pipeline))%nat.
Proof.
  unfold executeMDAPPipeline.
  destruct (runMDAPPipeline r ctx pipeline) as [calls' [exit|msg]] eqn:Hrun;
    [|by intros [= ]].
  apply runMDAPPipeline_exit in Hrun
    as (calls0 & [(result & Hloop & -> & ->)|(ls & Hloop & -> & _)]);
    [|by intros [= ]].
  intros [= <- _ Herr].
  apply stepLoop_aborted_trace in Hloop
    as (name & cause & calls1 & -> & Herr' & Hlen).
  exists name, cause. split; [congruence|]. split; [|done].
  rewrite app_comm_cons. apply last_snoc.
Qed.

Lemma failed_run_ends_with_error_event_witness :
  ∃ calls res name cause,
    executeMDAPPipeline ex_failingRuntime ex_emptyContext
      (IsMDAPPipeline (ex_twoSteps 1))
    = (calls, Returned (res, Some (ErrMicrostepFailed name cause)))
    ∧ last calls
      = Some (EmitProgress
                (mkEvent ProgressTypeError
                   (ErrorText ex_failingRuntime cause) name 0 ∅))
    ∧ (length (stepOutputs calls) < 2)%nat.
Proof.
  destruct (executeMDAPPipeline ex_failingRuntime ex_emptyContext
              (IsMDAPPipeline (ex_twoSteps 1)))
    as [calls [[res [err|]]|msg]] eqn:Hexec;
    try (vm_compute in Hexec; discriminate).
  destruct (failed_run_ends_with_error_event ex_failingRuntime
              ex_emptyContext (ex_twoSteps 1) calls res err Hexec)
    as (name & cause & -> & Hlast & Hlen).
  exists calls, res, name, cause.
  split; [reflexivity|]. split; [exact Hlast|exact Hlen].
Defined.

(** X17.  A pipeline without microsteps and with a positive
    [total_steps] always fails at its first step: the generated
    microstep [step-0] names no agent, so no model is consulted and the
    run returns the wrapped [use] error. *)
Theorem dynamic_pipeline_fails_at_step_0 r ctx pipeline :
  pl_Microsteps pipeline = [] →
  0 < totalStepsOf pipeline →
  snd (executeMDAPPipeline r ctx (IsMDAPPipeline pipeline))
  = Returned
      (Some (mkExecutionResult false ANil
               (Some (ErrMicrostepFailed "step-0" (ErrNoUse "step-0"))) ∅
               {["step-0" :=
                   mkStepResult "step-0" false ANil
                     (Some (ErrNoUse "step-0"))]}),
       Some (ErrMicrostepFailed "step-0" (ErrNoUse "step-0"))).
Proof.
  intros Hnone Hsteps.
  unfold executeMDAPPipeline, runMDAPPipeline.
  rewrite Hnone. cbn [length Nat.eqb andb].
  destruct (Z.ltb_spec 0 (totalStepsOf pipeline)) as [_|?]; [|lia].
  destruct (Z.to_nat (totalStepsOf pipeline)) as [|n] eqn:Hnat; [lia|].
  cbn [stepLoop microstepAt].
  assert (Hck : ∀ result state,
             checkpointBlock (loadMDAPConfig pipeline) 0 result state
             = ([], result)).
  { intros. unfold checkpointBlock, checkpointDue.
    by rewrite andb_false_r. }
  rewrite Hck.
  unfold executeMicrostepWithVoting.
  destruct (Z.eqb_spec (totalStepsOf pipeline) 0) as [?|_]; [lia|].
  rewrite generated_step_has_no_agent.
  reflexivity.
Qed.

Lemma dynamic_pipeline_fails_at_step_0_witness :
  snd (executeMDAPPipeline ex_hanoiRuntime ex_emptyContext
         (IsMDAPPipeline
            (mkPipeline "solve" (<["total_steps" := ex_number 31]> ∅) []
               None)))
  = Returned
      (Some (mkExecutionResult false ANil
               (Some (ErrMicrostepFailed "step-0" (ErrNoUse "step-0"))) ∅
               {["step-0" :=
                   mkStepResult "step-0" false ANil
                     (Some (ErrNoUse "step-0"))]}),
       Some (ErrMicrostepFailed "step-0" (ErrNoUse "step-0"))).
Proof.
  apply (dynamic_pipeline_fails_at_step_0 ex_hanoiRuntime ex_emptyContext
           (mkPipeline "solve" (<["total_steps" := ex_number 31]> ∅) []
              None)).
  - reflexivity.
  - vm_compute. reflexivity.
Defined.

(** X18.  A pipeline whose number of steps is zero or negative succeeds
    at once: it consults no model, emits the start and the completion
    event only, and returns the initial state as its output. *)
Theorem pipeline_without_steps_succeeds r ctx pipeline :
  totalStepsOf pipeline ≤ 0 →
  executeMDAPPipeline r ctx (IsMDAPPipeline pipeline)
  = ([EmitProgress (startEvent pipeline);
      EmitProgress
        (completionEvent r
           (setSuccess initialResult (initialState ctx)))],
     Returned
       (Some (mkExecutionResult true (initialState ctx) None ∅ ∅), None)).
Proof.
  intros Hsteps.
  unfold executeMDAPPipeline, runMDAPPipeline.
  destruct (Z.to_nat (totalStepsOf pipeline)) as [|n] eqn:Hnat; [|lia].
  reflexivity.
Qed.

Lemma pipeline_without_steps_succeeds_witness :
  executeMDAPPipeline ex_hanoiRuntime ex_emptyContext
    (IsMDAPPipeline (mkPipeline "idle" ∅ [] None))
  = ([EmitProgress (startEvent (mkPipeline "idle" ∅ [] None));
      EmitProgress
        (completionEvent ex_hanoiRuntime
           (setSuccess initialResult (initialState ex_emptyContext)))],
     Returned (Some (mkExecutionResult true AEmptyMap None ∅ ∅), None)).
Proof.
  apply (pipeline_without_steps_succeeds ex_hanoiRuntime ex_emptyContext
           (mkPipeline "idle" ∅ [] None)).
  vm_compute. discriminate.
Defined.

(** ** Checkpoints *)

Lemma checkpointBlock_Checkpoints config stepIdx result state :
  map StepIndex
    (Checkpoints (snd (checkpointBlock config stepIdx result state)))
  = map StepIndex (Checkpoints result)
    ++ List.filter (checkpointDue config) [stepIdx].
Proof.
  unfold checkpointBlock. cbn [List.filter].
  destruct (checkpointDue config stepIdx); cbn.
  - by rewrite map_app.
  - by rewrite app_nil_r.
Qed.

Lemma stepLoop_checkpoints r pipeline config strategy isDynamic totalSteps :
  ∀ n stepIdx ls calls exit,
    stepLoop r pipeline config strategy isDynamic totalSteps n stepIdx ls
    = (calls, Returned exit) →
    map StepIndex (Checkpoints (exitResult exit))
    = map StepIndex (Checkpoints (ls_result ls))
      ++ List.filter (checkpointDue config)
           (seqZ stepIdx
              (TotalMicrosteps (exitResult exit)
               - TotalMicrosteps (ls_result ls))).
Proof.
  induction n as [|n IH]; intros stepIdx ls calls exit Hloop.
  - cbn in Hloop. injection Hloop as <- <-. cbn [exitResult].
    rewrite Z.sub_diag. cbn. by rewrite app_nil_r.
  - pose proof (stepLoop_step_results _ _ _ _ _ _ _ _ _ _ _ Hloop)
      as (Hmono & _).
    revert Hloop Hmono. cbn [stepLoop].
    pose proof (checkpointBlock_Checkpoints config stepIdx (ls_result ls)
                  (ls_state ls)) as Hcps.
    destruct (checkpointBlock config stepIdx (ls_result ls) (ls_state ls))
      as [calls0 result] eqn:Hck.
    apply checkpointBlock_frame in Hck as (_ & Htm & _).
    cbn [snd] in Hcps.
    destruct (microstepAt pipeline isDynamic stepIdx (ls_state ls) strategy)
      as [microstep|] eqn:Hms; [|by intros [= ]].
    destruct (executeMicrostepWithVoting r microstep config (ls_state ls)
                (ls_lastAction ls) strategy stepIdx totalSteps)
      as [calls1 [[[[stepResult action] newState] [err|]]|msg]] eqn:Hexec;
      [| |by intros [= ]].
    + intros [= <- <-] _.
      cbn [exitResult setError set_Embedded recordStep Checkpoints
             TotalMicrosteps].
      rewrite Hcps, Htm.
      replace (TotalMicrosteps (ls_result ls) + 1
               - TotalMicrosteps (ls_result ls)) with 1 by lia.
      done.
    + destruct (stepLoop r pipeline config strategy isDynamic totalSteps n
                  (stepIdx + 1) _) as [calls2 exit2] eqn:Hrest.
      intros [= <- ->] Hmono.
      pose proof (stepLoop_step_results _ _ _ _ _ _ _ _ _ _ _ Hrest)
        as (Hmono' & _).
      apply IH in Hrest.
      cbn [ls_result recordStep Checkpoints TotalMicrosteps] in Hrest, Hmono'.
      rewrite Hrest, Hcps, Htm, <- app_assoc. f_equal.
      rewrite Htm in Hmono'.
      rewrite (seqZ_cons stepIdx) by lia.
      cbn [List.filter app].
      replace (Z.succ stepIdx) with (stepIdx + 1) by lia.
      replace (Z.pred (TotalMicrosteps (exitResult exit)
                       - TotalMicrosteps (ls_result ls)))
        with (TotalMicrosteps (exitResult exit)
              - (TotalMicrosteps (ls_result ls) + 1)) by lia.
      by destruct (checkpointDue config stepIdx).
Qed.

(** X19.  The checkpoints of a run are taken, in increasing order and
    once each, at the head of every step started whose index is a
    positive multiple of a positive [CheckpointInterval]; an interval of
    zero or less takes none, and step 0 never has one. *)
Theorem checkpoints_at_multiples_of_interval r ctx pipeline calls exit :
  runMDAPPipeline r ctx pipeline = (calls, Returned exit) →
  map StepIndex (Checkpoints (exitResult exit))
  = checkpointIndices (loadMDAPConfig pipeline)
      (TotalMicrosteps (exitResult exit))
  ∧ ∀ i, i ∈ map StepIndex (Checkpoints (exitResult exit))
         ↔ 0 < CheckpointInterval (loadMDAPConfig pipeline)
           ∧ 0 < i < TotalMicrosteps (exitResult exit)
           ∧ Z.rem i (CheckpointInterval (loadMDAPConfig pipeline)) = 0.
Proof.
  intros Hrun.
  assert (Heq : map StepIndex (Checkpoints (exitResult exit))
                = checkpointIndices (loadMDAPConfig pipeline)
                    (TotalMicrosteps (exitResult exit))).
  { apply runMDAPPipeline_exit in Hrun
      as (calls0 & [(result & Hloop & -> & _)|(ls & Hloop & -> & _)]);
      apply stepLoop_checkpoints in Hloop; cbn in Hloop |- *;
      rewrite Hloop; unfold checkpointIndices; by rewrite Z.sub_0_r. }
  split; [done|]. intros i. rewrite Heq. unfold checkpointIndices.
  rewrite list_elem_of_In, filter_In, <- list_elem_of_In, elem_of_seqZ.
  unfold checkpointDue. rewrite !andb_true_iff, !Z.ltb_lt, Z.eqb_eq. lia.
Qed.

Lemma checkpoints_at_multiples_of_interval_witness :
  ∃ calls exit,
    runMDAPPipeline ex_hanoiRuntime ex_emptyContext (ex_twoSteps 1)
    = (calls, Returned exit)
    ∧ map StepIndex (Checkpoints (exitResult exit)) = [1]
    ∧ TotalMicrosteps (exitResult exit) = 2.
Proof.
  destruct (runMDAPPipeline ex_hanoiRuntime ex_emptyContext (ex_twoSteps 1))
    as [calls [exit|msg]] eqn:Hrun;
    [|vm_compute in Hrun; discriminate].
  exists calls, exit. split; [reflexivity|].
  destruct (checkpoints_at_multiples_of_interval ex_hanoiRuntime
              ex_emptyContext (ex_twoSteps 1) calls exit Hrun) as [Heq _].
  assert (Htm : TotalMicrosteps (exitResult exit) = 2).
  { vm_compute in Hrun. by injection Hrun as _ <-. }
  split; [|exact Htm]. rewrite Heq, Htm. vm_compute. reflexivity.
Defined.

(** ** Configuration loader *)

Lemma withString_stringAt cfg key upd c :
  withString cfg key upd c
  = match stringAt cfg key with Some sv => upd c sv | None => c end.
Proof.
  unfold withString, stringAt. by destruct (GetProperty cfg key) as [[]|].
Qed.

Lemma withNumber_numberAt cfg key upd c :
  withNumber cfg key upd c
  = match numberAt cfg key with Some nv => upd c nv | None => c end.
Proof.
  unfold withNumber, numberAt. by destruct (GetProperty cfg key) as [[]|].
Qed.

Lemma withBool_boolAt cfg key upd c :
  withBool cfg key upd c
  = match boolAt cfg key with Some bv => upd c bv | None => c end.
Proof.
  unfold withBool, boolAt. by destruct (GetProperty cfg key) as [[]|].
Qed.

(** X20.  The loader reads each of its eight keys on its own and
    validates nothing: a field takes the value of its key when that value
    has the expected type (a number is truncated to an integer, whatever
    its sign or size) and keeps its default otherwise, so that a value of
    the wrong type is ignored without an error. *)
Theorem loadMDAPConfig_reads_each_key_alone pipeline cfg :
  pl_Config pipeline = Some cfg →
  loadMDAPConfig pipeline
  = mkConfig
      (default "first-to-ahead-by-k" (stringAt cfg "voting_strategy"))
      (default 3 (int_of_float64 <$> numberAt cfg "k"))
      (default 3 (int_of_float64 <$> numberAt cfg "parallel_samples"))
      (default (S754_zero false) (numberAt cfg "temperature_first"))
      (default float64_0_1 (numberAt cfg "temperature_subsequent"))
      (default 750 (int_of_float64 <$> numberAt cfg "max_output_tokens"))
      (default true (boolAt cfg "require_format"))
      (default 1000 (int_of_float64 <$> numberAt cfg "checkpoint_interval"))
      100 None.
Proof.
  intros Hcfg. unfold loadMDAPConfig. rewrite Hcfg. cbn zeta.
  rewrite withString_stringAt, !withNumber_numberAt, withBool_boolAt.
  destruct (stringAt cfg "voting_strategy");
    destruct (numberAt cfg "k");
    destruct (numberAt cfg "parallel_samples");
    destruct (numberAt cfg "temperature_first");
    destruct (numberAt cfg "temperature_subsequent");
    destruct (numberAt cfg "max_output_tokens");
    destruct (boolAt cfg "require_format");
    destruct (numberAt cfg "checkpoint_interval");
    reflexivity.
Qed.

Lemma loadMDAPConfig_reads_each_key_alone_witness :
  loadMDAPConfig
    (mkPipeline "p" ∅ []
       (Some (<["k" := StringValue "5"]>
                (<["max_output_tokens" := ex_number (-1)]> ∅))))
  = mkConfig "first-to-ahead-by-k" 3 3 (S754_zero false) float64_0_1 (-1)
      true 1000 100 None.
Proof.
  exact (loadMDAPConfig_reads_each_key_alone
           (mkPipeline "p" ∅ []
              (Some (<["k" := StringValue "5"]>
                       (<["max_output_tokens" := ex_number (-1)]> ∅))))
           (<["k" := StringValue "5"]>
              (<["max_output_tokens" := ex_number (-1)]> ∅))
           eq_refl).
Defined.

(** ** The workspace loader *)

Lemma Load_marks_loaded {W : Type} (env : LoadEnv W) (l : Loader W)
    (filePath absPath : string) :
  Abs env filePath = Ok absPath →
  default false (ld_loaded (fst (Load env l filePath)) !! absPath) = true.
Proof.
  intros Habs. unfold Load. rewrite Habs.
  destruct (default false (ld_loaded l !! absPath)) eqn:Hloaded; [done|].
  destruct (ReadFile env absPath) as [content|err]; cbn.
  - destruct (Parse env content) as [entities|err]; cbn.
    + destruct (addEntities env (ld_workspace l) absPath entities); cbn.
      by rewrite lookup_insert_eq.
    + by rewrite lookup_insert_eq.
  - by rewrite lookup_insert_eq.
Qed.

(** X21.  A file is loaded at most once, by its absolute path, and an
    attempt counts: once [Load] has got as far as marking a path, every
    later [Load] of a path with the same absolute path returns no error
    and changes nothing, also when the first attempt failed to read, to
    parse or to add the file. *)
Theorem Load_same_path_again_is_noop {W : Type} (env : LoadEnv W)
    (l : Loader W) (filePath filePath' absPath : string) :
  Abs env filePath = Ok absPath →
  Abs env filePath' = Ok absPath →
  Load env (fst (Load env l filePath)) filePath'
  = (fst (Load env l filePath), None).
Proof.
  intros Habs Habs'.
  pose proof (Load_marks_loaded env l filePath absPath Habs) as Hmarked.
  unfold Load at 1. by rewrite Habs', Hmarked.
Qed.

Lemma Load_same_path_again_is_noop_witness :
  snd (Load (ex_loadEnv ∅ "x") (NewLoader []) "missing.ls")
  = Some (ErrReadFile "/work/missing.ls" (ExternalError "no such file"))
  ∧ Load (ex_loadEnv ∅ "x")
      (fst (Load (ex_loadEnv ∅ "x") (NewLoader []) "missing.ls"))
      "missing.ls"
    = (fst (Load (ex_loadEnv ∅ "x") (NewLoader []) "missing.ls"), None).
Proof.
  split; [reflexivity|].
  apply (Load_same_path_again_is_noop (ex_loadEnv ∅ "x") (NewLoader [])
           "missing.ls" "missing.ls" "/work/missing.ls");
    reflexivity.
Defined.

Lemma addAll_cons {W : Type} (env : LoadEnv W) (ws : W) (entity : AnyEntity)
    (rest : list AnyEntity) :
  addAll env ws (entity :: rest)
  = addAll env (fst (AddEntity env ws entity)) rest.
Proof. done. Qed.

Lemma addEntities_spec {W : Type} (env : LoadEnv W) (absPath : string)
    (entities : list AnyEntity) :
  ∀ ws ws' err,
    addEntities env ws absPath entities = (ws', err) →
    match err with
    | None =>
        ws' = addAll env ws entities
        ∧ ∀ pre entity post,
            entities = pre ++ entity :: post →
            snd (AddEntity env (addAll env ws pre) entity) = None
    | Some e =>
        ∃ pre entity post cause,
          entities = pre ++ entity :: post
          ∧ e = ErrAddEntity (entityName entity) absPath cause
          ∧ AddEntity env (addAll env ws pre) entity = (ws', Some cause)
          ∧ ∀ pre1 entity1 post1,
              pre = pre1 ++ entity1 :: post1 →
              snd (AddEntity env (addAll env ws pre1) entity1) = None
    end.
Proof.
  induction entities as [|entity rest IH]; intros ws ws' err.
  - cbn. intros [= <- <-]. split; [done|]. by intros [|? ?] ? ? ?.
  - cbn [addEntities].
    destruct (AddEntity env ws entity) as [ws1 [cause|]] eqn:Hadd.
    + intros [= <- <-]. exists [], entity, rest, cause.
      split; [done|]. split; [done|]. split; [done|].
      by intros [|? ?] ? ? ?.
    + intros Hrest. apply IH in Hrest. destruct err as [e|].
      * destruct Hrest
          as (pre & entity' & post & cause & -> & -> & Hfail & Hpre).
        exists (entity :: pre), entity', post, cause.
        split; [done|]. split; [done|].
        rewrite addAll_cons, Hadd. split; [done|].
        intros [|e1 pre1] entity1 post1 Hsplit.
        { injection Hsplit as <- _. cbn. by rewrite Hadd. }
        injection Hsplit as <- ->. rewrite addAll_cons, Hadd.
        by apply (Hpre pre1 entity1 post1).
      * destruct Hrest as [-> Hall]. rewrite addAll_cons, Hadd.
        split; [done|].
        intros [|e1 pre1] entity1 post1 Hsplit.
        { injection Hsplit as <- _. cbn. by rewrite Hadd. }
        injection Hsplit as <- ->. rewrite addAll_cons, Hadd.
        by apply (Hall pre1 entity1 post1).
Qed.

(** X22.  A first load of a file that is read and parsed adds its
    entities to the workspace one by one in the order of the file, each
    to the workspace that the ones before it have left.  Without an
    error the workspace has accepted every entity of the file.  With an
    error, the error names the first entity that the workspace refuses:
    the workspace has accepted every entity before it and none after it
    is offered; nothing is rolled back: the loader keeps the workspace
    as the refused call left it, and the file stays marked as loaded. *)
Theorem Load_adds_in_order_without_rollback {W : Type} (env : LoadEnv W)
    (l l' : Loader W) (filePath absPath content : string)
    (entities : list AnyEntity) (err : option LoadError) :
  Abs env filePath = Ok absPath →
  default false (ld_loaded l !! absPath) = false →
  ReadFile env absPath = Ok content →
  Parse env content = Ok entities →
  Load env l filePath = (l', err) →
  ld_loaded l' = <[absPath := true]> (ld_loaded l)
  ∧ ld_baseDir l' = Dir env absPath
  ∧ match err with
    | None =>
        ld_workspace l' = addAll env (ld_workspace l) entities
        ∧ ∀ pre entity post,
            entities = pre ++ entity :: post →
            snd (AddEntity env (addAll env (ld_workspace l) pre) entity)
            = None
    | Some e =>
        ∃ pre entity post cause,
          entities = pre ++ entity :: post
          ∧ e = ErrAddEntity (entityName entity) absPath cause
          ∧ AddEntity env (addAll env (ld_workspace l) pre) entity
            = (ld_workspace l', Some cause)
          ∧ ∀ pre1 entity1 post1,
              pre = pre1 ++ entity1 :: post1 →
              snd (AddEntity env (addAll env (ld_workspace l) pre1) entity1)
              = None
    end.
Proof.
  intros Habs Hnew Hread Hparse. unfold Load.
  rewrite Habs, Hnew, Hread, Hparse. cbn [ld_workspace ld_loaded ld_baseDir].
  destruct (addEntities env (ld_workspace l) absPath entities)
    as [ws e] eqn:Hadd.
  intros [= <- <-]. cbn [ld_workspace ld_loaded ld_baseDir].
  split; [done|]. split; [done|].
  apply addEntities_spec in Hadd. by destruct e as [e|].
Qed.

Lemma Load_adds_in_order_without_rollback_witness :
  ∃ l',
    Load (ex_loadEnv
            {["/work/a.ls" :=
                [IsOther (mkEntity "agent" "solver" ∅);
                 IsOther (mkEntity "agent" "x" ∅);
                 IsOther (mkEntity "agent" "checker" ∅)]]} "x")
      (NewLoader []) "a.ls"
    = (l', Some (ErrAddEntity "x" "/work/a.ls"
                   (ExternalError "entity refused")))
    ∧ ld_workspace l' = ["solver"]
    ∧ ld_loaded l' = <["/work/a.ls" := true]> ∅
    ∧ ld_baseDir l' = "/work".
Proof.
  set (env := ex_loadEnv
                {["/work/a.ls" :=
                    [IsOther (mkEntity "agent" "solver" ∅);
                     IsOther (mkEntity "agent" "x" ∅);
                     IsOther (mkEntity "agent" "checker" ∅)]]} "x").
  destruct (Load env (NewLoader []) "a.ls") as [l' err] eqn:Hload.
  assert (Herr : err = Some (ErrAddEntity "x" "/work/a.ls"
                               (ExternalError "entity refused"))).
  { change err with (snd (l', err)). rewrite <- Hload.
    vm_compute. reflexivity. }
  assert (Hws : ld_workspace l' = ["solver"]).
  { change l' with (fst (l', err)). rewrite <- Hload.
    vm_compute. reflexivity. }
  destruct (Load_adds_in_order_without_rollback env (NewLoader []) l'
              "a.ls" "/work/a.ls" "/work/a.ls"
              [IsOther (mkEntity "agent" "solver" ∅);
               IsOther (mkEntity "agent" "x" ∅);
               IsOther (mkEntity "agent" "checker" ∅)] err)
    as (Hloaded & Hdir & _).
  - vm_compute. reflexivity.
  - vm_compute. reflexivity.
  - vm_compute. reflexivity.
  - vm_compute. reflexivity.
  - exact Hload.
  - exists l'. rewrite Herr. split; [done|]. split; [exact Hws|].
    split; [exact Hloaded|exact Hdir].
Defined.

(** ** The prompt and the parser *)

Lemma Join_snoc (parts : list string) (x sep : string) :
  parts ≠ [] → Join (parts ++ [x]) sep = Join parts sep +:+ sep +:+ x.
Proof.
  induction parts as [|p rest IH]; [done|]. intros _.
  destruct rest as [|q rest]; [done|].
  change (Join ((p :: q :: rest) ++ [x]) sep)
    with (p +:+ sep +:+ Join ((q :: rest) ++ [x]) sep).
  rewrite IH by done.
  change (Join (p :: q :: rest) sep) with (p +:+ sep +:+ Join (q :: rest) sep).
  by rewrite !append_assoc.
Qed.

(** X23.  The format template that every prompt ends with is itself a
    well-formed answer for the parser: whatever the state, the strategy,
    the last action and the task, the prompt parses to the action
    [<your move>] and the next state [<resulting state>], so that a
    response that echoes the prompt passes the empty-action check. *)
Theorem prompt_template_parses_as_a_move r step state lastAction strategy :
  parseHanoiResponse (buildMDAPPrompt r step state lastAction strategy)
  = ("<your move>", AString "<resulting state>").
Proof.
  unfold buildMDAPPrompt.
  set (parts :=
         match GetProperty (ms_Properties step) "prompt" with
         | Some (StringValue sv) => _
         | _ => _
         end).
  assert (Hparts : parts ≠ []).
  { unfold parts.
    assert (Hne : ∀ (l : list string) x, l ++ [x] ≠ [])
      by (by intros [|? ?] ?).
    destruct (GetProperty (ms_Properties step) "prompt") as [[]|];
      destruct (String.eqb lastAction ""); try apply Hne;
      destruct (String.eqb strategy ""); apply Hne. }
  rewrite Join_snoc by done.
  generalize (Join parts (nl +:+ nl)). intros body.
  replace (body +:+ (nl +:+ nl) +:+ requiredOutputFormat)
    with (((body +:+ (nl +:+ nl)
            +:+ "## Required Output Format" +:+ nl +:+ "Respond with exactly:")
           +:+ nl +:+ formatted "<your move>" "<resulting state>")
          +:+ nl +:+ (nl +:+ "No explanations, no extra text."))
    by (rewrite !append_assoc; reflexivity).
  rewrite parseHanoiResponse_app_nl, parseHanoiResponse_app_nl.
  rewrite SplitLines_formatted by done.
  cbn [fold_left].
  rewrite parseHanoiLine_move, parseHanoiLine_next_state.
  reflexivity.
Qed.

(** X24.  With a margin of zero or less, [hasWinner] holds for every
    non-empty tally of positive counts: under first-to-ahead-by-k such a
    [K] lets the first accepted sample decide. *)
Theorem hasWinner_nonpositive_k (ord : MapOrder) (m : gmap string Z)
    (k bound : Z) :
  m ≠ ∅ →
  votes_within bound m →
  bound ≤ 2 ^ 62 →
  - 2 ^ 62 ≤ k ≤ 0 →
  hasWinner ord m k = true.
Proof.
  intros Hne Hwithin Hbound Hk. unfold hasWinner.
  destruct (Nat.eqb_spec (size m) 0) as [Hsize|_].
  { by apply map_size_empty_iff in Hsize. }
  destruct (fold_left hasWinner_body (map snd (range ord m)) (0, 0))
    as [mx sec] eqn:Hfold.
  apply hasWinner_scan in Hfold
    as (Hle & _ & Hsec & _ & Hmx & _); [|lia].
  assert (Hmax : 2 ^ 62 ≤ int_max) by (vm_compute; discriminate).
  assert (Hmin : int_min ≤ - 2 ^ 62) by (vm_compute; discriminate).
  assert (mx ≤ bound).
  { destruct Hmx as [->|[a Ha]]; [|apply elem_of_range in Ha].
    - destruct (map_choose _ Hne) as (a & v & Hav).
      destruct (Hwithin _ _ Hav). lia.
    - by destruct (Hwithin _ _ Ha). }
  rewrite wrap_small by lia. apply Z.leb_le. lia.
Qed.

Lemma hasWinner_nonpositive_k_witness :
  hasWinner canonicalOrder (<["A" := 1]> {["B" := 1]}) 0 = true.
Proof.
  apply (hasWinner_nonpositive_k canonicalOrder (<["A" := 1]> {["B" := 1]})
           0 1).
  - vm_compute. discriminate.
  - apply votes_within_check. vm_compute. reflexivity.
  - lia.
  - lia.
Defined.

(** ** The filter, once more *)

(** X25.  The filter only ever sets the flag and the reason of a sample,
    and a rejection is final: a sample rejected under one configuration
    is rejected under every configuration, with the reason it was first
    given. *)
Theorem rejection_is_final (sample : MDAPSample) (config config' : MDAPConfig) :
  let '(flagged, sample') := isRedFlagged sample config in
  Content sample' = Content sample
  ∧ Action sample' = Action sample
  ∧ NextState sample' = NextState sample
  ∧ TokenCount sample' = TokenCount sample
  ∧ (flagged = false → sample' = sample)
  ∧ (flagged = true → isRedFlagged sample' config' = (true, sample')).
Proof.
  unfold isRedFlagged at 1.
  destruct (RedFlagged sample) eqn:Hflag.
  { repeat split; try done. intros _. unfold isRedFlagged. by rewrite Hflag. }
  destruct (_ && _); [by repeat split|].
  destruct (if RequireFormat config then _ else _); [by repeat split|].
  destruct (String.eqb (Action sample) ""); by repeat split.
Qed.

(** ** The order of the steps *)

Lemma stepLoop_dynamic_aborts r pipeline config strategy totalSteps n stepIdx
    ls :
  totalSteps ≠ 0 →
  ∃ calls res,
    stepLoop r pipeline config strategy true totalSteps (S n) stepIdx ls
    = (calls, Returned (Aborted res)).
Proof.
  intros Hsteps. cbn [stepLoop microstepAt].
  destruct (checkpointBlock config stepIdx (ls_result ls) (ls_state ls))
    as [calls0 result].
  unfold executeMicrostepWithVoting.
  apply Z.eqb_neq in Hsteps. rewrite Hsteps, generated_step_has_no_agent.
  by eexists _, _.
Qed.

Lemma stepLoop_completed_names r pipeline config strategy totalSteps :
  ∀ n stepIdx ls calls ls',
    0 ≤ stepIdx →
    stepLoop r pipeline config strategy false totalSteps n stepIdx ls
    = (calls, Returned (Completed ls')) →
    map fst (stepOutputs calls)
    = map ms_Name
        (take n (drop (Z.to_nat stepIdx) (pl_Microsteps pipeline))).
Proof.
  induction n as [|n IH]; intros stepIdx ls calls ls' Hidx.
  - cbn. by intros [= <- <-].
  - cbn [stepLoop microstepAt].
    pose proof (stepOutputs_checkpointBlock config stepIdx (ls_result ls)
                  (ls_state ls)) as Hcalls0.
    destruct (checkpointBlock config stepIdx (ls_result ls) (ls_state ls))
      as [calls0 result] eqn:Hck.
    destruct (pl_Microsteps pipeline !! Z.to_nat stepIdx)
      as [microstep|] eqn:Hms; [|by intros [= ]].
    pose proof (fst_executeMicrostepWithVoting r microstep config (ls_state ls)
                  (ls_lastAction ls) strategy stepIdx totalSteps) as Hcalls1.
    destruct (executeMicrostepWithVoting r microstep config (ls_state ls)
                (ls_lastAction ls) strategy stepIdx totalSteps)
      as [calls1 [[[[stepResult action] newState] [err|]]|msg]] eqn:Hexec;
      [by intros [= ]| |by intros [= ]].
    destruct (stepLoop r pipeline config strategy false totalSteps n
                (stepIdx + 1) _) as [calls2 exit2] eqn:Hrest.
    intros [= <- ->]. apply IH in Hrest; [|lia].
    cbn [fst] in Hcalls0, Hcalls1.
    rewrite !stepOutputs_app, Hcalls0, Hcalls1. cbn [app].
    rewrite stepOutputs_SetStepOutput. cbn [map fst]. rewrite Hrest.
    replace (Z.to_nat (stepIdx + 1)) with (S (Z.to_nat stepIdx)) by lia.
    rewrite (drop_S _ _ _ Hms). done.
Qed.

(** X26.  A run that returns no error has executed the microsteps in
    the order in which the pipeline declares them, each once: the step
    outputs were set, in this order, under the names of the first
    [total_steps] microsteps. *)
Theorem completed_run_follows_declaration_order r ctx pipeline calls e :
  executeMDAPPipeline r ctx (IsMDAPPipeline pipeline)
  = (calls, Returned (Some e, None)) →
  map fst (stepOutputs calls)
  = map ms_Name
      (take (Z.to_nat (totalStepsOf pipeline)) (pl_Microsteps pipeline)).
Proof.
  unfold executeMDAPPipeline.
  destruct (runMDAPPipeline r ctx pipeline) as [calls' [exit|msg]] eqn:Hrun;
    [|by intros [= ]].
  apply runMDAPPipeline_exit in Hrun
    as (calls0 & [(result & Hloop & -> & _)|(ls & Hloop & -> & ->)]).
  - apply stepLoop_aborted in Hloop as (_ & _ & name & cause & Herr & _).
    intros [= _ _ Hnone]. congruence.
  - intros [= <- _].
    rewrite stepOutputs_EmitProgress, stepOutputs_app, stepOutputs_EmitProgress.
    change (stepOutputs []) with (@nil (string * Any)). rewrite app_nil_r.
    destruct (isDynamicOf pipeline) eqn:Hdyn.
    + destruct (Z.to_nat (totalStepsOf pipeline)) as [|n] eqn:Hnat.
      { cbn in Hloop. by injection Hloop as <- _. }
      destruct (stepLoop_dynamic_aborts r pipeline (loadMDAPConfig pipeline)
                  (resolveStrategy r pipeline) (totalStepsOf pipeline) n 0
                  (mkLoopState initialResult (initialState ctx) ""))
        as (calls1 & res & Habort); [lia|].
      rewrite Habort in Hloop. discriminate.
    + apply stepLoop_completed_names in Hloop; [|lia].
      by rewrite Hloop.
Qed.

Lemma completed_run_follows_declaration_order_witness :
  ∃ calls e,
    executeMDAPPipeline ex_hanoiRuntime ex_emptyContext
      (IsMDAPPipeline (ex_twoSteps 1))
    = (calls, Returned (Some e, None))
    ∧ map fst (stepOutputs calls) = ["first"; "second"].
Proof.
  destruct (executeMDAPPipeline ex_hanoiRuntime ex_emptyContext
              (IsMDAPPipeline (ex_twoSteps 1)))
    as [calls [[[e|] [err|]]|msg]] eqn:Hexec;
    try (vm_compute in Hexec; discriminate).
  exists calls, e. split; [reflexivity|].
  exact (completed_run_follows_declaration_order ex_hanoiRuntime
           ex_emptyContext (ex_twoSteps 1) calls e Hexec).
Defined.
